(** * cn tree: kvset lists, sampling statistics, compaction bookkeeping

    A shallow embedding of the cn tree core (cn_tree.c): the per-node
    kvset lists, the sampling engine, the point lookup descent, the
    compaction preparation / commit / release steps, the concurrent root
    spill FIFO and the capped-tree trimmer.

    Conventions.
    - C integers are [Z] with the wrap-around written out ([u32], [u64],
      [s64]).
    - A node's [tn_kvset_list] is a [list kvset], head = newest.  A list
      entry pointer ([cw_mark], [le]) is the position of the entry in
      that list; [list_prev_entry] is the position before it,
      [list_next_entry] the position after it.
    - A node pointer is the position of the node in [ct_nodes]; the root
      is at position 0.
    - A pointer to a compaction work descriptor is a key of the store
      [gmap nat cn_compaction_work]; the descriptor is shared between
      the node's [tn_rspills] FIFO and the thread running the job.
    - Stepping off a list and dereferencing the result, or dividing by
      zero, is undefined in C: the model returns [None] there.
    - [assert] compiles away in release builds; asserted conditions are
      not part of the modelled behaviour. *)

From Stdlib Require Import ZArith Lia Bool.
From stdpp Require Import base option list gmap.

Local Open Scope Z_scope.

(** ** Machine integers *)

Definition u16_max : Z := 65535.

Definition u32 (z : Z) : Z := z mod 2 ^ 32.
Definition u64 (z : Z) : Z := z mod 2 ^ 64.

(** Two's complement 64-bit signed value of [z]. *)
Definition s64 (z : Z) : Z := (z + 2 ^ 63) mod 2 ^ 64 - 2 ^ 63.

Definition in_u64 (z : Z) : Prop := 0 <= z < 2 ^ 64.
Definition in_s64 (z : Z) : Prop := - 2 ^ 63 <= z < 2 ^ 63.

(** ** Error values *)

Inductive errno : Type :=
  | EINVAL | ENOMEM | ENOSPC | EBUG | ESHUTDOWN
  | EOTHER (code : Z).

(** [merr_t]: [MERR_OK] is the value 0, [merr e] packs an errno. *)
Inductive merr_t : Type :=
  | MERR_OK
  | merr (e : errno).

Definition merr_is_err (e : merr_t) : bool :=
  match e with MERR_OK => false | merr _ => true end.

#[global] Instance errno_eq_dec : EqDecision errno.
Proof. solve_decision. Defined.
#[global] Instance merr_eq_dec : EqDecision merr_t.
Proof. solve_decision. Defined.

(** ** Statistics records *)

(** Modelled from the spec: [struct kvset_stats] is declared in kvset.h,
    which is not among the sources; the fields are the ones cn_tree.c and
    cn_metrics.c read, 64-bit unsigned as the [u64] locals that receive
    them, plus the header-block written length and the kvset count that
    the node accessors fold. *)
Record kvset_stats : Type := mk_kst {
  kst_keys : Z;
  kst_kvsets : Z;
  kst_halen : Z;
  kst_hwlen : Z;
  kst_kalen : Z;
  kst_kwlen : Z;
  kst_valen : Z;
  kst_vwlen : Z;
  kst_vulen : Z
}.

Definition kst_zero : kvset_stats := mk_kst 0 0 0 0 0 0 0 0 0.

(** Modelled from the spec: [kvset_stats_add(add, result)] (kvset.h, not
    among the sources) folds the counters of one kvset into a running
    total, field by field. *)
Definition kvset_stats_add (add result : kvset_stats) : kvset_stats :=
  mk_kst (u64 (kst_keys result + kst_keys add))
         (u32 (kst_kvsets result + kst_kvsets add))
         (u64 (kst_halen result + kst_halen add))
         (u64 (kst_hwlen result + kst_hwlen add))
         (u64 (kst_kalen result + kst_kalen add))
         (u64 (kst_kwlen result + kst_kwlen add))
         (u64 (kst_valen result + kst_valen add))
         (u64 (kst_vwlen result + kst_vwlen add))
         (u64 (kst_vulen result + kst_vulen add)).

(** Modelled from the spec: [struct cn_node_stats] (cn_metrics.h, not among
    the sources): the rolled-up kvset stats and the derived fields the
    finish step writes. *)
Record cn_node_stats : Type := mk_ns {
  ns_kst : kvset_stats;
  ns_keys_uniq : Z;
  ns_hclen : Z;
  ns_kclen : Z;
  ns_vclen : Z;
  ns_pcap : Z
}.

Definition ns_zero : cn_node_stats := mk_ns kst_zero 0 0 0 0 0.

(** Modelled from the spec: [cn_ns_keys] (cn_metrics.h, not among the
    sources), the number of keys of a node. *)
Definition cn_ns_keys (s : cn_node_stats) : Z := kst_keys (ns_kst s).

(** Modelled from the spec: [cn_ns_kvsets] (cn_metrics.h, not among the
    sources), the number of kvsets of a node. *)
Definition cn_ns_kvsets (s : cn_node_stats) : Z := kst_kvsets (ns_kst s).

(** Modelled from the spec: [cn_ns_alen] (cn_metrics.h, not among the
    sources), the allocated length of a node: header, key and value
    blocks. *)
Definition cn_ns_alen (s : cn_node_stats) : Z :=
  u64 (u64 (kst_halen (ns_kst s) + kst_kalen (ns_kst s)) + kst_valen (ns_kst s)).

(** Modelled from the spec: [cn_ns_wlen] (cn_metrics.h, not among the
    sources), the written length of a node. *)
Definition cn_ns_wlen (s : cn_node_stats) : Z :=
  u64 (u64 (kst_hwlen (ns_kst s) + kst_kwlen (ns_kst s)) + kst_vwlen (ns_kst s)).

(** Modelled from the spec: [cn_ns_clen] (cn_metrics.h, not among the
    sources), the compacted length of a node, from the three derived
    fields the finish step stores. *)
Definition cn_ns_clen (s : cn_node_stats) : Z :=
  u64 (u64 (ns_hclen s + ns_kclen s) + ns_vclen s).

(** Modelled from the spec: [struct cn_samp_stats] (cn_metrics.h, not among
    the sources): the five counters of a samp record, signed 64-bit so
    that differences of them are counters too. *)
Record cn_samp_stats : Type := mk_samp {
  r_alen : Z;
  r_wlen : Z;
  i_alen : Z;
  l_alen : Z;
  l_good : Z
}.

Definition samp_zero : cn_samp_stats := mk_samp 0 0 0 0 0.

(** [total.f += now.f - orig.f] for each of the five counters. *)
Definition samp_apply_delta (total now orig : cn_samp_stats) : cn_samp_stats :=
  mk_samp (s64 (r_alen total + s64 (r_alen now - r_alen orig)))
          (s64 (r_wlen total + s64 (r_wlen now - r_wlen orig)))
          (s64 (i_alen total + s64 (i_alen now - i_alen orig)))
          (s64 (l_alen total + s64 (l_alen now - l_alen orig)))
          (s64 (l_good total + s64 (l_good now - l_good orig))).

Definition samp_add (a b : cn_samp_stats) : cn_samp_stats :=
  mk_samp (s64 (r_alen a + r_alen b)) (s64 (r_wlen a + r_wlen b))
          (s64 (i_alen a + i_alen b)) (s64 (l_alen a + l_alen b))
          (s64 (l_good a + l_good b)).

Definition samp_wf (s : cn_samp_stats) : Prop :=
  in_s64 (r_alen s) /\ in_s64 (r_wlen s) /\ in_s64 (i_alen s) /\
  in_s64 (l_alen s) /\ in_s64 (l_good s).

(** ** Media classes *)

Inductive hse_mclass : Type :=
  | HSE_MCLASS_CAPACITY | HSE_MCLASS_STAGING | HSE_MCLASS_PMEM | HSE_MCLASS_INVALID.

Inductive hse_mclass_policy_age : Type :=
  | HSE_MPOLICY_AGE_ROOT | HSE_MPOLICY_AGE_INTERNAL | HSE_MPOLICY_AGE_LEAF.

Inductive hse_mclass_policy_dtype : Type :=
  | HSE_MPOLICY_DTYPE_KEY | HSE_MPOLICY_DTYPE_VALUE.

(** ** Keys, kvsets, nodes, trees *)

(** A key is its bytes, each in 0..255. *)
Definition key := list Z.

(** A hyperloglog sketch is the vector of its registers; the operations on
    it belong to the consumed interfaces below. *)
Definition hlog := list Z.

Inductive key_lookup_res : Type :=
  | NOT_FOUND | FOUND_VAL | FOUND_TMB | FOUND_PTMB | FOUND_MULTIPLE.

#[global] Instance key_lookup_res_eq_dec : EqDecision key_lookup_res.
Proof. solve_decision. Defined.

(** Modelled from the spec: a kvset is opaque to the tree (kvset.h is not
    among the sources); this is the part of it the tree reads through the
    kvset getters and writes through [kvset_set_workid]. *)
Record kvset : Type := mk_kvset {
  ks_id : Z;
  ks_dgen : Z;
  ks_compc : Z;
  ks_workid : Z;
  ks_seqno_max : Z;
  ks_max_key : option key;
  ks_stats : kvset_stats;
  ks_hlog : hlog
}.

Definition kvset_get_dgen (k : kvset) : Z := ks_dgen k.
Definition kvset_get_compc (k : kvset) : Z := ks_compc k.
Definition kvset_get_workid (k : kvset) : Z := ks_workid k.
Definition kvset_get_seqno_max (k : kvset) : Z := ks_seqno_max k.
Definition kvset_get_max_key (k : kvset) : option key := ks_max_key k.
Definition kvset_statsp (k : kvset) : kvset_stats := ks_stats k.
Definition kvset_get_hlog (k : kvset) : hlog := ks_hlog k.

Definition kvset_set_workid (k : kvset) (id : Z) : kvset :=
  mk_kvset (ks_id k) (ks_dgen k) (ks_compc k) id (ks_seqno_max k)
           (ks_max_key k) (ks_stats k) (ks_hlog k).

Record cn_tree_node : Type := mk_tn {
  tn_compacting : Z;
  tn_busycnt : Z;
  tn_hlog : option hlog;
  tn_ns : cn_node_stats;
  tn_samp : cn_samp_stats;
  tn_update_incr_dgen : Z;
  tn_size_max : Z;
  tn_nodeid : Z;
  tn_isroot : bool;
  tn_cgen : Z;
  tn_kvset_list : list kvset;
  tn_rspills : list nat;
  tn_rspills_wedged : bool
}.

Definition cn_node_isleaf (tn : cn_tree_node) : bool := negb (tn_isroot tn).
Definition cn_node_isroot (tn : cn_tree_node) : bool := tn_isroot tn.

(** Field updates of a node. *)
Definition tn_set_samp_state (tn : cn_tree_node) (h : option hlog)
    (ns : cn_node_stats) (samp : cn_samp_stats) (incr_dgen : Z) : cn_tree_node :=
  mk_tn (tn_compacting tn) (tn_busycnt tn) h ns samp incr_dgen (tn_size_max tn)
        (tn_nodeid tn) (tn_isroot tn) (tn_cgen tn) (tn_kvset_list tn)
        (tn_rspills tn) (tn_rspills_wedged tn).

Definition tn_set_kvset_list (tn : cn_tree_node) (l : list kvset) : cn_tree_node :=
  mk_tn (tn_compacting tn) (tn_busycnt tn) (tn_hlog tn) (tn_ns tn) (tn_samp tn)
        (tn_update_incr_dgen tn) (tn_size_max tn) (tn_nodeid tn) (tn_isroot tn)
        (tn_cgen tn) l (tn_rspills tn) (tn_rspills_wedged tn).

Definition tn_set_cgen (tn : cn_tree_node) (g : Z) : cn_tree_node :=
  mk_tn (tn_compacting tn) (tn_busycnt tn) (tn_hlog tn) (tn_ns tn) (tn_samp tn)
        (tn_update_incr_dgen tn) (tn_size_max tn) (tn_nodeid tn) (tn_isroot tn)
        g (tn_kvset_list tn) (tn_rspills tn) (tn_rspills_wedged tn).

Definition tn_set_compacting (tn : cn_tree_node) (c : Z) : cn_tree_node :=
  mk_tn c (tn_busycnt tn) (tn_hlog tn) (tn_ns tn) (tn_samp tn)
        (tn_update_incr_dgen tn) (tn_size_max tn) (tn_nodeid tn) (tn_isroot tn)
        (tn_cgen tn) (tn_kvset_list tn) (tn_rspills tn) (tn_rspills_wedged tn).

Definition tn_set_rspills (tn : cn_tree_node) (q : list nat) : cn_tree_node :=
  mk_tn (tn_compacting tn) (tn_busycnt tn) (tn_hlog tn) (tn_ns tn) (tn_samp tn)
        (tn_update_incr_dgen tn) (tn_size_max tn) (tn_nodeid tn) (tn_isroot tn)
        (tn_cgen tn) (tn_kvset_list tn) q (tn_rspills_wedged tn).

Record cn_tree : Type := mk_tree {
  ct_nodes : list cn_tree_node;
  ct_samp : cn_samp_stats;
  ct_fanout : Z;
  ct_capped : bool;
  ct_last_ptseq : Z;
  ct_last_ptlen : Z;
  ct_last_ptomb : list Z
}.

Definition ct_set_nodes_samp (t : cn_tree) (nodes : list cn_tree_node)
    (samp : cn_samp_stats) : cn_tree :=
  mk_tree nodes samp (ct_fanout t) (ct_capped t) (ct_last_ptseq t)
          (ct_last_ptlen t) (ct_last_ptomb t).

Definition ct_set_nodes (t : cn_tree) (nodes : list cn_tree_node) : cn_tree :=
  ct_set_nodes_samp t nodes (ct_samp t).

Definition ct_set_ptomb (t : cn_tree) (seq len : Z) (buf : list Z) : cn_tree :=
  mk_tree (ct_nodes t) (ct_samp t) (ct_fanout t) (ct_capped t) seq len buf.

(** The root is the first entry of [ct_nodes]. *)
Definition ct_root : nat := 0%nat.

(** ** Consumed interfaces

    The hyperloglog library, the block-size estimators of the kblock and
    vblock builders, the media class policy, the kvset lookup primitives
    and the route map are collaborators of the tree; the tree's
    behaviour is stated for every implementation of them. *)
Class cn_iface : Type := {
  (** the sketch left by [hlog_reset]: every register cleared *)
  hlog_zero : hlog;
  (** [hlog_union(dst, src)]: the new contents of [dst] *)
  hlog_union : hlog -> hlog -> hlog;
  hlog_card : hlog -> Z;
  kbb_estimate_alen : Z -> hse_mclass -> Z;
  vbb_estimate_alen : Z -> hse_mclass -> Z;
  mclass_policy_get_type :
    hse_mclass_policy_age -> hse_mclass_policy_dtype -> hse_mclass;
  (** [kvset_lookup(kvset, kt, seq)]: the error and the value left in [*res] *)
  kvset_lookup : kvset -> key -> Z -> merr_t * key_lookup_res;
  (** [kvset_pfx_lookup(kvset, kt, seq, res, qctx)], given the current
      [*res] and [qctx->seen]: the error, the new [*res], the new
      [qctx->seen] *)
  kvset_pfx_lookup :
    kvset -> key -> Z -> key_lookup_res -> Z -> merr_t * key_lookup_res * Z;
  kvset_wbti_alloc : merr_t;
  (** [route_map_lookup(map, key)]: position of the node the key routes to *)
  route_map_lookup : key -> option nat
}.

(** ** Sampling engine *)

Section sampling.
Context {E : cn_iface}.

Definition cn_tree_node_mclass (tn : cn_tree_node)
    (dtype : hse_mclass_policy_dtype) : hse_mclass :=
  let age :=
    if cn_node_isleaf tn then HSE_MPOLICY_AGE_LEAF
    else if cn_node_isroot tn then HSE_MPOLICY_AGE_ROOT
    else HSE_MPOLICY_AGE_INTERNAL in
  mclass_policy_get_type age dtype.

Definition tn_samp_clear (tn : cn_tree_node) : cn_tree_node :=
  let h :=
    match tn_hlog tn with
    | Some _ => if negb (cn_node_isleaf tn) then None else Some hlog_zero
    | None => None
    end in
  tn_set_samp_state tn h ns_zero samp_zero 0.

Definition tn_samp_update_incr (tn : cn_tree_node) (k : kvset) (force : bool)
    : cn_tree_node * bool :=
  let dgen := kvset_get_dgen k in
  if negb force && (dgen <=? tn_update_incr_dgen tn) then (tn, false)
  else
    let h := match tn_hlog tn with
             | Some h => Some (hlog_union h (kvset_get_hlog k))
             | None => None
             end in
    let s := tn_ns tn in
    let s' := mk_ns (kvset_stats_add (kvset_statsp k) (ns_kst s))
                    (ns_keys_uniq s) (ns_hclen s) (ns_kclen s) (ns_vclen s)
                    (ns_pcap s) in
    let d := if tn_update_incr_dgen tn <? dgen then dgen
             else tn_update_incr_dgen tn in
    (tn_set_samp_state tn h s' (tn_samp tn) d, true).

(** The last part of [tn_samp_update_finish]: the node's samp record
    from its finished stats [s]. *)
Definition tn_samp_of (tn : cn_tree_node) (s : cn_node_stats) : cn_samp_stats :=
  if cn_node_isleaf tn then
    mk_samp 0 0 0 (s64 (cn_ns_alen s)) (s64 (cn_ns_clen s))
  else if cn_node_isroot tn then
    mk_samp (s64 (cn_ns_alen s)) (s64 (cn_ns_wlen s)) (s64 (cn_ns_alen s)) 0 0
  else
    mk_samp 0 0 (s64 (cn_ns_alen s)) 0 0.

Definition tn_samp_update_finish (tn : cn_tree_node) : option cn_tree_node :=
  let s := tn_ns tn in
  let pct_scale := 1024 in
  let num_keys := cn_ns_keys s in
  let keys_uniq :=
    match tn_hlog tn with
    | Some h =>
        let c := u64 (hlog_card h) in
        if num_keys <? c then num_keys else c
    | None => num_keys
    end in
  let pct :=
    if 0 <? num_keys then u32 (u64 (pct_scale * keys_uniq) / num_keys)
    else pct_scale in
  let kclen :=
    let cur_alen := kst_kalen (ns_kst s) in
    let new_wlen := u64 (kst_kwlen (ns_kst s) * pct) / pct_scale in
    let mclass := cn_tree_node_mclass tn HSE_MPOLICY_DTYPE_KEY in
    let new_clen := u64 (kbb_estimate_alen new_wlen mclass) in
    Z.min new_clen cur_alen in
  let vclen :=
    let cur_alen := kst_valen (ns_kst s) in
    let cur_wlen := u64 (kst_vulen (ns_kst s) * pct) / pct_scale in
    let mclass := cn_tree_node_mclass tn HSE_MPOLICY_DTYPE_VALUE in
    let new_clen := u64 (vbb_estimate_alen cur_wlen mclass) in
    Z.min new_clen cur_alen in
  let hclen := kst_halen (ns_kst s) in
  let s1 := mk_ns (ns_kst s) keys_uniq hclen kclen vclen (ns_pcap s) in
  if tn_size_max tn =? 0 then None
  else
    let pcap := Z.min u16_max (u64 (100 * cn_ns_clen s1) / tn_size_max tn) in
    let s2 := mk_ns (ns_kst s) keys_uniq hclen kclen vclen pcap in
    Some (tn_set_samp_state tn (tn_hlog tn) s2 (tn_samp_of tn s2)
            (tn_update_incr_dgen tn)).

(** The loop of [cn_tree_samp_update_compact] over the kvset list. *)
Fixpoint tn_samp_fold_all (tn : cn_tree_node) (need_finish : bool)
    (l : list kvset) : cn_tree_node * bool :=
  match l with
  | [] => (tn, need_finish)
  | k :: l' =>
      let '(tn', b) := tn_samp_update_incr tn k true in
      tn_samp_fold_all tn' (if b then true else need_finish) l'
  end.

(** The node part of [cn_tree_samp_update_compact]. *)
Definition tn_samp_recompute (tn : cn_tree_node) : option cn_tree_node :=
  let '(tn1, need_finish) :=
    tn_samp_fold_all (tn_samp_clear tn) false (tn_kvset_list tn) in
  if need_finish then tn_samp_update_finish tn1 else Some tn1.

Definition cn_tree_samp_update_compact (tree : cn_tree) (n : nat)
    : option cn_tree :=
  tn ← ct_nodes tree !! n;
  let orig := tn_samp tn in
  tn' ← tn_samp_recompute tn;
  Some (ct_set_nodes_samp tree (<[n := tn']> (ct_nodes tree))
          (samp_apply_delta (ct_samp tree) (tn_samp tn') orig)).

Definition cn_tree_samp_update_ingest (tree : cn_tree) (n : nat)
    : option cn_tree :=
  tn ← ct_nodes tree !! n;
  match tn_kvset_list tn with
  | [] => Some tree
  | k :: _ =>
      let orig := tn_samp tn in
      let '(tn1, b) := tn_samp_update_incr tn k false in
      tn' ← (if b then tn_samp_update_finish tn1 else Some tn1);
      Some (ct_set_nodes_samp tree (<[n := tn']> (ct_nodes tree))
              (samp_apply_delta (ct_samp tree) (tn_samp tn') orig))
  end.

(** [cn_tree_foreach_leaf]: every node after the root, in list order. *)
Fixpoint samp_ingest_leaves (tree : cn_tree) (leaf : nat) (count : nat)
    : option cn_tree :=
  match count with
  | O => Some tree
  | S c =>
      tree' ← cn_tree_samp_update_ingest tree leaf;
      samp_ingest_leaves tree' (S leaf) c
  end.

Definition cn_tree_samp_update_spill (tree : cn_tree) (n : nat)
    : option cn_tree :=
  tree' ← cn_tree_samp_update_compact tree n;
  samp_ingest_leaves tree' (S ct_root) (length (ct_nodes tree') - 1).

(** [cn_tree_foreach_node]: every node, the root first. *)
Fixpoint samp_compact_nodes (tree : cn_tree) (n : nat) (count : nat)
    : option cn_tree :=
  match count with
  | O => Some tree
  | S c =>
      tree' ← cn_tree_samp_update_compact tree n;
      samp_compact_nodes tree' (S n) c
  end.

Definition cn_tree_samp_init (tree : cn_tree) : option cn_tree :=
  samp_compact_nodes (ct_set_nodes_samp tree (ct_nodes tree) samp_zero)
    ct_root (length (ct_nodes tree)).

Definition cn_tree_samp (tree : cn_tree) : cn_samp_stats := ct_samp tree.

End sampling.

(** ** Ingest *)

(** [memcpy(dst, src, n)] into a buffer at least [n] bytes long. *)
Definition memcpy (dst src : list Z) (n : nat) : list Z :=
  take n src ++ drop n dst.

Section ingest.
Context {E : cn_iface}.

(** [cn_tree_ingest_update]: the new tree and the two arguments handed to
    [csched_notify_ingest]. *)
Definition cn_tree_ingest_update (tree : cn_tree) (k : kvset)
    (ptomb : list Z) (ptlen : Z) (ptseq : Z) : option (cn_tree * (Z * Z)) :=
  root ← ct_nodes tree !! ct_root;
  let root1 := tn_set_kvset_list root (k :: tn_kvset_list root) in
  let root2 := tn_set_cgen root1 (u32 (tn_cgen root1 + 1)) in
  let tree1 := ct_set_nodes tree (<[ct_root := root2]> (ct_nodes tree)) in
  let tree2 :=
    if ct_capped tree1 then
      ct_set_ptomb tree1 ptseq ptlen
        (memcpy (ct_last_ptomb tree1) ptomb (Z.to_nat ptlen))
    else tree1 in
  let pre := cn_tree_samp tree2 in
  tree3 ← cn_tree_samp_update_ingest tree2 ct_root;
  let post := cn_tree_samp tree3 in
  Some (tree3, (s64 (r_alen post - r_alen pre), s64 (r_wlen post - r_wlen pre))).

End ingest.

(** ** Lookup *)

Inductive query_type : Type := QUERY_GET | QUERY_PROBE_PFX.

(** Outcome of [cn_tree_lookup]: the returned error, [*res], the two
    sampled counters, and two ghost fields: the nodes whose lists were
    walked, in order, and the kvsets consulted, in order, each with the
    position of its node. *)
Record lookup_out : Type := mk_lookup_out {
  lo_err : merr_t;
  lo_res : key_lookup_res;
  lo_depth : Z;
  lo_nkvset : Z;
  lo_nodes : list nat;
  lo_trace : list (nat * kvset)
}.

Section lookup.
Context {E : cn_iface}.

(** The [list_for_each_entry] loop over one node.  [inl] is the [goto
    done] exit, [inr] the fall through with the state carried on. *)
Fixpoint cn_tree_lookup_node (qtype : query_type) (kt : key) (seq : Z)
    (node : nat) (l : list kvset) (res : key_lookup_res) (seen : Z)
    (nkvset : Z) (trace : list (nat * kvset))
    : (merr_t * key_lookup_res * Z * list (nat * kvset))
      + (key_lookup_res * Z * Z * list (nat * kvset)) :=
  match l with
  | [] => inr (res, seen, nkvset, trace)
  | k :: l' =>
      let nkvset' := nkvset + 1 in
      let trace' := trace ++ [(node, k)] in
      match qtype with
      | QUERY_GET =>
          let '(err, res') := kvset_lookup k kt seq in
          if merr_is_err err || negb (bool_decide (res' = NOT_FOUND))
          then inl (err, res', nkvset', trace')
          else cn_tree_lookup_node qtype kt seq node l' res' seen nkvset' trace'
      | QUERY_PROBE_PFX =>
          let '(err, res', seen') := kvset_pfx_lookup k kt seq res seen in
          if merr_is_err err || (1 <? seen') || bool_decide (res' = FOUND_PTMB)
          then inl (err, res', nkvset', trace')
          else cn_tree_lookup_node qtype kt seq node l' res' seen' nkvset' trace'
      end
  end.

(** The [while (node)] loop; [fuel] bounds the number of iterations. *)
Fixpoint cn_tree_lookup_descend (fuel : nat) (tree : cn_tree)
    (qtype : query_type) (kt : key) (seq : Z) (node : option nat)
    (res : key_lookup_res) (seen : Z) (depth nkvset : Z)
    (nodes : list nat) (trace : list (nat * kvset)) : option lookup_out :=
  match node with
  | None => Some (mk_lookup_out MERR_OK res depth nkvset nodes trace)
  | Some n =>
      match fuel with
      | O => None
      | S fuel' =>
          tn ← ct_nodes tree !! n;
          let nodes' := nodes ++ [n] in
          match cn_tree_lookup_node qtype kt seq n (tn_kvset_list tn)
                  res seen nkvset trace with
          | inl (err, res', nkvset', trace') =>
              Some (mk_lookup_out err res' depth nkvset' nodes' trace')
          | inr (res', seen', nkvset', trace') =>
              if negb (bool_decide (n = ct_root))
              then Some (mk_lookup_out MERR_OK res' depth nkvset' nodes' trace')
              else cn_tree_lookup_descend fuel' tree qtype kt seq
                     (route_map_lookup kt) res' seen' (depth + 1) nkvset'
                     nodes' trace'
          end
      end
  end.

Definition cn_tree_lookup (fuel : nat) (tree : cn_tree) (qtype : query_type)
    (kt : key) (seq : Z) : option lookup_out :=
  match qtype, kvset_wbti_alloc with
  | QUERY_PROBE_PFX, merr e =>
      Some (mk_lookup_out (merr e) NOT_FOUND 0 0 [] [])
  | _, _ =>
      cn_tree_lookup_descend fuel tree qtype kt seq (Some ct_root)
        NOT_FOUND 0 0 0 [] []
  end.

End lookup.

(** ** Compaction work descriptors *)

(** The actions [cn_comp_commit] and [cn_comp_compact] switch over. *)
Inductive cn_action : Type :=
  | CN_ACTION_NONE
  | CN_ACTION_COMPACT_K
  | CN_ACTION_COMPACT_KV
  | CN_ACTION_SPILL
  | CN_ACTION_SPLIT
  | CN_ACTION_END.

#[global] Instance cn_action_eq_dec : EqDecision cn_action.
Proof. solve_decision. Defined.

(** Modelled from the spec: [struct kvset_mblocks] (declared outside the
    sources): header block id, block counts and used value bytes of one
    output, as cn_comp_commit reads them. *)
Record kvset_mblocks : Type := mk_mblocks {
  hblk_bk_blkid : Z;
  kblks_n_blks : Z;
  vblks_n_blks : Z;
  bl_vused : Z
}.

Definition mblocks_zero : kvset_mblocks := mk_mblocks 0 0 0 0.

(** Modelled from the spec: [struct kvset_meta] is declared in kvset.h,
    which is not among the sources; the fields are the ones the commit
    step derives, with [km_compc] a 32-bit unsigned counter. *)
Record kvset_meta : Type := mk_km {
  km_dgen : Z;
  km_vused : Z;
  km_compc : Z;
  km_nodeid : Z
}.

(** Modelled from the spec: [struct cn_compaction_work] is declared in
    cn_tree_compact.h, which is not among the sources; the fields are the
    ones cn_tree.c reads and writes in the modelled steps.  [cw_node] and
    [cw_mark] are positions, [cw_completion] says whether a completion
    callback is set, an input iterator is the kvset it reads. *)
Record cn_compaction_work : Type := mk_cw {
  cw_node : nat;
  cw_action : cn_action;
  cw_mark : nat;
  cw_kvset_cnt : nat;
  cw_dgen_lo : Z;
  cw_dgen_hi : Z;
  cw_compc : Z;
  cw_err : merr_t;
  cw_canceled : bool;
  cw_have_token : bool;
  cw_rspill_conc : bool;
  cw_rspill_done : Z;
  cw_rspill_commit_in_progress : Z;
  cw_completion : bool;
  cw_drop_tombs : bool;
  cw_inputv : list kvset;
  cw_outc : Z;
  cw_outv : list kvset_mblocks;
  cw_kvsetidv : list Z;
  cw_output_nodev : list (option nat);
  cw_split_dgen : list Z
}.

Definition cw_set_prepared (w : cn_compaction_work) (ins : list kvset)
    (outc : Z) (outv : list kvset_mblocks) (idv : list Z)
    (nodev : list (option nat)) (split_dgen : list Z) (drop_tombs : bool)
    : cn_compaction_work :=
  mk_cw (cw_node w) (cw_action w) (cw_mark w) (cw_kvset_cnt w) (cw_dgen_lo w)
        (cw_dgen_hi w) (cw_compc w) (cw_err w) (cw_canceled w)
        (cw_have_token w) (cw_rspill_conc w) (cw_rspill_done w)
        (cw_rspill_commit_in_progress w) (cw_completion w) drop_tombs ins
        outc outv idv nodev split_dgen.

Definition cw_set_commit_status (w : cn_compaction_work) (in_progress : Z)
    (err : merr_t) (canceled : bool) : cn_compaction_work :=
  mk_cw (cw_node w) (cw_action w) (cw_mark w) (cw_kvset_cnt w) (cw_dgen_lo w)
        (cw_dgen_hi w) (cw_compc w) err canceled
        (cw_have_token w) (cw_rspill_conc w) (cw_rspill_done w)
        in_progress (cw_completion w) (cw_drop_tombs w) (cw_inputv w)
        (cw_outc w) (cw_outv w) (cw_kvsetidv w) (cw_output_nodev w)
        (cw_split_dgen w).

(** ** List entry pointers

    An entry pointer that may have run off the list is [option nat]:
    [None] is the list head, which is not an entry. *)

Definition list_prev_entry (le : option nat) : option nat :=
  match le with
  | Some (S p) => Some p
  | _ => None
  end.

Definition list_next_entry_or_null {A} (l : list A) (le : nat) : option nat :=
  if decide (S le < length l)%nat then Some (S le) else None.

Definition list_last_entry {A} (l : list A) : option nat :=
  match l with
  | [] => None
  | _ :: l' => Some (length l')
  end.

(** ** Compaction preparation *)

(** What the collaborators of one preparation do: whether each of the four
    allocations succeeds, what [kvset_iter_create] returns for a kvset,
    what [kvset_keep_vblocks] returns. *)
Record prepare_env : Type := mk_prepare_env {
  pe_calloc_ins : bool;
  pe_calloc_outs : bool;
  pe_calloc_vgmap : bool;
  pe_calloc_split : bool;
  pe_kvset_iter_create : kvset -> merr_t;
  pe_kvset_keep_vblocks : merr_t
}.

(** The iterator loop: an iterator is identified with the kvset it reads.
    Entry [i] of the walk fills [ins[cnt - 1 - i]], so the vector is built
    back to front. *)
Fixpoint prepare_iterators (pe : prepare_env) (l : list kvset)
    (le : option nat) (remaining : nat) (ins : list kvset)
    : option (merr_t * list kvset) :=
  match remaining with
  | O => Some (MERR_OK, ins)
  | S r =>
      i ← le;
      k ← l !! i;
      match pe_kvset_iter_create pe k with
      | MERR_OK => prepare_iterators pe l (list_prev_entry le) r (k :: ins)
      | merr e => Some (merr e, ins)
      end
  end.

(** [cn_tree_prepare_compaction]: the returned error and the descriptor.
    On an error return the descriptor's prepared fields are not
    meaningful and it is handed back as it was. *)
Definition cn_tree_prepare_compaction (pe : prepare_env) (tree : cn_tree)
    (w : cn_compaction_work) : option (merr_t * cn_compaction_work) :=
  node ← ct_nodes tree !! cw_node w;
  let kcompact := bool_decide (cw_action w = CN_ACTION_COMPACT_K) in
  let split := bool_decide (cw_action w = CN_ACTION_SPLIT) in
  let fanout := u32 (ct_fanout tree) in
  if split && negb (cn_ns_kvsets (tn_ns node) =? Z.of_nat (cw_kvset_cnt w))
  then Some (merr EBUG, w)
  else
    let n_outs :=
      if split then u32 (2 * Z.of_nat (cw_kvset_cnt w))
      else if kcompact || bool_decide (cw_action w = CN_ACTION_COMPACT_KV)
           then 1 else fanout in
    if negb split && negb (pe_calloc_ins pe) then Some (merr ENOMEM, w)
    else if negb (pe_calloc_outs pe) then Some (merr ENOMEM, w)
    else if (kcompact || split) && negb (pe_calloc_vgmap pe)
    then Some (merr ENOMEM, w)
    else if split && negb (pe_calloc_split pe) then Some (merr ENOMEM, w)
    else
      '(err, ins) ←
        (if split then Some (MERR_OK, [])
         else prepare_iterators pe (tn_kvset_list node) (Some (cw_mark w))
                (cw_kvset_cnt w) []);
      match err with
      | merr e => Some (merr e, w)
      | MERR_OK =>
          match (if kcompact then pe_kvset_keep_vblocks pe else MERR_OK) with
          | merr e => Some (merr e, w)
          | MERR_OK =>
              let outs := replicate (Z.to_nat n_outs) mblocks_zero in
              let idv := replicate (Z.to_nat n_outs) 0 in
              let nodev :=
                if split then cw_output_nodev w
                else replicate (Z.to_nat n_outs) None in
              let split_dgen :=
                if split then replicate (Z.to_nat n_outs) 0
                else cw_split_dgen w in
              let drop_tombs :=
                negb (bool_decide (cw_action w = CN_ACTION_SPILL)) &&
                bool_decide (Some (cw_mark w) = list_last_entry (tn_kvset_list node)) in
              Some (MERR_OK,
                    cw_set_prepared w ins n_outs outs idv nodev split_dgen
                      drop_tombs)
          end
      end.

(** ** Commit: metadata of one output *)

(** The metadata [cn_comp_commit] derives for output [i] when its header
    block id is set; [nodeidv] are the node ids minted for the two halves
    of a split. *)
Definition cn_comp_commit_meta (tree : cn_tree) (w : cn_compaction_work)
    (nodeidv : Z * Z) (i : nat) : option kvset_meta :=
  out ← cw_outv w !! i;
  let km_dgen0 := cw_dgen_hi w in
  let km_vused0 := bl_vused out in
  match cw_action w with
  | CN_ACTION_SPILL =>
      onode ← cw_output_nodev w !! i;
      n ← onode;
      node ← ct_nodes tree !! n;
      let compc0 := 0 in
      let compc :=
        if cn_ns_kvsets (tn_ns node) =? 0 then
          if (2 <? kblks_n_blks out) || (32 <? vblks_n_blks out)
          then u32 (compc0 + 7) else compc0
        else compc0 in
      Some (mk_km km_dgen0 km_vused0 compc (tn_nodeid node))
  | CN_ACTION_SPLIT =>
      if decide (cw_kvset_cnt w = 0%nat) then None
      else
        dgen ← cw_split_dgen w !! i;
        let nodeid :=
          if decide (i / cw_kvset_cnt w = 0)%nat then fst nodeidv
          else snd nodeidv in
        if decide (i / cw_kvset_cnt w < 2)%nat
        then Some (mk_km dgen km_vused0 (cw_compc w) nodeid)
        else None
  | _ =>
      node ← ct_nodes tree !! cw_node w;
      let le := list_next_entry_or_null (tn_kvset_list node) (cw_mark w) in
      let bump :=
        match le with
        | None => true
        | Some j =>
            match tn_kvset_list node !! j with
            | Some k => cw_compc w <? kvset_get_compc k
            | None => true
            end
        end in
      Some (mk_km km_dgen0 km_vused0
              (if bump then u32 (cw_compc w + 1) else cw_compc w)
              (tn_nodeid node))
  end.

(** ** Shared state of the compaction pipeline *)

Record cn_state : Type := mk_state {
  st_tree : cn_tree;
  st_works : gmap nat cn_compaction_work;
  (** descriptors handed to their completion callback, newest first *)
  st_completed : list nat
}.

Definition st_set_node (st : cn_state) (n : nat) (tn : cn_tree_node) : cn_state :=
  mk_state (ct_set_nodes (st_tree st) (<[n := tn]> (ct_nodes (st_tree st))))
           (st_works st) (st_completed st).

(** ** Concurrent root spills *)

(** [get_completed_spill]: the new state and the descriptor returned
    ([None] is the null pointer). *)
Definition get_completed_spill (st : cn_state) (node : nat)
    : option (cn_state * option nat) :=
  tn ← ct_nodes (st_tree st) !! node;
  match tn_rspills tn with
  | [] => Some (st, None)
  | h :: _ =>
      w ← st_works st !! h;
      if (cw_rspill_done w =? 0) || negb (cw_rspill_commit_in_progress w =? 0)
      then Some (st, None)
      else
        let w' :=
          if tn_rspills_wedged tn && negb (merr_is_err (cw_err w))
          then cw_set_commit_status w 1 (merr ESHUTDOWN) true
          else cw_set_commit_status w 1 (cw_err w) (cw_canceled w) in
        Some (mk_state (st_tree st) (<[h := w']> (st_works st))
                (st_completed st), Some h)
  end.

(** ** Release *)

Definition cn_node_comp_token_get (tn : cn_tree_node) : cn_tree_node * bool :=
  if tn_compacting tn =? 0 then (tn_set_compacting tn 1, true) else (tn, false).

Definition cn_node_comp_token_put (tn : cn_tree_node) : cn_tree_node :=
  if tn_compacting tn =? 1 then tn_set_compacting tn 0 else tn.

(** The "unmark input kvsets" loop of [cn_comp_release]. *)
Fixpoint release_unmark (l : list kvset) (le : option nat) (remaining : nat)
    : option (list kvset) :=
  match remaining with
  | O => Some l
  | S r =>
      i ← le;
      k ← l !! i;
      release_unmark (<[i := kvset_set_workid k 0]> l) (list_prev_entry le) r
  end.

Definition cn_comp_release (st : cn_state) (wp : nat) : option cn_state :=
  w ← st_works st !! wp;
  tn ← ct_nodes (st_tree st) !! cw_node w;
  let tn1 :=
    if cw_rspill_conc w
    then tn_set_rspills tn (filter (λ x, x ≠ wp) (tn_rspills tn))
    else tn in
  l ← (if merr_is_err (cw_err w)
       then release_unmark (tn_kvset_list tn1) (Some (cw_mark w)) (cw_kvset_cnt w)
       else Some (tn_kvset_list tn1));
  let tn2 := tn_set_kvset_list tn1 l in
  let tn3 := if cw_have_token w then cn_node_comp_token_put tn2 else tn2 in
  let st1 := st_set_node st (cw_node w) tn3 in
  if negb (cw_completion w)
  then Some (mk_state (st_tree st1) (delete wp (st_works st1)) (st_completed st1))
  else Some (mk_state (st_tree st1) (st_works st1) (wp :: st_completed st1)).

(** ** Capped-tree trimmer *)

(** Modelled from the spec: [memcmp] of the C library, on the first [n]
    bytes: the sign of the first difference. *)
Fixpoint memcmp (a b : list Z) (n : nat) : Z :=
  match n, a, b with
  | S n', x :: a', y :: b' =>
      if x <? y then -1 else if y <? x then 1 else memcmp a' b' n'
  | _, _, _ => 0
  end.

(** Modelled from the spec: [keycmp_prefix] (hse_util/keycmp.h, not among
    the sources).  [keycmp_prefix pfx key] is negative when the prefix
    lexicographically precedes the key, zero when the key starts with the
    prefix, positive otherwise. *)
Definition keycmp_prefix (pfx key : list Z) : Z :=
  if (length key <? length pfx)%nat then
    let rc := memcmp pfx key (length key) in
    if rc =? 0 then 1 else rc
  else memcmp pfx key (length pfx).

(** The test that ends the walk of [cn_tree_capped_compact] at a kvset. *)
Definition capped_stop (pt_len : Z) (pt_key : list Z) (horizon : Z)
    (k : kvset) : bool :=
  match kvset_get_max_key k with
  | None => false
  | Some max_key =>
      (pt_len =? 0) || (horizon <=? kvset_get_seqno_max k) ||
      (keycmp_prefix pt_key max_key <? 0)
  end.

(** Step 1 of [cn_tree_capped_compact]: [le] runs from [last] towards
    [first] (position 0); the result is [kvset_cnt] and [mark]. *)
Fixpoint capped_scan (pt_len : Z) (pt_key : list Z) (horizon : Z)
    (l : list kvset) (le : nat) (kvset_cnt : nat) (mark : option nat)
    : option (nat * option nat) :=
  match le with
  | O => Some (kvset_cnt, mark)
  | S prev =>
      k ← l !! le;
      if capped_stop pt_len pt_key horizon k then Some (kvset_cnt, mark)
      else capped_scan pt_len pt_key horizon l prev (S kvset_cnt) (Some le)
  end.

Section capped.
Context {E : cn_iface}.

(** [cn_tree_capped_compact]: [seqno_horizon] is what
    [cn_get_seqno_horizon] returns, [journal] the outcome of opening the
    transaction and logging the delete records.  The result is the new
    tree and the retired kvsets.  The eviction hints of the error path
    touch no modelled field. *)
Definition cn_tree_capped_compact (tree : cn_tree) (seqno_horizon : Z)
    (journal : merr_t) : option (cn_tree * list kvset) :=
  node ← ct_nodes tree !! ct_root;
  let l := tn_kvset_list node in
  let pt_seq := ct_last_ptseq tree in
  let pt_len := ct_last_ptlen tree in
  let pt_key := take (Z.to_nat pt_len) (ct_last_ptomb tree) in
  if decide (length l <= 1)%nat then Some (tree, [])
  else
    let horizon := if pt_seq <? seqno_horizon then pt_seq else seqno_horizon in
    '(kvset_cnt, mark) ←
      capped_scan pt_len pt_key horizon l (length l - 1) 0 None;
    match mark with
    | None => Some (tree, [])
    | Some m =>
        if merr_is_err journal then Some (tree, [])
        else
          let retired := drop m l in
          let node' := tn_set_kvset_list node (take m l) in
          let tree1 :=
            ct_set_nodes tree (<[ct_root := node']> (ct_nodes tree)) in
          tree2 ← cn_tree_samp_update_compact tree1 ct_root;
          Some (tree2, retired)
    end.

End capped.

(** ** Finding a node, inserting a kvset at start up *)

(** The [cn_tree_foreach_node] loop of [cn_tree_find_node], from position
    [pos] on: the first node with the id, or [None] for the null pointer. *)
Fixpoint find_node_from (nodes : list cn_tree_node) (pos : nat) (nodeid : Z)
    : option nat :=
  match nodes with
  | [] => None
  | tn :: rest =>
      if tn_nodeid tn =? nodeid then Some pos
      else find_node_from rest (S pos) nodeid
  end.

Definition cn_tree_find_node (tree : cn_tree) (nodeid : Z) : option nat :=
  find_node_from (ct_nodes tree) 0 nodeid.

(** The [list_for_each] loop of [cn_node_insert_kvset] with the
    [kvset_list_add_tail] that follows it: the new kvset goes before the
    first entry whose dgen is smaller, at the tail when there is none. *)
Fixpoint kvset_list_insert (l : list kvset) (k : kvset) : list kvset :=
  match l with
  | [] => [k]
  | entry :: l' =>
      if kvset_get_dgen entry <? kvset_get_dgen k then k :: entry :: l'
      else entry :: kvset_list_insert l' k
  end.

Definition cn_node_insert_kvset (node : cn_tree_node) (k : kvset)
    : cn_tree_node * merr_t :=
  (tn_set_kvset_list node (kvset_list_insert (tn_kvset_list node) k), MERR_OK).

Definition cn_tree_insert_kvset (tree : cn_tree) (k : kvset) (nodeid : Z)
    : cn_tree * merr_t :=
  match cn_tree_find_node tree nodeid with
  | None => (tree, merr EBUG)
  | Some n =>
      match ct_nodes tree !! n with
      | None => (tree, merr EBUG)
      | Some node =>
          let '(node', err) := cn_node_insert_kvset node k in
          (ct_set_nodes tree (<[n := node']> (ct_nodes tree)), err)
      end
  end.

(** ** Scatter of a node *)

(** The [list_for_each_entry_reverse] loop of [cn_tree_node_scatter] over
    the kvsets from the oldest on; [vgroups] is [kvset_get_vgroups]. *)
Fixpoint scatter_walk (vgroups : kvset -> Z) (oldest_first : list kvset)
    (scatter : Z) : Z :=
  match oldest_first with
  | [] => scatter
  | k :: rest =>
      let vg := u32 (vgroups k) in
      scatter_walk vgroups rest
        (if 1 <? u32 (scatter + vg) then u32 (scatter + vg) else scatter)
  end.

Definition cn_tree_node_scatter (vgroups : kvset -> Z) (tn : cn_tree_node) : Z :=
  scatter_walk vgroups (reverse (tn_kvset_list tn)) 0.

(** ** Preorder walk *)

Inductive kvset_order : Type :=
  | KVSET_ORDER_NEWEST_FIRST
  | KVSET_ORDER_OLDEST_FIRST.

Section walk.
Context {R : Type}.

(** The walk callback: from the rock, the tree, the node (null at the end
    of the tree) and the kvset (null at the end of a node) to the new rock
    and the stop flag. *)
Variable callback : R -> cn_tree -> option nat -> option kvset -> R * bool.

(** One of the two inner loops of [cn_tree_preorder_walk]: the result is
    the rock and whether the walk jumps to [unlock]. *)
Fixpoint walk_node_kvsets (tree : cn_tree) (node : nat) (l : list kvset)
    (rock : R) : R * bool :=
  match l with
  | [] => (rock, false)
  | k :: l' =>
      let '(rock', stop) := callback rock tree (Some node) (Some k) in
      if stop then (rock', true) else walk_node_kvsets tree node l' rock'
  end.

(** The [cn_tree_foreach_node] loop, from the node at position [pos] on. *)
Fixpoint walk_nodes (tree : cn_tree) (order : kvset_order) (pos : nat)
    (nodes : list cn_tree_node) (rock : R) : R * bool :=
  match nodes with
  | [] => (rock, false)
  | tn :: rest =>
      let l := match order with
               | KVSET_ORDER_NEWEST_FIRST => tn_kvset_list tn
               | KVSET_ORDER_OLDEST_FIRST => reverse (tn_kvset_list tn)
               end in
      let '(rock1, stop1) := walk_node_kvsets tree pos l rock in
      if stop1 then (rock1, true)
      else
        let '(rock2, stop2) :=
          match l with
          | [] => (rock1, false)
          | _ => callback rock1 tree (Some pos) None
          end in
        if stop2 then (rock2, true)
        else walk_nodes tree order (S pos) rest rock2
  end.

Definition cn_tree_preorder_walk (tree : cn_tree) (order : kvset_order)
    (rock : R) : R :=
  let '(rock', stop) := walk_nodes tree order 0 (ct_nodes tree) rock in
  if stop then rock' else fst (callback rock' tree None None).

End walk.

(** ** Snapshot view *)

(** One element of a view: the kvset (null for the element that opens a
    node), the node id and the edge key of the node. *)
Record kvset_view : Type := mk_view {
  kv_kvset : option kvset;
  kv_nodeid : Z;
  kv_ekey : list Z
}.

(** Reference counts of the kvsets, by kvset id. *)
Definition ref_count (refs : gmap Z Z) (k : kvset) : Z :=
  default 0 (refs !! ks_id k).

Definition kvset_get_ref (refs : gmap Z Z) (k : kvset) : gmap Z Z :=
  <[ks_id k := ref_count refs k + 1]> refs.

Definition kvset_put_ref (refs : gmap Z Z) (k : kvset) : gmap Z Z :=
  <[ks_id k := ref_count refs k - 1]> refs.

(** What the collaborators of a view creation do: whether [table_create]
    succeeds, whether [table_append] succeeds on a table of a given size,
    the edge key [route_node_keycpy] copies for the node at a position
    (empty when the node has no route node), and [kvset_get_nodeid]. *)
Record view_env : Type := mk_view_env {
  ve_table_create : bool;
  ve_table_append : nat -> bool;
  ve_route_node_key : nat -> list Z;
  ve_kvset_get_nodeid : kvset -> Z
}.

(** [kvset_view_free] applied to every element, as [table_apply] does. *)
Definition cn_tree_view_destroy (view : list kvset_view) (refs : gmap Z Z)
    : gmap Z Z :=
  foldl (λ refs v, match kv_kvset v with
                   | Some k => kvset_put_ref refs k
                   | None => refs
                   end) refs view.

(** The inner loop of [cn_tree_view_create] over the kvsets of a node. *)
Fixpoint view_add_kvsets (ve : view_env) (l : list kvset)
    (view : list kvset_view) (refs : gmap Z Z)
    : merr_t * list kvset_view * gmap Z Z :=
  match l with
  | [] => (MERR_OK, view, refs)
  | k :: l' =>
      if ve_table_append ve (length view) then
        view_add_kvsets ve l'
          (view ++ [mk_view (Some k) (ve_kvset_get_nodeid ve k) []])
          (kvset_get_ref refs k)
      else (merr ENOMEM, view, refs)
  end.

(** The outer loop of [cn_tree_view_create], from the node at [pos] on. *)
Fixpoint view_add_nodes (ve : view_env) (pos : nat) (nodes : list cn_tree_node)
    (view : list kvset_view) (refs : gmap Z Z)
    : merr_t * list kvset_view * gmap Z Z :=
  match nodes with
  | [] => (MERR_OK, view, refs)
  | node :: rest =>
      if ve_table_append ve (length view) then
        let view1 :=
          view ++ [mk_view None (tn_nodeid node) (ve_route_node_key ve pos)] in
        match view_add_kvsets ve (tn_kvset_list node) view1 refs with
        | (MERR_OK, view2, refs2) => view_add_nodes ve (S pos) rest view2 refs2
        | (merr e, view2, refs2) => (merr e, view2, refs2)
        end
      else (merr ENOMEM, view, refs)
  end.

(** [cn_tree_view_create]: the error, the view handed out (null on an
    error) and the reference counts afterwards. *)
Definition cn_tree_view_create (ve : view_env) (tree : cn_tree)
    (refs : gmap Z Z) : merr_t * option (list kvset_view) * gmap Z Z :=
  if negb (ve_table_create ve) then (merr ENOMEM, None, refs)
  else
    match view_add_nodes ve 0 (ct_nodes tree) [] refs with
    | (MERR_OK, view, refs') => (MERR_OK, Some view, refs')
    | (merr e, view, refs') => (merr e, None, cn_tree_view_destroy view refs')
    end.


(** ** Tree update after a compaction *)

Definition tn_set_busycnt (tn : cn_tree_node) (b : Z) : cn_tree_node :=
  mk_tn (tn_compacting tn) b (tn_hlog tn) (tn_ns tn) (tn_samp tn)
        (tn_update_incr_dgen tn) (tn_size_max tn) (tn_nodeid tn) (tn_isroot tn)
        (tn_cgen tn) (tn_kvset_list tn) (tn_rspills tn) (tn_rspills_wedged tn).

(** What an update step leaves behind: the tree, the retired kvsets in the
    order of the retired list, and the samp totals stored in the
    descriptor's [cw_samp_pre] and [cw_samp_post] ([None] when the step
    does not write them). *)
Record update_out : Type := mk_update_out {
  uo_tree : cn_tree;
  uo_retired : list kvset;
  uo_samp : option (cn_samp_stats * cn_samp_stats)
}.

(** Modelled from the spec: [kvset_list_add] (kvset.h, not among the
    sources) links the kvset's entry right behind the given list position;
    behind the list head it becomes the first entry. *)
Definition kvset_list_add (l : list kvset) (le : option nat) (k : kvset)
    : list kvset :=
  let p := match le with None => 0%nat | Some i => S i end in
  take p l ++ k :: drop p l.

(** The loop of [cn_comp_update_kvcompact] that moves the inputs to the
    retired list: [le] runs from the mark towards the head, each entry is
    unlinked and pushed on the head of the retired list. *)
Fixpoint kvcompact_retire (l : list kvset) (le : option nat) (remaining : nat)
    (retired : list kvset) : option (list kvset * option nat * list kvset) :=
  match remaining with
  | O => Some (l, le, retired)
  | S r =>
      i ← le;
      k ← l !! i;
      kvcompact_retire (delete i l) (list_prev_entry le) r (k :: retired)
  end.

Section update.
Context {E : cn_iface}.

(** The busy count drops by one job, counted in the upper half, and by
    the job's kvsets, counted in the lower half. *)
Definition busycnt_sub (tn : cn_tree_node) (cnt : nat) : cn_tree_node :=
  tn_set_busycnt tn (u32 (tn_busycnt tn - u32 (65536 + Z.of_nat cnt))).

Definition cn_comp_update_kvcompact (tree : cn_tree) (w : cn_compaction_work)
    (new_kvset : option kvset) : option update_out :=
  if merr_is_err (cw_err w) then Some (mk_update_out tree [] None)
  else
    node ← ct_nodes tree !! cw_node w;
    '(l, le, retired) ←
      kvcompact_retire (tn_kvset_list node) (Some (cw_mark w)) (cw_kvset_cnt w) [];
    let node1 :=
      match new_kvset with
      | Some k =>
          tn_set_cgen (tn_set_kvset_list node (kvset_list_add l le k))
            (u32 (tn_cgen node + 1))
      | None => tn_set_kvset_list node l
      end in
    let tree1 := ct_set_nodes tree (<[cw_node w := node1]> (ct_nodes tree)) in
    let pre := cn_tree_samp tree1 in
    tree2 ← cn_tree_samp_update_compact tree1 (cw_node w);
    let post := cn_tree_samp tree2 in
    node2 ← ct_nodes tree2 !! cw_node w;
    let node3 := busycnt_sub node2 (cw_kvset_cnt w) in
    Some (mk_update_out
            (ct_set_nodes tree2 (<[cw_node w := node3]> (ct_nodes tree2)))
            retired (Some (pre, post))).

(** The first loop of [cn_comp_update_spill]: output [i], when there is
    one, goes to the head of the list of [cw_output_nodev[i]]. *)
Fixpoint spill_add_outputs (w : cn_compaction_work)
    (kvsets : list (option kvset)) (i : nat) (remaining : nat)
    (nodes : list cn_tree_node) : option (list cn_tree_node) :=
  match remaining with
  | O => Some nodes
  | S r =>
      ko ← kvsets !! i;
      match ko with
      | None => spill_add_outputs w kvsets (S i) r nodes
      | Some k =>
          on ← cw_output_nodev w !! i;
          n ← on;
          node ← nodes !! n;
          let node' :=
            tn_set_cgen (tn_set_kvset_list node (kvset_list_add (tn_kvset_list node) None k))
              (u32 (tn_cgen node + 1)) in
          spill_add_outputs w kvsets (S i) r (<[n := node']> nodes)
      end
  end.

(** The second loop: the last entry of the source node's list is
    unlinked and pushed on the head of the retired list, [cw_kvset_cnt]
    times. *)
Fixpoint spill_retire (l : list kvset) (remaining : nat) (retired : list kvset)
    : option (list kvset * list kvset) :=
  match remaining with
  | O => Some (l, retired)
  | S r =>
      i ← list_last_entry l;
      k ← l !! i;
      spill_retire (delete i l) r (k :: retired)
  end.

Definition cn_comp_update_spill (tree : cn_tree) (w : cn_compaction_work)
    (kvsets : list (option kvset)) : option update_out :=
  if merr_is_err (cw_err w) then Some (mk_update_out tree [] None)
  else
    nodes1 ← spill_add_outputs w kvsets 0 (Z.to_nat (cw_outc w)) (ct_nodes tree);
    pnode ← nodes1 !! cw_node w;
    let pnode1 := tn_set_cgen pnode (u32 (tn_cgen pnode + 1)) in
    '(l, retired) ← spill_retire (tn_kvset_list pnode1) (cw_kvset_cnt w) [];
    let pnode2 := tn_set_kvset_list pnode1 l in
    let tree1 := ct_set_nodes tree (<[cw_node w := pnode2]> nodes1) in
    let pre := cn_tree_samp tree1 in
    tree2 ← cn_tree_samp_update_spill tree1 (cw_node w);
    let post := cn_tree_samp tree2 in
    pnode3 ← ct_nodes tree2 !! cw_node w;
    let pnode4 := busycnt_sub pnode3 (cw_kvset_cnt w) in
    Some (mk_update_out
            (ct_set_nodes tree2 (<[cw_node w := pnode4]> (ct_nodes tree2)))
            retired (Some (pre, post))).

End update.

(** ** The compaction step *)

(** Modelled from the spec: [merr_errno] (hse_util/hse_err.h, not among
    the sources): the errno packed in an error, none for the value 0. *)
Definition merr_errno (e : merr_t) : option errno :=
  match e with
  | MERR_OK => None
  | merr x => Some x
  end.

(** What the merge ([cn_kcompact], [cn_spill] or [cn_split], whichever
    the action calls) leaves in the prepared job: its error, and the
    output vectors it fills in - block records, kvset ids, output nodes
    and the dgens of a split. *)
Record build_out : Type := mk_build_out {
  bo_err : merr_t;
  bo_outv : list kvset_mblocks;
  bo_kvsetidv : list Z;
  bo_output_nodev : list (option nat);
  bo_split_dgen : list Z
}.

Definition cw_set_built (w : cn_compaction_work) (b : build_out)
    : cn_compaction_work :=
  cw_set_prepared w (cw_inputv w) (cw_outc w) (bo_outv b) (bo_kvsetidv b)
    (bo_output_nodev b) (bo_split_dgen b) (cw_drop_tombs w).

(** What the collaborators of one compaction step do: the cancel request
    of the cn, the health check, the preparation's collaborators, and the
    merge on the prepared job. *)
Record compact_env : Type := mk_compact_env {
  ce_cancel_request : bool;
  ce_health_check : merr_t;
  ce_prepare : prepare_env;
  ce_build : cn_compaction_work -> build_out
}.

Definition cw_set_status (w : cn_compaction_work) (err : merr_t)
    (canceled : bool) : cn_compaction_work :=
  cw_set_commit_status w (cw_rspill_commit_in_progress w) err canceled.

(** The [err_exit] label of [cn_comp_compact]. *)
Definition compact_exit (w : cn_compaction_work) (err : merr_t)
    (canceled : bool) : cn_compaction_work :=
  cw_set_status w
    (if canceled && negb (merr_is_err err) then merr ESHUTDOWN else err)
    canceled.

(** [cn_comp_compact]: the descriptor it leaves.  The horizon, the
    timestamps and the vblock flag it stores are not part of the modelled
    descriptor. *)
Definition cn_comp_compact (ce : compact_env) (tree : cn_tree)
    (w : cn_compaction_work) : option cn_compaction_work :=
  if merr_is_err (cw_err w) then Some w
  else
    match ce_health_check ce with
    | merr e => Some (compact_exit w (merr e) (cw_canceled w))
    | MERR_OK =>
        '(err, w1) ← cn_tree_prepare_compaction (ce_prepare ce) tree w;
        match err with
        | merr e => Some (compact_exit w1 (merr e) (cw_canceled w1))
        | MERR_OK =>
            let '(err, w2) :=
              match cw_action w1 with
              | CN_ACTION_NONE | CN_ACTION_END => (MERR_OK, w1)
              | _ => (bo_err (ce_build ce w1), cw_set_built w1 (ce_build ce w1))
              end in
            let canceled :=
              if bool_decide (merr_errno err = Some ESHUTDOWN) &&
                 ce_cancel_request ce
              then true else cw_canceled w2 in
            Some (compact_exit w2 err canceled)
        end
    end.

(** ** Node ids of a split *)

(** [check_valid_kvsets]: the loop from [i] over [remaining] entries of
    [cw_kvsetidv]. *)
Fixpoint check_valid_kvsets (w : cn_compaction_work) (i remaining : nat)
    : option bool :=
  match remaining with
  | O => Some false
  | S r =>
      id ← cw_kvsetidv w !! i;
      if negb (id =? 0) then Some true else check_valid_kvsets w (S i) r
  end.

(** [cn_split_nodeids_get].  [invalid] is [CN_TREE_INVALID_NODEID], which
    cn_tree.h defines and the sources do not show; [mint n] is the id
    [cndb_nodeid_mint] hands out at its [n]-th call and [minted] the number
    of calls made so far.  The result is the two ids and the new number of
    calls. *)
Definition cn_split_nodeids_get (invalid : Z) (mint : nat -> Z) (minted : nat)
    (w : cn_compaction_work) : option ((Z * Z) * nat) :=
  let outc := Z.to_nat (cw_outc w) in
  match check_valid_kvsets w 0 (cw_kvset_cnt w) with
  | None => None
  | Some v0 =>
      let id0 := if v0 then mint minted else invalid in
      let minted0 := if v0 then S minted else minted in
      match check_valid_kvsets w (cw_kvset_cnt w) (outc - cw_kvset_cnt w) with
      | None => None
      | Some v1 =>
          let id1 := if v1 then mint minted0 else invalid in
          let minted1 := if v1 then S minted0 else minted0 in
          Some ((id0, id1), minted1)
      end
  end.

(** ** Commit *)

(** What the collaborators of one commit do: the two allocations, the
    start of the cndb transaction, the invalid node id and the ids the
    cndb mints; for output [i] with its metadata: logging the kvset add
    record, committing the mblocks, opening the kvset ([inl] is the error,
    [inr] the kvset stored in [kvsets[i]]) and acknowledging the add
    record; logging the delete record of an input; and the tree update
    of a split (the new error and tree), which is not modelled. *)
Record commit_env : Type := mk_commit_env {
  cm_calloc_cookiev : bool;
  cm_calloc_kvsets : bool;
  cm_txstart : merr_t;
  cm_invalid_nodeid : Z;
  cm_mint : nat -> Z;
  cm_kvset_add : nat -> kvset_meta -> merr_t;
  cm_mblocks_commit : nat -> merr_t;
  cm_kvset_open : nat -> kvset_meta -> errno + kvset;
  cm_delete_log : kvset -> merr_t;
  cm_add_ack : nat -> merr_t;
  cm_update_split :
    cn_tree -> cn_compaction_work -> list (option kvset) -> Z * Z ->
    merr_t * cn_tree
}.

(** What a commit leaves: the tree, the descriptor with its error, the
    kvsets the tree update retired, whether the transaction was nak'ed,
    and the opened kvsets whose reference the error path gave back. *)
Record commit_out : Type := mk_commit_out {
  co_tree : cn_tree;
  co_work : cn_compaction_work;
  co_retired : list kvset;
  co_nak : bool;
  co_released : list kvset
}.

(** The walk over the inputs of a k-compact that collects their vblock
    sets: [le] runs from the mark towards the head. *)
Fixpoint commit_vbsets (l : list kvset) (le : option nat) (remaining : nat)
    : option unit :=
  match remaining with
  | O => Some ()
  | S r =>
      i ← le;
      _ ← l !! i;
      commit_vbsets l (list_prev_entry le) r
  end.

(** The loop that logs, commits and opens the outputs.  With
    [skip_commit] the cookie vector is null, and an output with a header
    block would be logged through it. *)
Fixpoint commit_outputs (cm : commit_env) (tree : cn_tree)
    (w : cn_compaction_work) (skip_commit : bool) (nodeidv : Z * Z)
    (i remaining : nat) (kvsets : list (option kvset))
    : option (merr_t * list (option kvset)) :=
  match remaining with
  | O => Some (MERR_OK, kvsets)
  | S r =>
      out ← cw_outv w !! i;
      if hblk_bk_blkid out =? 0
      then commit_outputs cm tree w skip_commit nodeidv (S i) r kvsets
      else
        km ← cn_comp_commit_meta tree w nodeidv i;
        _ ← cw_kvsetidv w !! i;
        if skip_commit then None
        else
          match cm_kvset_add cm i km with
          | merr e => Some (merr e, kvsets)
          | MERR_OK =>
              match cm_mblocks_commit cm i with
              | merr e => Some (merr e, kvsets)
              | MERR_OK =>
                  match cm_kvset_open cm i km with
                  | inl e => Some (merr e, kvsets)
                  | inr k =>
                      commit_outputs cm tree w skip_commit nodeidv (S i) r
                        (<[i := Some k]> kvsets)
                  end
              end
          end
  end.

(** The loop that logs the delete records of the inputs, from the mark
    towards the head. *)
Fixpoint commit_delete_log (cm : commit_env) (l : list kvset)
    (le : option nat) (remaining : nat) : option merr_t :=
  match remaining with
  | O => Some MERR_OK
  | S r =>
      i ← le;
      k ← l !! i;
      match cm_delete_log cm k with
      | merr e => Some (merr e)
      | MERR_OK => commit_delete_log cm l (list_prev_entry le) r
      end
  end.

(** The loop that acknowledges the add records. *)
Fixpoint commit_acks (cm : commit_env) (w : cn_compaction_work)
    (i remaining : nat) : option merr_t :=
  match remaining with
  | O => Some MERR_OK
  | S r =>
      out ← cw_outv w !! i;
      if hblk_bk_blkid out =? 0 then commit_acks cm w (S i) r
      else
        match cm_add_ack cm i with
        | merr e => Some (merr e)
        | MERR_OK => commit_acks cm w (S i) r
        end
  end.

Section commit.
Context {E : cn_iface}.

(** The [done] label of [cn_comp_commit] once the kvset vector exists. *)
Definition commit_done (tree : cn_tree) (w : cn_compaction_work)
    (err : merr_t) (retired : list kvset) (txn_nak : bool)
    (kvsets : list (option kvset)) : commit_out :=
  mk_commit_out tree (cw_set_status w err (cw_canceled w)) retired
    (merr_is_err err && txn_nak)
    (if merr_is_err err then omap id kvsets else []).

(** [cn_comp_commit]; [minted] is the number of node ids the cndb has
    minted so far. *)
Definition cn_comp_commit (cm : commit_env) (minted : nat) (tree : cn_tree)
    (w : cn_compaction_work) : option commit_out :=
  if merr_is_err (cw_err w) then Some (mk_commit_out tree w [] false [])
  else
    let spill := bool_decide (cw_action w = CN_ACTION_SPILL) in
    let split := bool_decide (cw_action w = CN_ACTION_SPLIT) in
    let kcompact := bool_decide (cw_action w = CN_ACTION_COMPACT_K) in
    let outc := Z.to_nat (cw_outc w) in
    skip_commit ←
      (if kcompact
       then out0 ← cw_outv w !! 0%nat; Some (kblks_n_blks out0 =? 0)
       else Some false);
    if negb skip_commit && negb (cm_calloc_cookiev cm)
    then Some (mk_commit_out tree (cw_set_status w (merr ENOMEM) (cw_canceled w))
                 [] false [])
    else if negb (cm_calloc_kvsets cm)
    then Some (mk_commit_out tree (cw_set_status w (merr ENOMEM) (cw_canceled w))
                 [] false [])
    else
      node ← ct_nodes tree !! cw_node w;
      _ ← (if kcompact
           then commit_vbsets (tn_kvset_list node) (Some (cw_mark w)) (cw_kvset_cnt w)
           else Some ());
      let kvsets0 := replicate outc None in
      match cm_txstart cm with
      | merr e => Some (commit_done tree w (merr e) [] false kvsets0)
      | MERR_OK =>
          nodeidv ←
            (if split
             then fst <$> cn_split_nodeids_get (cm_invalid_nodeid cm) (cm_mint cm)
                            minted w
             else Some (0, 0));
          '(err1, kvsets) ←
            commit_outputs cm tree w skip_commit nodeidv 0 outc kvsets0;
          if merr_is_err err1 then Some (commit_done tree w err1 [] true kvsets)
          else
            err2 ← commit_delete_log cm (tn_kvset_list node) (Some (cw_mark w))
                     (cw_kvset_cnt w);
            if merr_is_err err2 then Some (commit_done tree w err2 [] true kvsets)
            else
              err3 ← commit_acks cm w 0 outc;
              if merr_is_err err3 then Some (commit_done tree w err3 [] true kvsets)
              else
                match cw_action w with
                | CN_ACTION_NONE | CN_ACTION_END =>
                    Some (commit_done tree w MERR_OK [] true kvsets)
                | CN_ACTION_COMPACT_K | CN_ACTION_COMPACT_KV =>
                    k0 ← kvsets !! 0%nat;
                    out ← cn_comp_update_kvcompact tree w k0;
                    Some (commit_done (uo_tree out) w MERR_OK (uo_retired out)
                            true kvsets)
                | CN_ACTION_SPILL =>
                    out ← cn_comp_update_spill tree w kvsets;
                    Some (commit_done (uo_tree out) w MERR_OK (uo_retired out)
                            true kvsets)
                | CN_ACTION_SPLIT =>
                    let '(err4, tree') := cm_update_split cm tree w kvsets nodeidv in
                    Some (commit_done tree' w err4 [] true kvsets)
                end
      end.

End commit.

(** ** Cleanup, finish, and the job as a whole *)

Definition tn_set_rspills_wedged (tn : cn_tree_node) (b : bool) : cn_tree_node :=
  mk_tn (tn_compacting tn) (tn_busycnt tn) (tn_hlog tn) (tn_ns tn) (tn_samp tn)
        (tn_update_incr_dgen tn) (tn_size_max tn) (tn_nodeid tn) (tn_isroot tn)
        (tn_cgen tn) (tn_kvset_list tn) (tn_rspills tn) b.

Definition cw_set_rspill_done (w : cn_compaction_work) (v : Z)
    : cn_compaction_work :=
  mk_cw (cw_node w) (cw_action w) (cw_mark w) (cw_kvset_cnt w) (cw_dgen_lo w)
        (cw_dgen_hi w) (cw_compc w) (cw_err w) (cw_canceled w)
        (cw_have_token w) (cw_rspill_conc w) v
        (cw_rspill_commit_in_progress w) (cw_completion w) (cw_drop_tombs w)
        (cw_inputv w) (cw_outc w) (cw_outv w) (cw_kvsetidv w)
        (cw_output_nodev w) (cw_split_dgen w).

Definition st_set_work (st : cn_state) (wp : nat) (w : cn_compaction_work)
    : cn_state :=
  mk_state (st_tree st) (<[wp := w]> (st_works st)) (st_completed st).

(** [cn_comp_cleanup]: the new state and the new value of the tree's
    [ct_nospace] flag.  Of what it frees and destroys nothing is part of
    the modelled state.  The node is read for the wedge test of a
    concurrent spill and for the log line of a job that is not canceled. *)
Definition cn_comp_cleanup (st : cn_state) (nospace : bool) (wp : nat)
    : option (cn_state * bool) :=
  w ← st_works st !! wp;
  if merr_is_err (cw_err w) then
    let nospace' :=
      if bool_decide (merr_errno (cw_err w) = Some ENOSPC) then true
      else nospace in
    if cw_rspill_conc w || negb (cw_canceled w) then
      tn ← ct_nodes (st_tree st) !! cw_node w;
      let tn' :=
        if cw_rspill_conc w && negb (tn_rspills_wedged tn)
        then tn_set_rspills_wedged tn true else tn in
      Some (st_set_node st (cw_node w) tn', nospace')
    else Some (st, nospace')
  else Some (st, nospace).

Section pipeline.
Context {E : cn_iface}.

(** The collaborators of the commit of each job, and the node ids minted
    before it. *)
Variable commit_of : nat -> commit_env.
Variable minted_of : nat -> nat.

(** [cn_comp_finish]: commit, cleanup, release. *)
Definition cn_comp_finish (st : cn_state) (nospace : bool) (wp : nat)
    : option (cn_state * bool) :=
  w ← st_works st !! wp;
  co ← cn_comp_commit (commit_of wp) (minted_of wp) (st_tree st) w;
  let st1 :=
    mk_state (co_tree co) (<[wp := co_work co]> (st_works st)) (st_completed st) in
  '(st2, nospace') ← cn_comp_cleanup st1 nospace wp;
  st3 ← cn_comp_release st2 wp;
  Some (st3, nospace').

(** The loop of [cn_comp] over the finished root spills of a node;
    [fuel] bounds its iterations. *)
Fixpoint rspill_drain (fuel : nat) (st : cn_state) (nospace : bool) (node : nat)
    : option (cn_state * bool) :=
  match fuel with
  | O => None
  | S f =>
      '(st1, r) ← get_completed_spill st node;
      match r with
      | None => Some (st1, nospace)
      | Some h =>
          '(st2, nospace') ← cn_comp_finish st1 nospace h;
          rspill_drain f st2 nospace' node
      end
  end.

(** [cn_comp]: the compaction step, then the finish - at once for a job
    that has a node to itself, in the order of the node's list of root
    spills for a concurrent root spill. *)
Definition cn_comp (ce : compact_env) (fuel : nat) (st : cn_state)
    (nospace : bool) (wp : nat) : option (cn_state * bool) :=
  w ← st_works st !! wp;
  w1 ← cn_comp_compact ce (st_tree st) w;
  if cw_rspill_conc w1 then
    rspill_drain fuel (st_set_work st wp (cw_set_rspill_done w1 1)) nospace
      (cw_node w1)
  else cn_comp_finish (st_set_work st wp w1) nospace wp.

End pipeline.

(** ** The metrics tool: big numbers *)

Inductive bn_fmt : Type :=
  | BN_HUMAN | BN_EXP | BN_SCALAR | BN_HEX1 | BN_HEX2.

Definition BIGNUM_WIDTH_MAX : Z := 21.
Definition BIGNUM_BUFSZ : Z := BIGNUM_WIDTH_MAX + 1.

Definition bn_width (fmt : bn_fmt) : Z :=
  match fmt with
  | BN_HEX1 => 12
  | BN_HEX2 => 12
  | BN_SCALAR => 14
  | BN_HUMAN => 7
  | BN_EXP => 9
  end.

Definition bn_width_max (fmt : bn_fmt) : Z :=
  match fmt with
  | BN_HEX1 => 18
  | BN_HEX2 => 16
  | BN_SCALAR => BIGNUM_WIDTH_MAX
  | BN_HUMAN => 7
  | BN_EXP => 9
  end.

(** Characters are their codes: 107 is 'k', 63 is '?'. *)
Definition bn_human_sfx (exp : Z) : Z :=
  if exp =? 3 then 107
  else if exp =? 6 then 109
  else if exp =? 9 then 103
  else if exp =? 12 then 116
  else if exp =? 15 then 112
  else if exp =? 18 then 101
  else if exp =? 21 then 122
  else if exp =? 24 then 121
  else 63.

(** The [while (value >= 1000)] loop of [bn64]; [fuel] bounds its
    iterations.  The result is [value], [exp] and [pv]. *)
Fixpoint bn64_scale (fuel : nat) (value exp pv : Z) : option (Z * Z * Z) :=
  if 1000 <=? value then
    match fuel with
    | O => None
    | S f => bn64_scale f (value / 1000) (u32 (exp + 3)) value
    end
  else Some (value, exp, pv).

(** Modelled from the spec: the conversions of the C library's [snprintf]
    that [bn64] uses.  The digits of a number in a base, most significant
    first; [fuel] bounds their number. *)
Fixpoint digits_of (base : Z) (fuel : nat) (n : Z) : list Z :=
  match fuel with
  | O => []
  | S f => if n <? base then [n] else digits_of base f (n / base) ++ [n mod base]
  end.

(** '0' is 48, 'a' is 97. *)
Definition digit_char (d : Z) : Z := if d <? 10 then 48 + d else 87 + d.

(** [%lu] and [%lx] of a 64-bit value. *)
Definition fmt_lu (n : Z) : list Z := digit_char <$> digits_of 10 20 n.
Definition fmt_lx (n : Z) : list Z := digit_char <$> digits_of 16 16 n.

(** A minimum field width, filled on the left with [c]. *)
Definition pad (width : Z) (c : Z) (s : list Z) : list Z :=
  replicate (Z.to_nat width - length s) c ++ s.

(** [bn64]: the string left in [buf], which [snprintf] cuts to
    [buf_sz - 1] characters.  32 is the space, 46 the dot, 101 'e', 48 and
    120 "0x".  Six divisions bring any 64-bit value below 1000. *)
Definition bn64 (buf_sz : Z) (fmt : bn_fmt) (value : Z) : option (list Z) :=
  out ←
    match fmt with
    | BN_HEX1 => Some ([48; 120] ++ fmt_lx value)
    | BN_HEX2 => Some (fmt_lx value)
    | BN_SCALAR => Some (fmt_lu value)
    | BN_HUMAN | BN_EXP =>
        '(v, exp, pv) ← bn64_scale 7 value 0 0;
        if exp =? 0 then Some (pad (bn_width_max fmt) 32 (fmt_lu v))
        else
          let pv := (pv `mod` 1000) / 10 in
          match fmt with
          | BN_HUMAN =>
              Some (pad 3 32 (fmt_lu v) ++ [46] ++ pad 2 48 (fmt_lu pv) ++
                    [bn_human_sfx exp])
          | _ =>
              Some (pad 3 32 (fmt_lu v) ++ [46] ++ pad 2 48 (fmt_lu pv) ++
                    [101] ++ pad 2 48 (fmt_lu exp))
          end
    end;
  Some (take (Z.to_nat (buf_sz - 1)) out).

(** ** Capped trees: eviction hints *)

(** The three fields of the tree that [cn_tree_capped_evict] keeps:
    [ct_capped_ttl], [ct_capped_dgen] and [ct_capped_le], the last one a
    position in the root's list or null. *)
Record capped_cursor : Type := mk_cursor {
  cc_ttl : Z;
  cc_dgen : Z;
  cc_le : option nat
}.

(** Modelled from the spec: [NSEC_PER_SEC] (hse_util/timing.h, not among
    the sources). *)
Definition NSEC_PER_SEC : Z := 1000000000.

(** [cn_tree_capped_evict].  [kvset_ctime] is a getter of the kvset that
    the sources do not show, [now] is what [get_time_ns] returns,
    [evict_ttl] is [rp->capped_evict_ttl]; [l] is the root's list, [first]
    and [last] positions in it.  The result is the new cursor and the
    kvset whose pages were given up, if any. *)
Definition cn_tree_capped_evict (kvset_ctime : kvset -> Z) (now evict_ttl : Z)
    (l : list kvset) (cur : capped_cursor) (first last : nat)
    : option (capped_cursor * option kvset) :=
  if now <? cc_ttl cur then Some (cur, None)
  else
    klast ← l !! last;
    last' ← (if kvset_get_dgen klast <? cc_dgen cur then cc_le cur else Some last);
    let ttl := u64 (evict_ttl * NSEC_PER_SEC) in
    k ← l !! last';
    let ctime := kvset_ctime k in
    if now <? u64 (ctime + ttl)
    then Some (mk_cursor (u64 (ctime + ttl)) (cc_dgen cur) (cc_le cur), None)
    else
      cur' ←
        (if decide (last' ≠ first)
         then
           prev ← list_prev_entry (Some last');
           kprev ← l !! prev;
           Some (mk_cursor (u64 (kvset_ctime kprev + ttl)) (kvset_get_dgen kprev)
                   (Some prev))
         else Some cur);
      Some (cur', Some k).

(** ** Largest key of a node *)

Section node_keys.

(** [keycmp(key1, len1, key2, len2)] (hse_util/keycmp.h) is a collaborator
    of the tree; a key carries its length. *)
Variable keycmp : key -> key -> Z.

(** The loop of [cn_tree_node_get_max_key] over the kvset list, newest
    kvset first; [max_key] is [None] for the null pointer.  A kvset
    without a max key leaves a null pointer in [key]; a comparison with
    it is not defined, the result is [None]. *)
Fixpoint max_key_scan (l : list kvset) (max_key : option key)
    : option (option key) :=
  match l with
  | [] => Some max_key
  | k :: l' =>
      match max_key with
      | None => max_key_scan l' (kvset_get_max_key k)
      | Some m =>
          match kvset_get_max_key k with
          | None => None
          | Some key =>
              max_key_scan l' (if 0 <? keycmp key m then Some key else Some m)
          end
      end
  end.

(** [cn_tree_node_get_max_key]: the new contents of [kbuf], a buffer of
    at least [kbuf_sz] bytes, and [*max_klen].  The assertion is compiled
    out; without a key the copy reads from a null pointer, the result is
    [None]. *)
Definition cn_tree_node_get_max_key (tn : cn_tree_node) (kbuf : list Z)
    (kbuf_sz : Z) : option (list Z * Z) :=
  max_key ← max_key_scan (tn_kvset_list tn) None;
  match max_key with
  | None => None
  | Some m =>
      let max_klen := Z.of_nat (length m) in
      Some (memcpy kbuf m (Z.to_nat (Z.min kbuf_sz max_klen)), max_klen)
  end.

End node_keys.


(** ** The design document's wording

    These two definitions follow the wording of the design document, for
    comparison with the definitions above. *)

(** "including a kvset when its max seqno < horizon AND either no ptomb is
    remembered or ptomb lexicographically precedes the kvset's max key". *)
Definition capped_expired_as_described (pt_len : Z) (pt_key : list Z)
    (horizon : Z) (k : kvset) : bool :=
  (kvset_get_seqno_max k <? horizon) &&
  ((pt_len =? 0) ||
   match kvset_get_max_key k with
   | Some max_key => keycmp_prefix pt_key max_key <? 0
   | None => false
   end).

(** "k/kv-compact: bump by 1 unless the next-older sibling has a smaller
    compc". *)
Definition compc_as_described (l : list kvset) (mark : nat) (compc : Z) : Z :=
  match l !! S mark with
  | Some older => if kvset_get_compc older <? compc then compc else u32 (compc + 1)
  | None => u32 (compc + 1)
  end.

(** ** Predicates of the statements *)

(** The sum of samp records, in the arithmetic of their counters. *)
Definition samp_sum (l : list cn_samp_stats) : cn_samp_stats :=
  foldr samp_add samp_zero l.

(** [tree.samp] is the sum of the samp records of the tree's nodes. *)
Definition tree_samp_ok (t : cn_tree) : Prop :=
  ct_samp t = samp_sum (tn_samp <$> ct_nodes t).

(** The plain sum of one counter over a list of records. *)
Definition counter_sum (f : cn_samp_stats -> Z) (l : list cn_samp_stats) : Z :=
  foldr (λ s acc, f s + acc) 0 l.

(** One of the three sampling updates turns [t] into [t']. *)
Inductive samp_update {E : cn_iface} (t t' : cn_tree) : Prop :=
  | samp_update_compact n :
      cn_tree_samp_update_compact t n = Some t' -> samp_update t t'
  | samp_update_ingest n :
      cn_tree_samp_update_ingest t n = Some t' -> samp_update t t'
  | samp_update_spill :
      cn_tree_samp_update_spill t ct_root = Some t' -> samp_update t t'.

Definition in_range (lo hi z : Z) : Prop := lo <= z < hi.

(** Every counter of a stats record lies in [0, b). *)
Definition stats_below (b : Z) (s : kvset_stats) : Prop :=
  Forall (in_range 0 b)
    [kst_keys s; kst_kvsets s; kst_halen s; kst_hwlen s; kst_kalen s;
     kst_kwlen s; kst_valen s; kst_vwlen s; kst_vulen s].

(** Every counter of a samp record is a signed 64-bit value below [b]. *)
Definition samp_below (b : Z) (s : cn_samp_stats) : Prop :=
  Forall (in_range (- 2 ^ 63) b)
    [r_alen s; r_wlen s; i_alen s; l_alen s; l_good s].

(** A point get stops at kvset [k]: an error, or anything but not-found. *)
Definition get_stops {E : cn_iface} (kt : key) (seq : Z) (k : kvset) : bool :=
  merr_is_err (fst (kvset_lookup k kt seq)) ||
  negb (bool_decide (snd (kvset_lookup k kt seq) = NOT_FOUND)).

(** The kvsets of a list consulted by a head-to-tail walk that returns at
    the first kvset where [stops] holds. *)
Fixpoint walked (stops : kvset -> bool) (l : list kvset) : list kvset :=
  match l with
  | [] => []
  | k :: l' => if stops k then [k] else k :: walked stops l'
  end.

(** The first kvset of a list where [stops] holds. *)
Fixpoint first_stop (stops : kvset -> bool) (l : list kvset) : option kvset :=
  match l with
  | [] => None
  | k :: l' => if stops k then Some k else first_stop stops l'
  end.

(** The point-get descent in the words of the design: the root's list is
    walked head to tail, returning at once on a found value, a tombstone
    or an error; on a miss at the root the route map gives the one leaf
    whose list is walked the same way (when it names no leaf, the descent
    ends there).  The result is the error with the lookup result, the
    nodes visited and the kvsets consulted. *)
Definition get_descent_as_described {E : cn_iface} (t : cn_tree) (kt : key)
    (seq : Z) (root : cn_tree_node)
    : merr_t * key_lookup_res * list nat * list (nat * kvset) :=
  let stops := get_stops kt seq in
  let root_trace := pair ct_root <$> walked stops (tn_kvset_list root) in
  match first_stop stops (tn_kvset_list root) with
  | Some k => (kvset_lookup k kt seq, [ct_root], root_trace)
  | None =>
      match route_map_lookup kt with
      | None => (MERR_OK, NOT_FOUND, [ct_root], root_trace)
      | Some n =>
          let leaf_list := default [] (tn_kvset_list <$> ct_nodes t !! n) in
          (match first_stop stops leaf_list with
           | Some k => kvset_lookup k kt seq
           | None => (MERR_OK, NOT_FOUND)
           end,
           [ct_root; n],
           root_trace ++ (pair n <$> walked stops leaf_list))
      end
  end.

(** A kvset the trimmer may retire: it reports no max key, or a ptomb is
    remembered, the kvset's max seqno is below the horizon and the ptomb
    does not precede the kvset's max key. *)
Definition capped_expired (pt_len : Z) (pt_key : list Z) (horizon : Z)
    (k : kvset) : bool :=
  match kvset_get_max_key k with
  | None => true
  | Some max_key =>
      negb (pt_len =? 0) && (kvset_get_seqno_max k <? horizon) &&
      (0 <=? keycmp_prefix pt_key max_key)
  end.

(** The run the trimmer retires: the kvsets from position [length l - cnt]
    to the tail. *)
Definition retired_run (l : list kvset) (cnt : nat) : list kvset :=
  drop (length l - cnt) l.

(** ** Predicates of further statements *)

(** Newest first: every kvset has a larger dgen than the kvsets behind it. *)
Fixpoint dgen_sorted (l : list kvset) : Prop :=
  match l with
  | [] => True
  | k :: l' =>
      Forall (λ older, kvset_get_dgen older < kvset_get_dgen k) l' /\
      dgen_sorted l'
  end.

(** The callbacks a full preorder walk makes for the nodes from position
    [pos] on: one per kvset, then one that closes the node if it has any
    kvset. *)
Fixpoint walk_node_events (order : kvset_order) (pos : nat)
    (nodes : list cn_tree_node) : list (option nat * option kvset) :=
  match nodes with
  | [] => []
  | tn :: rest =>
      let l := match order with
               | KVSET_ORDER_NEWEST_FIRST => tn_kvset_list tn
               | KVSET_ORDER_OLDEST_FIRST => reverse (tn_kvset_list tn)
               end in
      ((λ k, (Some pos, Some k)) <$> l) ++
      match l with [] => [] | _ => [(Some pos, None)] end ++
      walk_node_events order (S pos) rest
  end.

(** All callbacks of a full walk: those of the nodes, then the one that
    closes the tree. *)
Definition walk_events (order : kvset_order) (tree : cn_tree)
    : list (option nat * option kvset) :=
  walk_node_events order 0 (ct_nodes tree) ++ [(None, None)].

(** Making the callbacks of a list in turn, up to and including the first
    that asks to stop. *)
Fixpoint run_callbacks {R : Type}
    (callback : R -> cn_tree -> option nat -> option kvset -> R * bool)
    (tree : cn_tree) (events : list (option nat * option kvset)) (rock : R)
    : R * bool :=
  match events with
  | [] => (rock, false)
  | (n, k) :: rest =>
      let '(rock', stop) := callback rock tree n k in
      if stop then (rock', true) else run_callbacks callback tree rest rock'
  end.

(** The elements of a complete view of the nodes from position [pos] on. *)
Fixpoint view_elements (ve : view_env) (pos : nat) (nodes : list cn_tree_node)
    : list kvset_view :=
  match nodes with
  | [] => []
  | node :: rest =>
      mk_view None (tn_nodeid node) (ve_route_node_key ve pos) ::
      ((λ k, mk_view (Some k) (ve_kvset_get_nodeid ve k) []) <$> tn_kvset_list node) ++
      view_elements ve (S pos) rest
  end.

(** The number of elements of a view that hold the kvset with id [id]. *)
Fixpoint view_refs (view : list kvset_view) (id : Z) : Z :=
  match view with
  | [] => 0
  | v :: rest =>
      (match kv_kvset v with
       | Some k => if ks_id k =? id then 1 else 0
       | None => 0
       end) + view_refs rest id
  end.

(** The walk callback that gathers the kvsets it is shown and never asks
    to stop. *)
Definition gather_kvsets (rock : list kvset) (tree : cn_tree)
    (node : option nat) (k : option kvset) : list kvset * bool :=
  (rock ++ match k with Some k => [k] | None => [] end, false).

(** The outputs of a spill that go to node [n], in the order of the output
    vector, among the positions [i], ..., [i + remaining - 1]. *)
Fixpoint spill_outputs_to (w : cn_compaction_work)
    (kvsets : list (option kvset)) (n : nat) (i remaining : nat) : list kvset :=
  match remaining with
  | O => []
  | S r =>
      match kvsets !! i, cw_output_nodev w !! i with
      | Some (Some k), Some (Some n') =>
          if decide (n' = n) then k :: spill_outputs_to w kvsets n (S i) r
          else spill_outputs_to w kvsets n (S i) r
      | _, _ => spill_outputs_to w kvsets n (S i) r
      end
  end.

(** The output vector has an entry for each of the [cw_outc] outputs, and
    each output that is there has a node of the tree to go to. *)
Definition spill_outputs_placed (w : cn_compaction_work)
    (kvsets : list (option kvset)) (nnodes : nat) : Prop :=
  forall i, (i < Z.to_nat (cw_outc w))%nat ->
    exists ko, kvsets !! i = Some ko /\
      forall k, ko = Some k ->
        exists n, cw_output_nodev w !! i = Some (Some n) /\ (n < nnodes)%nat.

(** [tn_cgen++], [times] times. *)
Definition cgen_bumped (times : nat) (cgen : Z) : Z :=
  Nat.iter times (λ c, u32 (c + 1)) cgen.

(** The outcome of a lookup that consulted [x] before everything [out]
    records. *)
Definition consulted_first (x : nat * kvset) (out : lookup_out) : lookup_out :=
  mk_lookup_out (lo_err out) (lo_res out) (lo_depth out) (lo_nkvset out + 1)
    (lo_nodes out) (x :: lo_trace out).

(** Job [h] is a finished concurrent spill of node [n] that waits for its
    commit: it is on no thread's hands, it has a completion callback, and
    its window lies in a list of [len] kvsets. *)
Definition rspill_ready (st : cn_state) (n len : nat) (h : nat) : Prop :=
  exists w,
    st_works st !! h = Some w /\ cw_node w = n /\ cw_rspill_conc w = true /\
    cw_rspill_done w <> 0 /\ cw_rspill_commit_in_progress w = 0 /\
    cw_completion w = true /\
    (cw_mark w < len)%nat /\ (cw_kvset_cnt w <= cw_mark w + 1)%nat.

(** [k'] is [k], or [k] with its work id cleared. *)
Definition unmarked (k' k : kvset) : Prop :=
  k' = k \/ k' = kvset_set_workid k 0.

(** The cursor of the eviction hints fits the list: it is unset, or it
    points to the kvset whose dgen it remembers, or that kvset has been
    trimmed away and all kvsets of the list are newer. *)
Definition cursor_fits (l : list kvset) (cur : capped_cursor) : Prop :=
  match cc_le cur with
  | None => cc_dgen cur = 0
  | Some p =>
      (exists k, l !! p = Some k /\ kvset_get_dgen k = cc_dgen cur) \/
      ((length l <= p)%nat /\
       Forall (λ k, cc_dgen cur < kvset_get_dgen k) l)
  end.

(** ** Sample data *)

Module Sample.

#[local] Instance iface : cn_iface := {|
  hlog_zero := [];
  hlog_union := λ dst _, dst;
  hlog_card := λ _, 1;
  kbb_estimate_alen := λ wlen _, wlen;
  vbb_estimate_alen := λ wlen _, wlen;
  mclass_policy_get_type := λ _ _, HSE_MCLASS_CAPACITY;
  kvset_lookup := λ k kt _,
    if bool_decide (ks_max_key k = Some kt) then (MERR_OK, FOUND_VAL)
    else (MERR_OK, NOT_FOUND);
  kvset_pfx_lookup := λ _ _ _ res seen, (MERR_OK, res, seen);
  kvset_wbti_alloc := MERR_OK;
  route_map_lookup := λ _, Some 1%nat
|}.

Definition stats1 : kvset_stats := mk_kst 10 1 4096 100 8192 500 16384 900 800.

Definition kv (dgen compc workid seqno : Z) (maxkey : list Z) : kvset :=
  mk_kvset dgen dgen compc workid seqno (Some maxkey) stats1 [].

Definition node (isroot : bool) (id : Z) (l : list kvset) : cn_tree_node :=
  mk_tn 0 0 None ns_zero samp_zero 0 (2 ^ 30) id isroot 0 l [] false.

Definition tree_pt (root_list leaf_list : list kvset) (ptseq : Z)
    (ptomb : list Z) : cn_tree :=
  mk_tree [node true 0 root_list; node false 1 leaf_list] samp_zero 4 true
          ptseq (Z.of_nat (length ptomb)) ptomb.

Definition tree (root_list leaf_list : list kvset) : cn_tree :=
  tree_pt root_list leaf_list 0 [].

Definition work (n : nat) (action : cn_action) (mark cnt : nat) (compc : Z)
    (err : merr_t) : cn_compaction_work :=
  mk_cw n action mark cnt 1 3 compc err false true false 0 0 true false []
        1 [mk_mblocks 77 1 1 0] [0] [None] [].

(** A capped root: the remembered ptomb is "b" at seqno 100; the older
    kvset holds keys up to "a" with seqnos up to 5. *)
Definition k_new : kvset := kv 2 0 0 60 [99].
Definition k_old : kvset := kv 1 0 0 5 [97].
Definition capped_tree : cn_tree := tree_pt [k_new; k_old] [] 100 [98].

(** A leaf with three kvsets of equal compc, the two newest reserved by
    job 7. *)
Definition leaf3 : list kvset := [kv 3 3 7 0 [120]; kv 2 3 7 0 [110]; kv 1 3 0 0 [100]].
Definition tree3 : cn_tree := tree [k_new; k_old] leaf3.

Definition tree3_sampled : cn_tree :=
  default tree3 (cn_tree_samp_update_compact tree3 1).

Definition root3 : cn_tree_node := node true 0 [k_new; k_old].

Definition tree3_init : cn_tree := default tree3 (cn_tree_samp_init tree3).

Definition root3_init : cn_tree_node :=
  default root3 (ct_nodes tree3_init !! ct_root).

Definition k_ingest : kvset := kv 9 0 0 70 [105].

Definition finished_leaf : cn_tree_node :=
  mk_tn 0 0 (Some []) (mk_ns stats1 0 0 0 0 0) samp_zero 0 (2 ^ 30) 1 false
        0 leaf3 [] false.

(** A failed job on the leaf, holding the leaf's token. *)
Definition failed_work : cn_compaction_work :=
  work 1 CN_ACTION_COMPACT_KV 1 2 3 (merr ENOMEM).

Definition busy_leaf : cn_tree_node :=
  mk_tn 1 0 None ns_zero samp_zero 0 (2 ^ 30) 1 false 0 leaf3 [] false.

Definition release_state : cn_state :=
  mk_state (mk_tree [root3; busy_leaf] samp_zero 4 false 0 0 [])
           {[ 7%nat := failed_work ]} [].

(** A wedged root with one finished spill queued. *)
Definition spill_work : cn_compaction_work :=
  mk_cw 0 CN_ACTION_SPILL 1 1 1 1 0 MERR_OK false false true 1 0 true false
        [] 0 [] [] [] [].

Definition wedged_root : cn_tree_node :=
  mk_tn 0 0 None ns_zero samp_zero 0 (2 ^ 30) 0 true 0 [k_new; k_old]
        [4%nat] true.

Definition spill_state : cn_state :=
  mk_state (mk_tree [wedged_root] samp_zero 4 false 0 0 [])
           {[ 4%nat := spill_work ]} [].

Definition prepare_all_ok : prepare_env :=
  mk_prepare_env true true true true (λ _, MERR_OK) MERR_OK.

(** A kv-compact of the two oldest kvsets of the leaf. *)
Definition tail_work : cn_compaction_work :=
  work 1 CN_ACTION_COMPACT_KV 2 2 3 MERR_OK.

Definition tail_work_prepared : cn_compaction_work :=
  match cn_tree_prepare_compaction prepare_all_ok tree3 tail_work with
  | Some (_, w') => w'
  | None => tail_work
  end.

End Sample.

(** ** Further sample data *)

Module Scenario.

(** One vgroup per unit of compc. *)
Definition vgroups (k : kvset) : Z := ks_compc k.

(** A leaf whose two oldest kvsets have one vgroup each. *)
Definition scattered : list kvset := [Sample.kv 5 3 0 0 [120]; Sample.kv 4 2 0 0 [110]].
Definition unscattered : list kvset := [Sample.kv 2 1 0 0 [100]; Sample.kv 1 1 0 0 [90]].

Definition leaf : cn_tree_node := Sample.node false 1 Sample.leaf3.

Definition k_mid : kvset := Sample.kv 4 0 0 0 [105].

(** The leaf of [Sample.tree3]: a kv-compact of its two oldest kvsets
    gives a kvset with the dgen of the newer of the two. *)
Definition k_merged : kvset := Sample.kv 2 4 0 0 [110].

(** A spill of the oldest kvset of the root of [Sample.tree3] with one
    output, for the leaf. *)
Definition spill_job : cn_compaction_work :=
  mk_cw 0 CN_ACTION_SPILL 1 1 1 1 0 MERR_OK false false false 0 0 true false
        [] 1 [mk_mblocks 77 1 1 0] [0] [Some 1%nat] [].

Definition k_spilled : kvset := Sample.kv 1 0 0 5 [97].



(** The merge is cut short by a shutdown while a cancel is requested. *)
Definition compact_shutdown : compact_env :=
  mk_compact_env true MERR_OK Sample.prepare_all_ok
    (λ _, mk_build_out (merr ESHUTDOWN) [] [] [] []).

(** [Sample.tree3_init] after the ingest of [Sample.k_ingest]. *)
Definition ingested : cn_tree * (Z * Z) :=
  default (Sample.tree3_init, (0, 0))
    (cn_tree_ingest_update (E := Sample.iface) Sample.tree3_init Sample.k_ingest [] 0 0).

(** The same ingest with the ptomb "b" of seqno 7. *)
Definition ingested_pt : cn_tree * (Z * Z) :=
  default ingested
    (cn_tree_ingest_update (E := Sample.iface) Sample.tree3_init Sample.k_ingest [98] 1 7).

(** A split of a node of two kvsets whose left half is empty. *)
Definition split_job : cn_compaction_work :=
  mk_cw 1 CN_ACTION_SPLIT 1 2 1 2 0 MERR_OK false true false 0 0 true false
        [] 4 [] [0; 0; 41; 42] [] [1; 2; 1; 2].

(** Collaborators of a commit that all succeed; the output opens as
    [k_merged]. *)
Definition commit_all_ok : commit_env :=
  mk_commit_env true true MERR_OK (-1) (λ n, 100 + Z.of_nat n)
    (λ _ _, MERR_OK) (λ _, MERR_OK) (λ _ _, inr k_merged) (λ _, MERR_OK)
    (λ _, MERR_OK) (λ t _ _ _, (MERR_OK, t)).

(** The same, but the output cannot be opened. *)
Definition commit_open_fails : commit_env :=
  mk_commit_env true true MERR_OK (-1) (λ n, 100 + Z.of_nat n)
    (λ _ _, MERR_OK) (λ _, MERR_OK) (λ _ _, inl ENOMEM) (λ _, MERR_OK)
    (λ _, MERR_OK) (λ t _ _ _, (MERR_OK, t)).

(** The kv-compact [Sample.tail_work], job 7, holding the token of the
    leaf; its merge leaves one output. *)
Definition kv_state : cn_state :=
  mk_state (mk_tree [Sample.root3; Sample.busy_leaf] samp_zero 4 false 0 0 [])
           {[ 7%nat := Sample.tail_work ]} [].

Definition compact_all_ok : compact_env :=
  mk_compact_env false MERR_OK Sample.prepare_all_ok
    (λ _, mk_build_out MERR_OK [mk_mblocks 77 1 1 0] [5] [None] []).

(** A wedged root with two finished spills queued, jobs 4 and 5. *)
Definition spill_work2 : cn_compaction_work :=
  mk_cw 0 CN_ACTION_SPILL 0 1 2 2 0 MERR_OK false false true 1 0 true false
        [] 0 [] [] [] [].

Definition wedged_root2 : cn_tree_node :=
  mk_tn 0 0 None ns_zero samp_zero 0 (2 ^ 30) 0 true 0 [Sample.k_new; Sample.k_old]
        [4%nat; 5%nat] true.

Definition wedged_state : cn_state :=
  mk_state (mk_tree [wedged_root2] samp_zero 4 false 0 0 [])
           {[ 4%nat := Sample.spill_work; 5%nat := spill_work2 ]} [].

(** Two root spills queued on a root that is not wedged; job 4, the
    older one, is still running when job 5 comes to its end. *)
Definition running_spill : cn_compaction_work :=
  mk_cw 0 CN_ACTION_SPILL 1 1 1 1 0 MERR_OK false false true 0 0 true false
        [] 0 [] [] [] [].

Definition ended_spill : cn_compaction_work :=
  mk_cw 0 CN_ACTION_SPILL 0 1 2 2 0 (merr ENOMEM) false false true 0 0 true false
        [] 0 [] [] [] [].

Definition queued_root : cn_tree_node :=
  mk_tn 0 0 None ns_zero samp_zero 0 (2 ^ 30) 0 true 0 [Sample.k_new; Sample.k_old]
        [4%nat; 5%nat] false.

Definition queued_state : cn_state :=
  mk_state (mk_tree [queued_root] samp_zero 4 false 0 0 [])
           {[ 4%nat := running_spill; 5%nat := ended_spill ]} [].

(** Creation times by dgen; the cursor is unset. *)
Definition ctime_of (k : kvset) : Z := 1000 * ks_dgen k.
Definition cursor0 : capped_cursor := mk_cursor 0 0 None.


(** The sample tree after one ingest update of its leaf. *)
Definition once_ingested : cn_tree :=
  default Sample.tree3
    (cn_tree_samp_update_ingest (E := Sample.iface) Sample.tree3 1).



(** A key order for the samples: shorter keys first. *)
Definition by_length (a b : key) : Z :=
  Z.of_nat (length a) - Z.of_nat (length b).

Definition long_node : cn_tree_node :=
  Sample.node false 1
    [Sample.kv 3 0 0 0 [1]; Sample.kv 2 0 0 0 [7; 8; 9]; Sample.kv 1 0 0 0 [4; 5; 6]].


End Scenario.

(** * Properties *)

(** ** Machine integer facts *)

Lemma s64_in_range z : in_s64 (s64 z).
Proof.
  unfold in_s64, s64.
  pose proof (Z.mod_pos_bound (z + 2 ^ 63) (2 ^ 64) ltac:(lia)). lia.
Qed.

Lemma s64_id z : in_s64 z -> s64 z = z.
Proof.
  unfold in_s64, s64. intros Hz.
  rewrite Z.mod_small by lia. lia.
Qed.

Lemma s64_idemp z : s64 (s64 z) = s64 z.
Proof. apply s64_id, s64_in_range. Qed.

Lemma s64_add_l a b : s64 (s64 a + b) = s64 (a + b).
Proof.
  unfold s64. f_equal.
  replace ((a + 2 ^ 63) mod 2 ^ 64 - 2 ^ 63 + b + 2 ^ 63)
    with ((a + 2 ^ 63) mod 2 ^ 64 + b) by lia.
  rewrite Zplus_mod_idemp_l. f_equal. lia.
Qed.

Lemma s64_add_r a b : s64 (a + s64 b) = s64 (a + b).
Proof. rewrite Z.add_comm, s64_add_l. f_equal. lia. Qed.

Lemma u64_id z : 0 <= z < 2 ^ 64 -> u64 z = z.
Proof. intros. unfold u64. apply Z.mod_small. lia. Qed.

Lemma u64_in_range z : 0 <= u64 z < 2 ^ 64.
Proof. unfold u64. apply Z.mod_pos_bound. lia. Qed.

(** Drop every wrap whose operand is in range by linear arithmetic,
    innermost first. *)
Ltac no_wrap :=
  repeat match goal with
         | |- context [u64 ?x] => rewrite (u64_id x) by lia
         | |- context [s64 ?x] => rewrite (s64_id x) by (unfold in_s64; lia)
         end.

Lemma samp_eq (a b : cn_samp_stats) :
  r_alen a = r_alen b -> r_wlen a = r_wlen b -> i_alen a = i_alen b ->
  l_alen a = l_alen b -> l_good a = l_good b -> a = b.
Proof. destruct a, b; simpl; intros; congruence. Qed.

(** ** The tree total is the sum of the node records *)

Lemma samp_sum_counters l :
  samp_sum l =
  mk_samp (s64 (counter_sum r_alen l)) (s64 (counter_sum r_wlen l))
          (s64 (counter_sum i_alen l)) (s64 (counter_sum l_alen l))
          (s64 (counter_sum l_good l)).
Proof.
  induction l as [|a l IH]; [reflexivity|].
  simpl. rewrite IH. unfold samp_add; simpl.
  by rewrite !s64_add_r.
Qed.

Lemma counter_sum_insert f (l : list cn_tree_node) n tn tn' :
  l !! n = Some tn ->
  counter_sum f (tn_samp <$> <[n := tn']> l) =
  counter_sum f (tn_samp <$> l) + (f (tn_samp tn') - f (tn_samp tn)).
Proof.
  revert n. induction l as [|a l IH]; intros [|n] Hn; simplify_eq/=.
  - lia.
  - rewrite (IH _ Hn). lia.
Qed.

Lemma samp_sum_insert (l : list cn_tree_node) n tn tn' :
  l !! n = Some tn ->
  samp_sum (tn_samp <$> <[n := tn']> l) =
  samp_apply_delta (samp_sum (tn_samp <$> l)) (tn_samp tn') (tn_samp tn).
Proof.
  intros Hn. rewrite !samp_sum_counters. unfold samp_apply_delta; simpl.
  rewrite !(counter_sum_insert _ _ _ _ _ Hn).
  by rewrite !s64_add_l, !s64_add_r.
Qed.

Lemma samp_apply_delta_same total s :
  samp_wf total -> samp_apply_delta total s s = total.
Proof.
  intros (?&?&?&?&?). unfold samp_apply_delta.
  rewrite !Z.sub_diag. change (s64 0) with 0. rewrite !Z.add_0_r.
  apply samp_eq; simpl; by apply s64_id.
Qed.

Lemma samp_sum_wf l : samp_wf (samp_sum l).
Proof.
  rewrite samp_sum_counters. repeat split; apply s64_in_range.
Qed.

Section sampling_facts.
Context {E : cn_iface}.

Lemma compact_preserves_total t n t' :
  tree_samp_ok t -> cn_tree_samp_update_compact t n = Some t' ->
  tree_samp_ok t'.
Proof.
  unfold tree_samp_ok, cn_tree_samp_update_compact. intros Hok Hup.
  destruct (ct_nodes t !! n) as [tn|] eqn:Hn; [|done]. simpl in Hup.
  destruct (tn_samp_recompute tn) as [tn'|]; [|done].
  simplify_eq/=. rewrite Hok. symmetry. by apply samp_sum_insert.
Qed.

Lemma ingest_preserves_total t n t' :
  tree_samp_ok t -> cn_tree_samp_update_ingest t n = Some t' ->
  tree_samp_ok t'.
Proof.
  unfold tree_samp_ok, cn_tree_samp_update_ingest. intros Hok Hup.
  destruct (ct_nodes t !! n) as [tn|] eqn:Hn; [|done]. simpl in Hup.
  destruct (tn_kvset_list tn) as [|k l]; [by simplify_eq|].
  destruct (tn_samp_update_incr tn k false) as [tn1 b].
  destruct (if b then tn_samp_update_finish tn1 else Some tn1) as [tn'|];
    [|done].
  simplify_eq/=. rewrite Hok. symmetry. by apply samp_sum_insert.
Qed.

Lemma ingest_leaves_preserves_total count : forall t leaf t',
  tree_samp_ok t -> samp_ingest_leaves t leaf count = Some t' ->
  tree_samp_ok t'.
Proof.
  induction count as [|c IH]; intros t leaf t' Hok Hup; simpl in Hup.
  - by simplify_eq.
  - destruct (cn_tree_samp_update_ingest t leaf) as [t1|] eqn:H1; [|done].
    simpl in Hup. eapply IH; [|exact Hup].
    eapply ingest_preserves_total; eauto.
Qed.

Lemma spill_preserves_total t n t' :
  tree_samp_ok t -> cn_tree_samp_update_spill t n = Some t' ->
  tree_samp_ok t'.
Proof.
  unfold cn_tree_samp_update_spill. intros Hok Hup.
  destruct (cn_tree_samp_update_compact t n) as [t1|] eqn:H1; [|done].
  simpl in Hup. eapply ingest_leaves_preserves_total; [|exact Hup].
  eapply compact_preserves_total; eauto.
Qed.

End sampling_facts.

#[global] Arguments tn_samp_update_incr : simpl never.
#[global] Arguments tn_samp_update_finish : simpl never.
#[global] Arguments tn_samp_clear : simpl never.

Section recompute_facts.
Context {E : cn_iface}.

Lemma clear_after_incr tn k force :
  tn_samp_clear (tn_samp_update_incr tn k force).1 = tn_samp_clear tn /\
  tn_kvset_list (tn_samp_update_incr tn k force).1 = tn_kvset_list tn.
Proof.
  unfold tn_samp_update_incr.
  destruct (negb force && (kvset_get_dgen k <=? tn_update_incr_dgen tn));
    [done|].
  destruct tn as [? ? [h|] ? ? ? ? ? [] ? ? ? ?]; done.
Qed.

Lemma clear_after_finish tn tn' :
  tn_samp_update_finish tn = Some tn' ->
  tn_samp_clear tn' = tn_samp_clear tn /\
  tn_kvset_list tn' = tn_kvset_list tn.
Proof.
  unfold tn_samp_update_finish. intros Hf.
  destruct (tn_size_max tn =? 0); [done|]. simplify_eq.
  destruct tn as [? ? [h|] ? ? ? ? ? [] ? ? ? ?]; done.
Qed.

Lemma fold_all_cons tn nf k l :
  tn_samp_fold_all tn nf (k :: l) =
  tn_samp_fold_all (tn_samp_update_incr tn k true).1
    (if (tn_samp_update_incr tn k true).2 then true else nf) l.
Proof.
  cbn [tn_samp_fold_all]. by destruct (tn_samp_update_incr tn k true).
Qed.

Lemma clear_after_fold l : forall tn nf,
  tn_samp_clear (tn_samp_fold_all tn nf l).1 = tn_samp_clear tn /\
  tn_kvset_list (tn_samp_fold_all tn nf l).1 = tn_kvset_list tn.
Proof.
  induction l as [|k l IH]; intros tn nf; [done|].
  rewrite fold_all_cons.
  pose proof (clear_after_incr tn k true) as [Hc Hl].
  destruct (IH (tn_samp_update_incr tn k true).1
               (if (tn_samp_update_incr tn k true).2 then true else nf))
    as [IH1 IH2].
  split; congruence.
Qed.

Lemma clear_idemp tn :
  tn_samp_clear (tn_samp_clear tn) = tn_samp_clear tn /\
  tn_kvset_list (tn_samp_clear tn) = tn_kvset_list tn.
Proof. destruct tn as [? ? [h|] ? ? ? ? ? [] ? ? ? ?]; done. Qed.

Lemma recompute_frame tn tn1 :
  tn_samp_recompute tn = Some tn1 ->
  tn_samp_clear tn1 = tn_samp_clear tn /\
  tn_kvset_list tn1 = tn_kvset_list tn.
Proof.
  unfold tn_samp_recompute. intros Hr.
  pose proof (clear_after_fold (tn_kvset_list tn) (tn_samp_clear tn) false)
    as [Hc Hl].
  destruct (tn_samp_fold_all (tn_samp_clear tn) false (tn_kvset_list tn))
    as [tn2 nf]; simpl in *.
  destruct (clear_idemp tn) as [Hci Hli].
  destruct nf.
  - apply clear_after_finish in Hr as [Hf1 Hf2]. split; congruence.
  - injection Hr as <-. split; congruence.
Qed.

Lemma recompute_fixed tn tn1 :
  tn_samp_recompute tn = Some tn1 -> tn_samp_recompute tn1 = Some tn1.
Proof.
  intros Hr. destruct (recompute_frame _ _ Hr) as [Hc Hl].
  unfold tn_samp_recompute in *. by rewrite Hc, Hl.
Qed.

Lemma finish_succeeds tn :
  tn_size_max tn <> 0 -> exists tn', tn_samp_update_finish tn = Some tn'.
Proof.
  intros Hsz. unfold tn_samp_update_finish.
  destruct (tn_size_max tn =? 0) eqn:Hz; [lia|]. eauto.
Qed.

Lemma size_max_of_clear a b :
  tn_samp_clear a = tn_samp_clear b -> tn_size_max a = tn_size_max b.
Proof. intros H. by apply (f_equal tn_size_max) in H. Qed.

Lemma recompute_succeeds tn :
  tn_size_max tn <> 0 ->
  exists tn', tn_samp_recompute tn = Some tn' /\
              tn_kvset_list tn' = tn_kvset_list tn.
Proof.
  intros Hsz. unfold tn_samp_recompute.
  pose proof (clear_after_fold (tn_kvset_list tn) (tn_samp_clear tn) false)
    as [Hc Hl].
  destruct (tn_samp_fold_all (tn_samp_clear tn) false (tn_kvset_list tn))
    as [tn2 nf]; simpl in *.
  destruct (clear_idemp tn) as [Hci Hli].
  destruct nf.
  - destruct (finish_succeeds tn2) as [tn' Hfin].
    { rewrite (size_max_of_clear tn2 tn); [done|congruence]. }
    exists tn'. split; [done|].
    destruct (clear_after_finish _ _ Hfin) as [_ Hlf]. congruence.
  - exists tn2. split; [done|]. congruence.
Qed.

Lemma compact_total_wf t n t' :
  cn_tree_samp_update_compact t n = Some t' -> samp_wf (ct_samp t').
Proof.
  unfold cn_tree_samp_update_compact. intros Hup.
  destruct (ct_nodes t !! n) as [tn|]; [|done]. simpl in Hup.
  destruct (tn_samp_recompute tn) as [tn'|]; [|done]. simplify_eq/=.
  repeat split; apply s64_in_range.
Qed.

Lemma fold_all_need_finish l : forall tn nf,
  (tn_samp_fold_all tn nf l).2 = match l with [] => nf | _ => true end.
Proof.
  induction l as [|k l IH]; intros tn nf; [done|].
  rewrite fold_all_cons, IH.
  assert ((tn_samp_update_incr tn k true).2 = true) as -> by done.
  by destruct l.
Qed.

(** The finish step leaves the samp record that the node's stats give. *)
Lemma finish_samp_consistent tn tn' :
  tn_samp_update_finish tn = Some tn' ->
  tn_samp tn' = tn_samp_of tn' (tn_ns tn').
Proof.
  unfold tn_samp_update_finish. intros Hf.
  destruct (tn_size_max tn =? 0); [done|].
  injection Hf as <-. done.
Qed.

(** So does the full recomputation, also on an empty node. *)
Lemma recompute_samp_consistent tn tn' :
  tn_samp_recompute tn = Some tn' ->
  tn_samp tn' = tn_samp_of tn' (tn_ns tn').
Proof.
  unfold tn_samp_recompute. intros Hr.
  pose proof (fold_all_need_finish (tn_kvset_list tn) (tn_samp_clear tn) false)
    as Hnf.
  destruct (tn_samp_fold_all (tn_samp_clear tn) false (tn_kvset_list tn))
    as [tn2 nf] eqn:Hfold; simpl in Hnf. subst nf.
  destruct (tn_kvset_list tn) as [|k l].
  - cbn [tn_samp_fold_all] in Hfold. injection Hfold as <-.
    injection Hr as <-.
    unfold tn_samp_clear, tn_samp_of, cn_node_isleaf, cn_node_isroot.
    simpl. by destruct (tn_isroot tn).
  - by eapply finish_samp_consistent.
Qed.

Lemma compact_nodes_preserves_total count : forall t n t',
  tree_samp_ok t -> samp_compact_nodes t n count = Some t' ->
  tree_samp_ok t'.
Proof.
  induction count as [|c IH]; intros t n t' Hok Hup; simpl in Hup.
  - by simplify_eq.
  - destruct (cn_tree_samp_update_compact t n) as [t1|] eqn:H1; [|done].
    simpl in Hup. eapply IH; [|exact Hup].
    eapply compact_preserves_total; eauto.
Qed.

Lemma samp_sum_zero (l : list cn_tree_node) :
  Forall (λ tn, tn_samp tn = samp_zero) l ->
  samp_sum (tn_samp <$> l) = samp_zero.
Proof.
  induction 1 as [|tn l Hz _ IH]; [done|].
  rewrite fmap_cons. unfold samp_sum in *. cbn [foldr].
  rewrite Hz, IH. reflexivity.
Qed.

(** [cn_tree_samp_init] on a tree of fresh nodes sets the total up as the
    sum of the node records. *)
Lemma samp_init_establishes_total t t' :
  Forall (λ tn, tn_samp tn = samp_zero) (ct_nodes t) ->
  cn_tree_samp_init t = Some t' -> tree_samp_ok t'.
Proof.
  intros Hz Hinit. unfold cn_tree_samp_init in Hinit.
  eapply compact_nodes_preserves_total; [|exact Hinit].
  unfold tree_samp_ok. simpl. symmetry. by apply samp_sum_zero.
Qed.

End recompute_facts.

(** ** Claims about the sampling engine *)

(** C4.  The invariant "tree samp = componentwise sum of the node samp
    records" (in each of r_alen, r_wlen, i_alen, l_alen, l_good) is kept by
    every sampling update: the full recomputation of a node, the
    incremental ingest update of a node, and the spill combination of the
    two. *)
Theorem samp_update_keeps_tree_total {E : cn_iface} (t t' : cn_tree) :
  tree_samp_ok t -> samp_update t t' -> tree_samp_ok t'.
Proof.
  intros Hok [n Hup|n Hup|Hup].
  - eapply compact_preserves_total; eauto.
  - eapply ingest_preserves_total; eauto.
  - eapply spill_preserves_total; eauto.
Qed.

(** C8.  A second full recomputation of a node right after a first one
    changes nothing: node stats, node samp record and tree totals (the
    whole tree state) are those the first run left. *)
Theorem update_compact_twice {E : cn_iface} (t t1 : cn_tree) (n : nat) :
  cn_tree_samp_update_compact t n = Some t1 ->
  cn_tree_samp_update_compact t1 n = Some t1.
Proof.
  intros Hup. pose proof (compact_total_wf _ _ _ Hup) as Hwf.
  unfold cn_tree_samp_update_compact in *.
  destruct (ct_nodes t !! n) as [tn|] eqn:Hn; [|done]. simpl in Hup.
  destruct (tn_samp_recompute tn) as [tn'|] eqn:Hr; [|done].
  simplify_eq/=.
  rewrite list_lookup_insert_eq by (by eapply lookup_lt_Some). simpl.
  rewrite (recompute_fixed _ _ Hr). simpl.
  rewrite list_insert_insert_eq.
  rewrite samp_apply_delta_same by done.
  reflexivity.
Qed.

(** C9.  The finish step, on a node whose size threshold is not zero,
    completes and leaves ns_kclen <= kst_kalen, ns_vclen <= kst_valen and
    ns_pcap <= 65535. *)
Theorem finish_clen_pcap_bounds {E : cn_iface} (tn : cn_tree_node) :
  tn_size_max tn <> 0 ->
  exists tn', tn_samp_update_finish tn = Some tn' /\
    ns_kclen (tn_ns tn') <= kst_kalen (ns_kst (tn_ns tn')) /\
    ns_vclen (tn_ns tn') <= kst_valen (ns_kst (tn_ns tn')) /\
    ns_pcap (tn_ns tn') <= 65535.
Proof.
  intros Hsz. unfold tn_samp_update_finish.
  destruct (tn_size_max tn =? 0) eqn:Hz; [lia|].
  eexists. split; [reflexivity|]. simpl.
  unfold u16_max. repeat split; lia.
Qed.

(** ** Ingest *)

Lemma stats_below_fields b s :
  stats_below b s ->
  (0 <= kst_halen s < b) /\ (0 <= kst_hwlen s < b) /\
  (0 <= kst_kalen s < b) /\ (0 <= kst_kwlen s < b) /\
  (0 <= kst_valen s < b) /\ (0 <= kst_vwlen s < b).
Proof.
  unfold stats_below, in_range. rewrite !Forall_cons. tauto.
Qed.

Lemma samp_below_fields b s :
  samp_below b s ->
  (- 2 ^ 63 <= r_alen s < b) /\ (- 2 ^ 63 <= r_wlen s < b) /\
  (- 2 ^ 63 <= i_alen s < b) /\ (- 2 ^ 63 <= l_alen s < b) /\
  (- 2 ^ 63 <= l_good s < b).
Proof.
  unfold samp_below, in_range. rewrite !Forall_cons. tauto.
Qed.

Lemma samp_below_wf b s : b <= 2 ^ 63 -> samp_below b s -> samp_wf s.
Proof.
  intros Hb Hs. apply samp_below_fields in Hs.
  unfold samp_wf, in_s64. lia.
Qed.

Section ingest_facts.
Context {E : cn_iface}.

(** What the incremental update does to a root whose newest kvset is
    [k], in terms of the tree totals. *)
Lemma update_ingest_root t root k l :
  ct_nodes t !! ct_root = Some root ->
  tn_kvset_list root = k :: l ->
  cn_node_isroot root = true ->
  tn_size_max root <> 0 ->
  tn_samp root = tn_samp_of root (tn_ns root) ->
  stats_below (2 ^ 60) (ns_kst (tn_ns root)) ->
  stats_below (2 ^ 60) (kvset_statsp k) ->
  samp_below (2 ^ 62) (ct_samp t) ->
  exists t' root',
    cn_tree_samp_update_ingest t ct_root = Some t' /\
    ct_nodes t' = <[ct_root := root']> (ct_nodes t) /\
    tn_kvset_list root' = tn_kvset_list root /\
    tn_cgen root' = tn_cgen root /\
    in_s64 (r_alen (ct_samp t') - r_alen (ct_samp t)) /\
    in_s64 (r_wlen (ct_samp t') - r_wlen (ct_samp t)) /\
    i_alen (ct_samp t) <= i_alen (ct_samp t') /\
    r_wlen (ct_samp t) <= r_wlen (ct_samp t') /\
    l_alen (ct_samp t') = l_alen (ct_samp t) /\
    l_good (ct_samp t') = l_good (ct_samp t).
Proof.
  intros Hroot Hl Hisroot Hsz Hcons Hns Hk Hct.
  assert (samp_wf (ct_samp t)) as Hwf
    by (eapply samp_below_wf; [|exact Hct]; lia).
  apply samp_below_fields in Hct.
  apply stats_below_fields in Hns, Hk.
  unfold cn_tree_samp_update_ingest. rewrite Hroot. simpl. rewrite Hl.
  unfold tn_samp_update_incr. simpl.
  destruct (kvset_get_dgen k <=? tn_update_incr_dgen root).
  - (* the kvset was folded before: nothing changes *)
    simpl. eexists _, root. split; [reflexivity|]. simpl.
    rewrite !Z.sub_diag. change (s64 0) with 0. rewrite !Z.add_0_r.
    rewrite !s64_id by (unfold in_s64; lia).
    unfold in_s64. repeat split; try done; lia.
  - unfold tn_samp_update_finish. simpl.
    destruct (tn_size_max root =? 0) eqn:Hz; [lia|]. simpl.
    eexists _, _. split; [reflexivity|].
    split; [reflexivity|]. split; [simpl; done|]. split; [reflexivity|].
    simpl.
    rewrite Hcons. unfold tn_samp_of, cn_node_isleaf, cn_node_isroot in *.
    simpl. rewrite Hisroot. simpl.
    unfold cn_ns_alen, cn_ns_wlen. simpl.
    no_wrap.
    unfold in_s64. repeat split; try done; lia.
Qed.

End ingest_facts.

(** C7.  An ingest update puts the new kvset at the head of the root's
    list, bumps the root's change generation and leaves every other node
    alone; between the samp snapshots taken around the update, i_alen and
    r_wlen do not decrease and l_alen and l_good do not change; the
    scheduler is notified with exactly the differences of r_alen and
    r_wlen.  The root's samp record is the one its stats give (as every
    sampling update leaves it), and the lengths are far from the 64-bit
    limits. *)
Theorem ingest_update_effects {E : cn_iface} (t : cn_tree) (k : kvset)
    (ptomb : list Z) (ptlen ptseq : Z) (root : cn_tree_node) :
  ct_nodes t !! ct_root = Some root ->
  cn_node_isroot root = true ->
  tn_size_max root <> 0 ->
  tn_samp root = tn_samp_of root (tn_ns root) ->
  stats_below (2 ^ 60) (ns_kst (tn_ns root)) ->
  stats_below (2 ^ 60) (kvset_statsp k) ->
  samp_below (2 ^ 62) (ct_samp t) ->
  exists t' root',
    cn_tree_ingest_update t k ptomb ptlen ptseq =
      Some (t', (r_alen (ct_samp t') - r_alen (ct_samp t),
                 r_wlen (ct_samp t') - r_wlen (ct_samp t))) /\
    ct_nodes t' !! ct_root = Some root' /\
    tn_kvset_list root' = k :: tn_kvset_list root /\
    tn_cgen root' = u32 (tn_cgen root + 1) /\
    (forall n, n <> ct_root -> ct_nodes t' !! n = ct_nodes t !! n) /\
    i_alen (ct_samp t) <= i_alen (ct_samp t') /\
    r_wlen (ct_samp t) <= r_wlen (ct_samp t') /\
    l_alen (ct_samp t') = l_alen (ct_samp t) /\
    l_good (ct_samp t') = l_good (ct_samp t).
Proof.
  intros Hroot Hisroot Hsz Hcons Hns Hk Hct.
  assert (ct_root < length (ct_nodes t))%nat as Hlen
    by (by eapply lookup_lt_Some).
  unfold cn_tree_ingest_update. rewrite Hroot. simpl.
  set (root2 := tn_set_cgen (tn_set_kvset_list root (k :: tn_kvset_list root))
                  (u32 (tn_cgen root + 1))).
  set (nodes2 := <[ct_root := root2]> (ct_nodes t)).
  set (tree2 := if ct_capped t then _ else _).
  assert (ct_nodes tree2 = nodes2 /\ ct_samp tree2 = ct_samp t) as [Hn2 Hs2]
    by (subst tree2; by destruct (ct_capped t)).
  destruct (update_ingest_root tree2 root2 k (tn_kvset_list root))
    as (t' & root' & Hup & Hnodes & Hlist & Hcgen & Hr1 & Hr2 & Hi & Hw & Hl1 & Hl2);
    try done.
  { rewrite Hn2. subst nodes2. by apply list_lookup_insert_eq. }
  { by rewrite Hs2. }
  unfold cn_tree_samp in *. rewrite Hs2 in *.
  rewrite Hup. simpl. exists t', root'.
  rewrite Hnodes, Hn2. subst nodes2.
  split; [by rewrite !s64_id by done|].
  split; [apply list_lookup_insert_eq; by rewrite length_insert|].
  split; [done|]. split; [done|].
  split; [|done].
  intros n Hn. by rewrite !list_lookup_insert_ne.
Qed.

(** ** Concurrent root spills *)

(** C2.  On a node whose spill FIFO is not empty, the picker returns
    either nothing or the head of the FIFO; it returns the head exactly
    when the head's rspill_done is set and its commit_in_progress is clear.
    Returning nothing changes nothing.  Returning the head sets its
    commit_in_progress, leaves it on the FIFO, and, if the node is wedged
    and the job has no error, sets the job's error to shutdown and marks
    it canceled; otherwise error and canceled flag stay as they were. *)
Theorem get_completed_spill_head (st : cn_state) (node : nat)
    (tn : cn_tree_node) (h : nat) (q : list nat) (w : cn_compaction_work) :
  ct_nodes (st_tree st) !! node = Some tn ->
  tn_rspills tn = h :: q ->
  st_works st !! h = Some w ->
  exists st' r,
    get_completed_spill st node = Some (st', r) /\
    (r = None \/ r = Some h) /\
    (r = Some h <->
       cw_rspill_done w <> 0 /\ cw_rspill_commit_in_progress w = 0) /\
    (r = None -> st' = st) /\
    (r = Some h ->
       exists w',
         st_works st' !! h = Some w' /\
         cw_rspill_commit_in_progress w' = 1 /\
         (tn_rspills_wedged tn = true -> cw_err w = MERR_OK ->
            cw_err w' = merr ESHUTDOWN /\ cw_canceled w' = true) /\
         (tn_rspills_wedged tn = false \/ cw_err w <> MERR_OK ->
            cw_err w' = cw_err w /\ cw_canceled w' = cw_canceled w) /\
         st_tree st' = st_tree st /\
         (forall h', h' <> h -> st_works st' !! h' = st_works st !! h')).
Proof.
  intros Hn Hq Hw. unfold get_completed_spill.
  rewrite Hn. simpl. rewrite Hq, Hw. simpl.
  destruct (cw_rspill_done w =? 0) eqn:Hdone; simpl.
  { apply Z.eqb_eq in Hdone. eexists _, None. split; [reflexivity|].
    split; [by left|]. split; [split; [done|lia]|]. split; done. }
  apply Z.eqb_neq in Hdone.
  destruct (cw_rspill_commit_in_progress w =? 0) eqn:Hcip; simpl.
  2:{ apply Z.eqb_neq in Hcip. eexists _, None. split; [reflexivity|].
      split; [by left|]. split; [split; [done|lia]|]. split; done. }
  apply Z.eqb_eq in Hcip.
  eexists _, (Some h). split; [reflexivity|].
  split; [by right|]. split; [done|]. split; [done|]. intros _.
  eexists. simpl. split; [apply lookup_insert_eq|].
  split.
  { by destruct (tn_rspills_wedged tn && negb (merr_is_err (cw_err w))). }
  split.
  { intros Hwedged Herr. rewrite Hwedged, Herr. done. }
  split.
  { intros [Hwedged|Herr].
    - rewrite Hwedged. done.
    - destruct (cw_err w); [done|]. by rewrite andb_false_r. }
  split; [done|].
  intros h' Hne. by rewrite lookup_insert_ne.
Qed.

(** ** Release *)

Lemma release_unmark_spec cnt : forall (l : list kvset) (m : nat),
  (m < length l)%nat -> (cnt <= m + 1)%nat ->
  exists l',
    release_unmark l (Some m) cnt = Some l' /\
    length l' = length l /\
    forall j,
      l' !! j =
      if bool_decide (m + 1 - cnt <= j <= m)%nat
      then (λ k, kvset_set_workid k 0) <$> l !! j
      else l !! j.
Proof.
  induction cnt as [|c IH]; intros l m Hm Hc.
  - exists l. split; [done|]. split; [done|]. intros j.
    rewrite bool_decide_eq_false_2 by lia. done.
  - destruct (lookup_lt_is_Some_2 l m Hm) as [k Hk].
    cbn [release_unmark]. simpl. rewrite Hk. simpl.
    destruct m as [|p].
    + assert (c = 0)%nat as -> by lia. simpl.
      eexists. split; [reflexivity|]. split; [by rewrite length_insert|].
      intros j. destruct (decide (j = 0%nat)) as [->|Hj].
      * rewrite bool_decide_eq_true_2 by lia.
        rewrite list_lookup_insert_eq by done. by rewrite Hk.
      * rewrite bool_decide_eq_false_2 by lia.
        by rewrite list_lookup_insert_ne.
    + destruct (IH (<[S p := kvset_set_workid k 0]> l) p) as (l' & Hl' & Hlen & Hlk).
      { rewrite length_insert. lia. }
      { lia. }
      exists l'. split; [exact Hl'|].
      split; [by rewrite Hlen, length_insert|].
      intros j. rewrite Hlk.
      destruct (decide (j = S p)) as [->|Hj].
      * rewrite bool_decide_eq_false_2 by lia.
        rewrite bool_decide_eq_true_2 by lia.
        rewrite list_lookup_insert_eq by done. by rewrite Hk.
      * rewrite list_lookup_insert_ne by done.
        destruct (decide (S p + 1 - S c <= j <= S p)%nat).
        -- rewrite !bool_decide_eq_true_2 by lia. done.
        -- rewrite !bool_decide_eq_false_2 by lia. done.
Qed.

(** C10.  Releasing a job that carries an error, whose input window lies
    within its node's list, succeeds and resets the work-id of each of the
    kvset_cnt kvsets from the mark towards the head to zero; the other
    kvsets of the list are untouched.  If the job held the node's
    compaction token, the token is free afterwards. *)
Theorem release_failed_job_unmarks_inputs (st : cn_state) (wp : nat)
    (w : cn_compaction_work) (tn : cn_tree_node) :
  st_works st !! wp = Some w ->
  ct_nodes (st_tree st) !! cw_node w = Some tn ->
  cw_err w <> MERR_OK ->
  (cw_mark w < length (tn_kvset_list tn))%nat ->
  (cw_kvset_cnt w <= cw_mark w + 1)%nat ->
  exists st' tn',
    cn_comp_release st wp = Some st' /\
    ct_nodes (st_tree st') !! cw_node w = Some tn' /\
    length (tn_kvset_list tn') = length (tn_kvset_list tn) /\
    (forall j,
       (cw_mark w + 1 - cw_kvset_cnt w <= j <= cw_mark w)%nat ->
       exists k, tn_kvset_list tn !! j = Some k /\
                 tn_kvset_list tn' !! j = Some (kvset_set_workid k 0) /\
                 kvset_get_workid (kvset_set_workid k 0) = 0) /\
    (forall j,
       ~ (cw_mark w + 1 - cw_kvset_cnt w <= j <= cw_mark w)%nat ->
       tn_kvset_list tn' !! j = tn_kvset_list tn !! j) /\
    (cw_have_token w = true -> tn_compacting tn = 1 ->
       tn_compacting tn' = 0) /\
    (cw_have_token w = false -> tn_compacting tn' = tn_compacting tn).
Proof.
  intros Hw Hn Herr Hmark Hcnt.
  assert (cw_node w < length (ct_nodes (st_tree st)))%nat as Hlen
    by (by eapply lookup_lt_Some).
  destruct (release_unmark_spec (cw_kvset_cnt w) (tn_kvset_list tn) (cw_mark w))
    as (l' & Hl' & Hlen' & Hlk); [done..|].
  unfold cn_comp_release. rewrite Hw. simpl. rewrite Hn. simpl.
  assert (merr_is_err (cw_err w) = true) as -> by (by destruct (cw_err w)).
  assert (tn_kvset_list
            (if cw_rspill_conc w
             then tn_set_rspills tn (filter (λ x, x ≠ wp) (tn_rspills tn))
             else tn) = tn_kvset_list tn) as -> by (by destruct (cw_rspill_conc w)).
  rewrite Hl'. simpl.
  set (tn1 := if cw_rspill_conc w then _ else tn).
  set (tn3 := if cw_have_token w then _ else _).
  assert (tn_kvset_list tn3 = l') as Hl3.
  { subst tn3. destruct (cw_have_token w); [|done].
    unfold cn_node_comp_token_put. simpl.
    by destruct (tn_compacting tn1 =? 1). }
  assert (tn_compacting tn1 = tn_compacting tn) as Hc1
    by (subst tn1; by destruct (cw_rspill_conc w)).
  exists (if negb (cw_completion w)
          then mk_state (st_tree (st_set_node st (cw_node w) tn3))
                 (delete wp (st_works (st_set_node st (cw_node w) tn3)))
                 (st_completed (st_set_node st (cw_node w) tn3))
          else mk_state (st_tree (st_set_node st (cw_node w) tn3))
                 (st_works (st_set_node st (cw_node w) tn3))
                 (wp :: st_completed (st_set_node st (cw_node w) tn3))), tn3.
  split; [by destruct (cw_completion w)|].
  split.
  { destruct (cw_completion w); simpl; by apply list_lookup_insert_eq. }
  rewrite Hl3. split; [done|].
  split.
  { intros j Hj. destruct (lookup_lt_is_Some_2 (tn_kvset_list tn) j) as [k Hk];
      [lia|].
    exists k. split; [done|]. split; [|done].
    rewrite Hlk, bool_decide_eq_true_2 by done. by rewrite Hk. }
  split.
  { intros j Hj. rewrite Hlk, bool_decide_eq_false_2 by done. done. }
  subst tn3. split.
  - intros -> Htok. unfold cn_node_comp_token_put. simpl.
    rewrite Hc1, Htok. done.
  - intros ->. simpl. done.
Qed.

(** ** Commit: the compc of a k-compact or kv-compact output *)

(** C3 (as amended).  For a k-compact or kv-compact job, the compc of the
    output is the job's compc plus one, unless the kvset just past the
    mark (the next older one) has a compc smaller than or equal to the
    job's compc, in which case the job's compc is carried over. *)
Theorem commit_compc_kvcompact (tree : cn_tree) (w : cn_compaction_work)
    (nodeidv : Z * Z) (i : nat) (node : cn_tree_node) (out : kvset_mblocks) :
  cw_action w = CN_ACTION_COMPACT_K \/ cw_action w = CN_ACTION_COMPACT_KV ->
  ct_nodes tree !! cw_node w = Some node ->
  cw_outv w !! i = Some out ->
  exists km,
    cn_comp_commit_meta tree w nodeidv i = Some km /\
    km_compc km =
      match tn_kvset_list node !! S (cw_mark w) with
      | Some older =>
          if kvset_get_compc older <=? cw_compc w then cw_compc w
          else u32 (cw_compc w + 1)
      | None => u32 (cw_compc w + 1)
      end.
Proof.
  intros Hact Hn Hout. unfold cn_comp_commit_meta.
  rewrite Hout. simpl.
  assert (forall X Y Z0 : option kvset_meta,
            match cw_action w with
            | CN_ACTION_SPILL => X | CN_ACTION_SPLIT => Y | _ => Z0
            end = Z0) as -> by (by destruct Hact as [-> | ->]).
  rewrite Hn. simpl. eexists. split; [reflexivity|]. simpl.
  unfold list_next_entry_or_null.
  destruct (decide (S (cw_mark w) < length (tn_kvset_list node))%nat) as [Hlt|Hge].
  - destruct (lookup_lt_is_Some_2 _ _ Hlt) as [older Holder].
    rewrite Holder.
    destruct (Z.ltb_spec (cw_compc w) (kvset_get_compc older)),
             (Z.leb_spec (kvset_get_compc older) (cw_compc w)); done || lia.
  - rewrite lookup_ge_None_2 by lia. done.
Qed.

(** C3, as first stated, fails where the next older kvset has the same
    compc as the job: the code carries the compc over (3), the statement
    bumps it (4). *)
Lemma commit_compc_equal_neighbour :
  km_compc <$>
    cn_comp_commit_meta
      (Sample.tree [] [Sample.kv 3 3 1 0 []; Sample.kv 2 3 1 0 []; Sample.kv 1 3 0 0 []])
      (Sample.work 1 CN_ACTION_COMPACT_KV 1 2 3 MERR_OK) (0, 0) 0 = Some 3 /\
  compc_as_described
    [Sample.kv 3 3 1 0 []; Sample.kv 2 3 1 0 []; Sample.kv 1 3 0 0 []] 1 3 = 4.
Proof. split; reflexivity. Qed.

(** ** Preparation: tombstone dropping *)

Lemma list_last_entry_length {A} (l : list A) (m : nat) :
  Some m = list_last_entry l <-> length l = S m.
Proof. destruct l; simpl; split; intros; simplify_eq; done. Qed.

(** C6.  When preparation succeeds, the descriptor it hands back has
    tombstone dropping enabled if and only if the action is not spill and
    the mark is the last (oldest) entry of the node's kvset list. *)
Theorem prepare_drop_tombs (pe : prepare_env) (tree : cn_tree)
    (w w' : cn_compaction_work) :
  cn_tree_prepare_compaction pe tree w = Some (MERR_OK, w') ->
  exists node,
    ct_nodes tree !! cw_node w = Some node /\
    (cw_drop_tombs w' = true <->
       cw_action w <> CN_ACTION_SPILL /\
       Some (cw_mark w) = list_last_entry (tn_kvset_list node)).
Proof.
  unfold cn_tree_prepare_compaction. intros Hp.
  destruct (ct_nodes tree !! cw_node w) as [node|]; [|done]. simpl in Hp.
  exists node. split; [done|].
  assert (cw_drop_tombs w' =
          negb (bool_decide (cw_action w = CN_ACTION_SPILL)) &&
          bool_decide (Some (cw_mark w) = list_last_entry (tn_kvset_list node)))
    as ->.
  { repeat (case_match; simplify_eq/=; try done).
    all: destruct (prepare_iterators _ _ _ _ _) as [[[] ins]|];
      simplify_eq/=; try done.
    all: repeat (case_match; simplify_eq/=; try done). }
  rewrite andb_true_iff, negb_true_iff, bool_decide_eq_false,
          bool_decide_eq_true.
  done.
Qed.

(** ** Point get *)

Section lookup_facts.
Context {E : cn_iface}.

Lemma first_stop_none_walked stops l :
  first_stop stops l = None -> walked stops l = l.
Proof.
  induction l as [|k l IH]; simpl; [done|].
  destruct (stops k); [done|]. intros H. by rewrite IH.
Qed.

(** The walk of one node's list by a point get. *)
Lemma lookup_node_get kt seq n l : forall res seen nk tr,
  cn_tree_lookup_node QUERY_GET kt seq n l res seen nk tr =
  match first_stop (get_stops kt seq) l with
  | Some k =>
      inl ((kvset_lookup k kt seq).1, (kvset_lookup k kt seq).2,
           nk + Z.of_nat (length (walked (get_stops kt seq) l)),
           tr ++ (pair n <$> walked (get_stops kt seq) l))
  | None =>
      inr (match l with [] => res | _ => NOT_FOUND end, seen,
           nk + Z.of_nat (length l), tr ++ (pair n <$> l))
  end.
Proof.
  induction l as [|k l IH]; intros res seen nk tr.
  - simpl. by rewrite Z.add_0_r, app_nil_r.
  - cbn [cn_tree_lookup_node first_stop walked].
    assert (get_stops kt seq k =
            merr_is_err (kvset_lookup k kt seq).1 ||
            negb (bool_decide ((kvset_lookup k kt seq).2 = NOT_FOUND)))
      as -> by done.
    destruct (kvset_lookup k kt seq) as [err r] eqn:Hk. simpl.
    destruct (merr_is_err err || negb (bool_decide (r = NOT_FOUND))) eqn:Hs.
    + rewrite ?Hk. simpl. done.
    + rewrite IH. apply orb_false_iff in Hs as [_ Hr].
      apply negb_false_iff, bool_decide_eq_true in Hr. subst r.
      destruct (first_stop (get_stops kt seq) l) eqn:Hfs.
      * cbn [length fmap list_fmap]. rewrite <- app_assoc. simpl.
        do 3 f_equal. lia.
      * cbn [length fmap list_fmap]. rewrite <- app_assoc. simpl.
        destruct l; do 3 f_equal; lia.
Qed.

(** Were the route map to name the root, a get that misses at the root
    would walk the root again and again: no amount of fuel suffices. *)
Lemma lookup_route_to_root_diverges fuel : forall t kt seq root res seen d nk ns tr,
  ct_nodes t !! ct_root = Some root ->
  route_map_lookup kt = Some ct_root ->
  first_stop (get_stops kt seq) (tn_kvset_list root) = None ->
  cn_tree_lookup_descend fuel t QUERY_GET kt seq (Some ct_root)
    res seen d nk ns tr = None.
Proof.
  induction fuel as [|f IH]; intros t kt seq root res seen d nk ns tr
    Hroot Hroute Hmiss; [done|].
  cbn [cn_tree_lookup_descend]. rewrite Hroot. simpl.
  rewrite lookup_node_get, Hmiss. simpl. rewrite Hroute.
  by eapply IH.
Qed.

End lookup_facts.

(** C5.  A point get walks the root's kvset list from the head, and
    returns at the first kvset that reports a value, a tombstone or an
    error.  On a miss at the root it asks the route map once and walks the
    list of the leaf it names the same way.  It visits at most two nodes.
    The route map names leaves of the tree only. *)
Theorem point_get_descent {E : cn_iface} (fuel : nat) (t : cn_tree)
    (kt : key) (seq : Z) (root : cn_tree_node) :
  ct_nodes t !! ct_root = Some root ->
  route_map_lookup kt <> Some ct_root ->
  (forall n, route_map_lookup kt = Some n -> is_Some (ct_nodes t !! n)) ->
  (2 <= fuel)%nat ->
  exists out,
    cn_tree_lookup fuel t QUERY_GET kt seq = Some out /\
    (lo_err out, lo_res out, lo_nodes out, lo_trace out) =
      get_descent_as_described t kt seq root /\
    (length (lo_nodes out) <= 2)%nat.
Proof.
  intros Hroot Hnr Hvalid Hfuel.
  destruct fuel as [|[|fuel]]; [lia..|].
  assert (cn_tree_lookup (S (S fuel)) t QUERY_GET kt seq =
          cn_tree_lookup_descend (S (S fuel)) t QUERY_GET kt seq (Some ct_root)
            NOT_FOUND 0 0 0 [] []) as ->
    by (unfold cn_tree_lookup; by destruct kvset_wbti_alloc).
  unfold get_descent_as_described.
  cbn [cn_tree_lookup_descend]. rewrite Hroot. simpl.
  rewrite lookup_node_get.
  destruct (first_stop (get_stops kt seq) (tn_kvset_list root)) as [k|] eqn:Hfs.
  { eexists. split; [reflexivity|]. simpl.
    split; [by destruct (kvset_lookup k kt seq)|lia]. }
  simpl. rewrite (first_stop_none_walked _ _ Hfs).
  destruct (route_map_lookup kt) as [n|] eqn:Hroute.
  2:{ eexists. split; [reflexivity|]. simpl. split; [|lia].
      by destruct (tn_kvset_list root). }
  destruct (Hvalid n eq_refl) as [leaf Hleaf]. rewrite Hleaf. simpl.
  rewrite lookup_node_get.
  destruct (first_stop (get_stops kt seq) (tn_kvset_list leaf)) as [k|] eqn:Hfl.
  { eexists. split; [reflexivity|]. simpl.
    split; [by destruct (kvset_lookup k kt seq)|lia]. }
  assert (bool_decide (n = ct_root) = false) as ->
    by (apply bool_decide_eq_false; congruence).
  simpl. eexists. split; [reflexivity|]. simpl.
  rewrite (first_stop_none_walked _ _ Hfl). split; [|lia].
  by destruct (tn_kvset_list leaf), (tn_kvset_list root).
Qed.

(** ** Capped-tree trimmer *)

Lemma capped_stop_expired pt_len pt_key horizon k :
  capped_stop pt_len pt_key horizon k =
  negb (capped_expired pt_len pt_key horizon k).
Proof.
  unfold capped_stop, capped_expired.
  destruct (kvset_get_max_key k) as [mk|]; [|done].
  rewrite (Z.leb_antisym (kvset_get_seqno_max k) horizon).
  rewrite (Z.ltb_antisym 0 (keycmp_prefix pt_key mk)).
  by destruct (pt_len =? 0), (kvset_get_seqno_max k <? horizon),
              (0 <=? keycmp_prefix pt_key mk).
Qed.

(** The walk from position [le] down to position 1: it counts the [c]
    kvsets at positions [le + 1 - c .. le], all of them expired, and stops
    either at position 0 or at a kvset that is not expired. *)
Lemma capped_scan_spec pt_len pt_key horizon l le : forall cnt mark,
  (le < length l)%nat ->
  exists c,
    capped_scan pt_len pt_key horizon l le cnt mark =
      Some ((cnt + c)%nat, if decide (c = 0%nat) then mark else Some (le + 1 - c)%nat) /\
    (c <= le)%nat /\
    (forall j, (le + 1 - c <= j <= le)%nat ->
       exists k, l !! j = Some k /\ capped_expired pt_len pt_key horizon k = true) /\
    ((c < le)%nat ->
       exists k, l !! (le - c)%nat = Some k /\
                 capped_expired pt_len pt_key horizon k = false).
Proof.
  induction le as [|p IH]; intros cnt mark Hle.
  - exists 0%nat. simpl. rewrite Nat.add_0_r.
    split; [done|]. split; [lia|]. split; intros; lia.
  - destruct (lookup_lt_is_Some_2 l (S p) Hle) as [k Hk].
    cbn [capped_scan]. rewrite Hk. simpl.
    rewrite capped_stop_expired.
    destruct (capped_expired pt_len pt_key horizon k) eqn:Hexp; simpl.
    + destruct (IH (S cnt) (Some (S p))) as (c & Hscan & Hc & Hall & Hstop);
        [lia|].
      exists (S c). rewrite Hscan.
      split.
      { f_equal. f_equal; [lia|].
        destruct (decide (c = 0%nat)) as [->|]; simpl; f_equal; lia. }
      split; [lia|]. split.
      * intros j Hj. destruct (decide (j = S p)) as [->|]; [eauto|].
        apply Hall. lia.
      * intros Hlt. replace (S p - S c)%nat with (p - c)%nat by lia.
        apply Hstop. lia.
    + exists 0%nat. rewrite Nat.add_0_r. simpl.
      split; [done|]. split; [lia|]. split; [intros; lia|].
      intros _. eauto.
Qed.

Lemma trim_horizon_min pt_seq seqno_horizon :
  (if pt_seq <? seqno_horizon then pt_seq else seqno_horizon) =
  Z.min seqno_horizon pt_seq.
Proof. destruct (Z.ltb_spec pt_seq seqno_horizon); lia. Qed.

(** C1 (as amended).  With horizon the minimum of the sequence horizon and
    the remembered ptomb seqno, the trimmer walks the root's kvsets from
    the oldest towards the newest and never takes the newest.  It takes a
    kvset exactly when the kvset reports no max key, or a ptomb is
    remembered, the kvset's max seqno is below the horizon and the ptomb
    does not precede the kvset's max key.  It stops at the first kvset
    that fails this test and retires exactly the contiguous run of the
    [cnt] oldest kvsets walked before that point. *)
Theorem capped_compact_retires_expired_run {E : cn_iface} (t : cn_tree)
    (seqno_horizon : Z) (root : cn_tree_node) :
  ct_nodes t !! ct_root = Some root ->
  (2 <= length (tn_kvset_list root))%nat ->
  tn_size_max root <> 0 ->
  let l := tn_kvset_list root in
  let expired :=
    capped_expired (ct_last_ptlen t)
      (take (Z.to_nat (ct_last_ptlen t)) (ct_last_ptomb t))
      (Z.min seqno_horizon (ct_last_ptseq t)) in
  exists t' root' cnt,
    cn_tree_capped_compact t seqno_horizon MERR_OK =
      Some (t', retired_run l cnt) /\
    (cnt < length l)%nat /\
    Forall (λ k, expired k = true) (retired_run l cnt) /\
    ((cnt + 1 < length l)%nat ->
       exists k, l !! (length l - 1 - cnt)%nat = Some k /\ expired k = false) /\
    ct_nodes t' !! ct_root = Some root' /\
    tn_kvset_list root' = take (length l - cnt) l.
Proof.
  intros Hroot Hlen Hsz l expired.
  assert (2 <= length l)%nat as Hll by exact Hlen.
  assert (ct_root < length (ct_nodes t))%nat as Hnlen
    by (by eapply lookup_lt_Some).
  unfold cn_tree_capped_compact. rewrite Hroot. simpl.
  destruct (decide (length (tn_kvset_list root) <= 1)%nat); [lia|].
  rewrite trim_horizon_min.
  destruct (capped_scan_spec (ct_last_ptlen t)
              (take (Z.to_nat (ct_last_ptlen t)) (ct_last_ptomb t))
              (Z.min seqno_horizon (ct_last_ptseq t)) l
              (length l - 1) 0 None) as (c & Hscan & Hc & Hall & Hstop);
    [subst l; lia|].
  fold l. rewrite Hscan. simpl.
  assert (Forall (λ k, expired k = true) (retired_run l c)) as Hrun.
  { apply Forall_lookup. intros j k Hj. unfold retired_run in Hj.
    rewrite lookup_drop in Hj.
    destruct (Hall (length l - c + j)%nat) as (k' & Hk' & Hexp).
    { apply lookup_lt_Some in Hj. lia. }
    by simplify_eq. }
  assert ((c + 1 < length l)%nat ->
          exists k, l !! (length l - 1 - c)%nat = Some k /\ expired k = false)
    as Hnext by (intros; apply Hstop; lia).
  destruct (decide (c = 0%nat)) as [->|Hc0].
  { exists t, root, 0%nat. unfold retired_run.
    rewrite Nat.sub_0_r, drop_all, firstn_all. repeat split; try done; lia. }
  replace (length l - 1 + 1 - c)%nat with (length l - c)%nat by lia.
  set (root1 := tn_set_kvset_list root (take (length l - c) l)).
  set (t1 := ct_set_nodes t (<[ct_root := root1]> (ct_nodes t))).
  assert (ct_nodes t1 !! ct_root = Some root1) as Hroot1
    by (by apply list_lookup_insert_eq).
  unfold cn_tree_samp_update_compact. rewrite Hroot1. simpl.
  destruct (recompute_succeeds root1) as (tn3 & Hrec & Hl3); [done|].
  rewrite Hrec. simpl.
  eexists _, tn3, c. split; [reflexivity|].
  split; [lia|]. split; [done|]. split; [done|]. simpl.
  split; [apply list_lookup_insert_eq; by rewrite length_insert|].
  rewrite Hl3. done.
Qed.

(** C1, as first stated, fails on a capped root that remembers the ptomb
    "b" (seqno 100) and whose older kvset ends at key "a" with max seqno 5,
    at sequence horizon 50: the ptomb does not precede "a", so the
    statement keeps the kvset, but the trimmer retires it. *)
Lemma capped_retires_kvset_below_ptomb :
  snd <$> cn_tree_capped_compact (E := Sample.iface) Sample.capped_tree 50 MERR_OK
    = Some [Sample.k_old] /\
  capped_expired_as_described 1 [98] 50 Sample.k_old = false.
Proof. split; vm_compute; reflexivity. Qed.

(** With no ptomb remembered the trimmer retires nothing, whatever the
    seqnos are. *)
Example capped_no_ptomb_retires_nothing :
  snd <$> cn_tree_capped_compact (E := Sample.iface)
            (Sample.tree_pt [Sample.k_new; Sample.k_old] [] 100 []) 50 MERR_OK
    = Some [].
Proof. vm_compute; reflexivity. Qed.

(** A ptomb that precedes the max key of the oldest kvset ("a" before
    "b") retires nothing either. *)
Example capped_ptomb_before_max_key_retires_nothing :
  snd <$> cn_tree_capped_compact (E := Sample.iface)
            (Sample.tree_pt [Sample.k_new; Sample.kv 1 0 0 5 [98]] [] 100 [97])
            50 MERR_OK
    = Some [].
Proof. vm_compute; reflexivity. Qed.

(** ** The statements at sample inputs *)

Lemma capped_compact_retires_expired_run_sample :
  ct_nodes Sample.capped_tree !! ct_root = Some Sample.root3 /\
  (2 <= length (tn_kvset_list Sample.root3))%nat /\
  tn_size_max Sample.root3 <> 0 /\
  exists t' root' cnt,
    cn_tree_capped_compact (E := Sample.iface) Sample.capped_tree 50 MERR_OK =
      Some (t', retired_run (tn_kvset_list Sample.root3) cnt) /\
    (cnt < length (tn_kvset_list Sample.root3))%nat /\
    Forall (λ k, capped_expired (ct_last_ptlen Sample.capped_tree)
                   (take (Z.to_nat (ct_last_ptlen Sample.capped_tree))
                      (ct_last_ptomb Sample.capped_tree))
                   (Z.min 50 (ct_last_ptseq Sample.capped_tree)) k = true)
           (retired_run (tn_kvset_list Sample.root3) cnt) /\
    ((cnt + 1 < length (tn_kvset_list Sample.root3))%nat ->
       exists k,
         tn_kvset_list Sample.root3
           !! (length (tn_kvset_list Sample.root3) - 1 - cnt)%nat = Some k /\
         capped_expired (ct_last_ptlen Sample.capped_tree)
           (take (Z.to_nat (ct_last_ptlen Sample.capped_tree))
              (ct_last_ptomb Sample.capped_tree))
           (Z.min 50 (ct_last_ptseq Sample.capped_tree)) k = false) /\
    ct_nodes t' !! ct_root = Some root' /\
    tn_kvset_list root' =
      take (length (tn_kvset_list Sample.root3) - cnt) (tn_kvset_list Sample.root3).
Proof.
  split; [reflexivity|]. split; [simpl; lia|]. split; [vm_compute; discriminate|].
  apply (@capped_compact_retires_expired_run Sample.iface Sample.capped_tree
           50 Sample.root3);
    [reflexivity | simpl; lia | vm_compute; discriminate].
Defined.

Lemma get_completed_spill_head_sample :
  ct_nodes (st_tree Sample.spill_state) !! 0%nat = Some Sample.wedged_root /\
  tn_rspills Sample.wedged_root = [4%nat] /\
  st_works Sample.spill_state !! 4%nat = Some Sample.spill_work /\
  exists st' r,
    get_completed_spill Sample.spill_state 0 = Some (st', r) /\
    (r = None \/ r = Some 4%nat) /\
    (r = Some 4%nat <->
       cw_rspill_done Sample.spill_work <> 0 /\
       cw_rspill_commit_in_progress Sample.spill_work = 0) /\
    (r = None -> st' = Sample.spill_state) /\
    (r = Some 4%nat ->
       exists w',
         st_works st' !! 4%nat = Some w' /\
         cw_rspill_commit_in_progress w' = 1 /\
         (tn_rspills_wedged Sample.wedged_root = true ->
          cw_err Sample.spill_work = MERR_OK ->
            cw_err w' = merr ESHUTDOWN /\ cw_canceled w' = true) /\
         (tn_rspills_wedged Sample.wedged_root = false \/
          cw_err Sample.spill_work <> MERR_OK ->
            cw_err w' = cw_err Sample.spill_work /\
            cw_canceled w' = cw_canceled Sample.spill_work) /\
         st_tree st' = st_tree Sample.spill_state /\
         (forall h', h' <> 4%nat ->
            st_works st' !! h' = st_works Sample.spill_state !! h')).
Proof.
  split; [reflexivity|]. split; [reflexivity|]. split; [vm_compute; reflexivity|].
  apply (get_completed_spill_head Sample.spill_state 0 Sample.wedged_root
           4 [] Sample.spill_work);
    [reflexivity | reflexivity | vm_compute; reflexivity].
Defined.

Lemma commit_compc_kvcompact_sample :
  (cw_action Sample.tail_work = CN_ACTION_COMPACT_K \/
   cw_action Sample.tail_work = CN_ACTION_COMPACT_KV) /\
  ct_nodes Sample.tree3 !! cw_node Sample.tail_work
    = Some (Sample.node false 1 Sample.leaf3) /\
  cw_outv Sample.tail_work !! 0%nat = Some (mk_mblocks 77 1 1 0) /\
  exists km,
    cn_comp_commit_meta Sample.tree3 Sample.tail_work (0, 0) 0 = Some km /\
    km_compc km =
      match tn_kvset_list (Sample.node false 1 Sample.leaf3)
              !! S (cw_mark Sample.tail_work) with
      | Some older =>
          if kvset_get_compc older <=? cw_compc Sample.tail_work
          then cw_compc Sample.tail_work
          else u32 (cw_compc Sample.tail_work + 1)
      | None => u32 (cw_compc Sample.tail_work + 1)
      end.
Proof.
  split; [by right|]. split; [reflexivity|]. split; [reflexivity|].
  apply (commit_compc_kvcompact Sample.tree3 Sample.tail_work (0, 0) 0
           (Sample.node false 1 Sample.leaf3) (mk_mblocks 77 1 1 0));
    [by right | reflexivity | reflexivity].
Defined.

Lemma samp_update_keeps_tree_total_sample :
  tree_samp_ok Sample.tree3 /\
  samp_update (E := Sample.iface) Sample.tree3 Sample.tree3_sampled /\
  tree_samp_ok Sample.tree3_sampled.
Proof.
  split; [vm_compute; reflexivity|].
  split; [apply (@samp_update_compact Sample.iface _ _ 1%nat);
          vm_compute; reflexivity|].
  apply (@samp_update_keeps_tree_total Sample.iface Sample.tree3
           Sample.tree3_sampled);
    [vm_compute; reflexivity|].
  apply (@samp_update_compact Sample.iface _ _ 1%nat); vm_compute; reflexivity.
Defined.

Lemma point_get_descent_sample :
  ct_nodes Sample.tree3 !! ct_root = Some Sample.root3 /\
  route_map_lookup (cn_iface := Sample.iface) [110] <> Some ct_root /\
  (forall n, route_map_lookup (cn_iface := Sample.iface) [110] = Some n ->
             is_Some (ct_nodes Sample.tree3 !! n)) /\
  (2 <= 2)%nat /\
  exists out,
    cn_tree_lookup (E := Sample.iface) 2 Sample.tree3 QUERY_GET [110] 9 = Some out /\
    (lo_err out, lo_res out, lo_nodes out, lo_trace out) =
      get_descent_as_described (E := Sample.iface) Sample.tree3 [110] 9 Sample.root3 /\
    (length (lo_nodes out) <= 2)%nat.
Proof.
  assert (forall n, route_map_lookup (cn_iface := Sample.iface) [110] = Some n ->
                    is_Some (ct_nodes Sample.tree3 !! n)) as Hvalid.
  { intros n Hn. injection Hn as <-. eexists. reflexivity. }
  split; [reflexivity|]. split; [discriminate|]. split; [exact Hvalid|].
  split; [lia|].
  apply (@point_get_descent Sample.iface 2 Sample.tree3 [110] 9 Sample.root3);
    [reflexivity | discriminate | exact Hvalid | lia].
Defined.

Lemma prepare_drop_tombs_sample :
  cn_tree_prepare_compaction Sample.prepare_all_ok Sample.tree3 Sample.tail_work
    = Some (MERR_OK, Sample.tail_work_prepared) /\
  exists node,
    ct_nodes Sample.tree3 !! cw_node Sample.tail_work = Some node /\
    (cw_drop_tombs Sample.tail_work_prepared = true <->
       cw_action Sample.tail_work <> CN_ACTION_SPILL /\
       Some (cw_mark Sample.tail_work) = list_last_entry (tn_kvset_list node)).
Proof.
  split; [vm_compute; reflexivity|].
  apply (prepare_drop_tombs Sample.prepare_all_ok Sample.tree3 Sample.tail_work
           Sample.tail_work_prepared).
  vm_compute; reflexivity.
Defined.

Lemma ingest_update_effects_sample :
  ct_nodes Sample.tree3_init !! ct_root = Some Sample.root3_init /\
  cn_node_isroot Sample.root3_init = true /\
  tn_size_max Sample.root3_init <> 0 /\
  tn_samp Sample.root3_init
    = tn_samp_of Sample.root3_init (tn_ns Sample.root3_init) /\
  stats_below (2 ^ 60) (ns_kst (tn_ns Sample.root3_init)) /\
  stats_below (2 ^ 60) (kvset_statsp Sample.k_ingest) /\
  samp_below (2 ^ 62) (ct_samp Sample.tree3_init) /\
  exists t' root',
    cn_tree_ingest_update (E := Sample.iface) Sample.tree3_init Sample.k_ingest
        [98] 1 100 =
      Some (t', (r_alen (ct_samp t') - r_alen (ct_samp Sample.tree3_init),
                 r_wlen (ct_samp t') - r_wlen (ct_samp Sample.tree3_init))) /\
    ct_nodes t' !! ct_root = Some root' /\
    tn_kvset_list root' = Sample.k_ingest :: tn_kvset_list Sample.root3_init /\
    tn_cgen root' = u32 (tn_cgen Sample.root3_init + 1) /\
    (forall n, n <> ct_root ->
       ct_nodes t' !! n = ct_nodes Sample.tree3_init !! n) /\
    i_alen (ct_samp Sample.tree3_init) <= i_alen (ct_samp t') /\
    r_wlen (ct_samp Sample.tree3_init) <= r_wlen (ct_samp t') /\
    l_alen (ct_samp t') = l_alen (ct_samp Sample.tree3_init) /\
    l_good (ct_samp t') = l_good (ct_samp Sample.tree3_init).
Proof.
  assert (stats_below (2 ^ 60) (ns_kst (tn_ns Sample.root3_init))) as Hns
    by (repeat first [apply Forall_nil_2
                     | apply Forall_cons_2; [unfold in_range; vm_compute; done|]]).
  assert (stats_below (2 ^ 60) (kvset_statsp Sample.k_ingest)) as Hk
    by (repeat first [apply Forall_nil_2
                     | apply Forall_cons_2; [unfold in_range; vm_compute; done|]]).
  assert (samp_below (2 ^ 62) (ct_samp Sample.tree3_init)) as Hct
    by (repeat first [apply Forall_nil_2
                     | apply Forall_cons_2; [unfold in_range; vm_compute; done|]]).
  split; [vm_compute; reflexivity|]. split; [reflexivity|].
  split; [vm_compute; discriminate|]. split; [vm_compute; reflexivity|].
  split; [exact Hns|]. split; [exact Hk|]. split; [exact Hct|].
  apply (@ingest_update_effects Sample.iface Sample.tree3_init Sample.k_ingest
           [98] 1 100 Sample.root3_init);
    [vm_compute; reflexivity | reflexivity | vm_compute; discriminate
    | vm_compute; reflexivity | exact Hns | exact Hk | exact Hct].
Defined.

Lemma update_compact_twice_sample :
  cn_tree_samp_update_compact (E := Sample.iface) Sample.tree3 1
    = Some Sample.tree3_sampled /\
  cn_tree_samp_update_compact (E := Sample.iface) Sample.tree3_sampled 1
    = Some Sample.tree3_sampled.
Proof.
  split; [vm_compute; reflexivity|].
  apply (@update_compact_twice Sample.iface Sample.tree3 Sample.tree3_sampled 1).
  vm_compute; reflexivity.
Defined.

Lemma finish_clen_pcap_bounds_sample :
  tn_size_max Sample.finished_leaf <> 0 /\
  exists tn',
    tn_samp_update_finish (E := Sample.iface) Sample.finished_leaf = Some tn' /\
    ns_kclen (tn_ns tn') <= kst_kalen (ns_kst (tn_ns tn')) /\
    ns_vclen (tn_ns tn') <= kst_valen (ns_kst (tn_ns tn')) /\
    ns_pcap (tn_ns tn') <= 65535.
Proof.
  split; [vm_compute; discriminate|].
  apply (@finish_clen_pcap_bounds Sample.iface Sample.finished_leaf).
  vm_compute; discriminate.
Defined.

Lemma release_failed_job_unmarks_inputs_sample :
  st_works Sample.release_state !! 7%nat = Some Sample.failed_work /\
  ct_nodes (st_tree Sample.release_state) !! cw_node Sample.failed_work
    = Some Sample.busy_leaf /\
  cw_err Sample.failed_work <> MERR_OK /\
  (cw_mark Sample.failed_work < length (tn_kvset_list Sample.busy_leaf))%nat /\
  (cw_kvset_cnt Sample.failed_work <= cw_mark Sample.failed_work + 1)%nat /\
  exists st' tn',
    cn_comp_release Sample.release_state 7 = Some st' /\
    ct_nodes (st_tree st') !! cw_node Sample.failed_work = Some tn' /\
    length (tn_kvset_list tn') = length (tn_kvset_list Sample.busy_leaf) /\
    (forall j,
       (cw_mark Sample.failed_work + 1 - cw_kvset_cnt Sample.failed_work <= j
        <= cw_mark Sample.failed_work)%nat ->
       exists k, tn_kvset_list Sample.busy_leaf !! j = Some k /\
                 tn_kvset_list tn' !! j = Some (kvset_set_workid k 0) /\
                 kvset_get_workid (kvset_set_workid k 0) = 0) /\
    (forall j,
       ~ (cw_mark Sample.failed_work + 1 - cw_kvset_cnt Sample.failed_work <= j
          <= cw_mark Sample.failed_work)%nat ->
       tn_kvset_list tn' !! j = tn_kvset_list Sample.busy_leaf !! j) /\
    (cw_have_token Sample.failed_work = true ->
     tn_compacting Sample.busy_leaf = 1 -> tn_compacting tn' = 0) /\
    (cw_have_token Sample.failed_work = false ->
     tn_compacting tn' = tn_compacting Sample.busy_leaf).
Proof.
  split; [vm_compute; reflexivity|]. split; [reflexivity|].
  split; [discriminate|]. split; [simpl; lia|]. split; [simpl; lia|].
  apply (release_failed_job_unmarks_inputs Sample.release_state 7
           Sample.failed_work Sample.busy_leaf);
    [vm_compute; reflexivity | reflexivity | discriminate
    | simpl; lia | simpl; lia].
Defined.

(** * Further properties of the tree code *)

(** ** Finding a node and inserting a kvset at start up *)

Lemma find_node_from_spec nodes : forall pos nodeid,
  match find_node_from nodes pos nodeid with
  | Some n =>
      (pos <= n)%nat /\
      exists tn, nodes !! (n - pos)%nat = Some tn /\ tn_nodeid tn = nodeid /\
        forall m tm, (m < n - pos)%nat -> nodes !! m = Some tm ->
                     tn_nodeid tm <> nodeid
  | None => Forall (λ tn, tn_nodeid tn <> nodeid) nodes
  end.
Proof.
  induction nodes as [|tn rest IH]; intros pos nodeid; simpl; [done|].
  destruct (Z.eqb_spec (tn_nodeid tn) nodeid) as [Heq|Hne].
  - split; [lia|]. exists tn. rewrite Nat.sub_diag. split; [done|].
    split; [done|]. intros; lia.
  - specialize (IH (S pos) nodeid).
    destruct (find_node_from rest (S pos) nodeid) as [n|].
    + destruct IH as (Hle & tn' & Hlk & Hid & Hfirst).
      split; [lia|]. exists tn'.
      replace (n - pos)%nat with (S (n - S pos)) by lia.
      split; [done|]. split; [done|].
      intros [|m] tm Hm Hlkm; simpl in Hlkm; [by simplify_eq|].
      eapply Hfirst; [|done]. lia.
    + by constructor.
Qed.

(** X1.  [cn_tree_find_node] returns the first node of the tree's node
    list that carries the id, and the null pointer exactly when no node
    carries it. *)
Theorem cn_tree_find_node_first_match (tree : cn_tree) (nodeid : Z) :
  match cn_tree_find_node tree nodeid with
  | Some n =>
      exists tn, ct_nodes tree !! n = Some tn /\ tn_nodeid tn = nodeid /\
        forall m tm, (m < n)%nat -> ct_nodes tree !! m = Some tm ->
                     tn_nodeid tm <> nodeid
  | None => Forall (λ tn, tn_nodeid tn <> nodeid) (ct_nodes tree)
  end.
Proof.
  unfold cn_tree_find_node.
  pose proof (find_node_from_spec (ct_nodes tree) 0 nodeid) as H.
  destruct (find_node_from (ct_nodes tree) 0 nodeid) as [n|]; [|done].
  destruct H as (_ & tn & Hlk & Hid & Hfirst).
  rewrite Nat.sub_0_r in *. eauto.
Qed.

Lemma kvset_list_insert_perm l k : kvset_list_insert l k ≡ₚ k :: l.
Proof.
  induction l as [|e l IH]; simpl; [done|].
  destruct (kvset_get_dgen e <? kvset_get_dgen k); [done|].
  rewrite IH. apply Permutation_swap.
Qed.

Lemma kvset_list_insert_sorted l k :
  dgen_sorted l ->
  Forall (λ e, kvset_get_dgen e <> kvset_get_dgen k) l ->
  dgen_sorted (kvset_list_insert l k).
Proof.
  induction l as [|e l IH]; simpl; intros Hs Hne; [by split|].
  destruct Hs as [Hall Hs]. apply Forall_cons in Hne as [Hne1 Hne].
  destruct (Z.ltb_spec (kvset_get_dgen e) (kvset_get_dgen k)) as [Hlt|Hge].
  - simpl. split; [|done]. constructor; [done|].
    eapply Forall_impl; [exact Hall|]. simpl. intros; lia.
  - simpl. split; [|by apply IH].
    rewrite kvset_list_insert_perm. constructor; [lia|done].
Qed.

(** X2.  [cn_node_insert_kvset] always succeeds.  On a list that is
    ordered by strictly decreasing dgen and holds no kvset of the new
    kvset's dgen, the list stays so ordered, and it holds the new kvset
    and the old ones, nothing else. *)
Theorem cn_node_insert_kvset_keeps_order (node : cn_tree_node) (k : kvset) :
  dgen_sorted (tn_kvset_list node) ->
  Forall (λ e, kvset_get_dgen e <> kvset_get_dgen k) (tn_kvset_list node) ->
  (cn_node_insert_kvset node k).2 = MERR_OK /\
  dgen_sorted (tn_kvset_list (cn_node_insert_kvset node k).1) /\
  tn_kvset_list (cn_node_insert_kvset node k).1 ≡ₚ k :: tn_kvset_list node.
Proof.
  intros Hs Hne. simpl. split; [done|].
  split; [by apply kvset_list_insert_sorted|apply kvset_list_insert_perm].
Qed.

(** X3.  [cn_tree_insert_kvset] fails with EBUG, leaving the tree as it
    is, exactly when no node carries the id; otherwise it succeeds and
    inserts the kvset into the first node that carries the id, leaving the
    other nodes and the tree totals alone. *)
Theorem cn_tree_insert_kvset_cases (tree : cn_tree) (k : kvset) (nodeid : Z) :
  (cn_tree_insert_kvset tree k nodeid = (tree, merr EBUG) /\
   Forall (λ tn, tn_nodeid tn <> nodeid) (ct_nodes tree)) \/
  (exists n node,
     ct_nodes tree !! n = Some node /\ tn_nodeid node = nodeid /\
     (forall m tm, (m < n)%nat -> ct_nodes tree !! m = Some tm ->
                   tn_nodeid tm <> nodeid) /\
     (cn_tree_insert_kvset tree k nodeid).2 = MERR_OK /\
     ct_nodes (cn_tree_insert_kvset tree k nodeid).1 =
       <[n := tn_set_kvset_list node (kvset_list_insert (tn_kvset_list node) k)]>
         (ct_nodes tree) /\
     ct_samp (cn_tree_insert_kvset tree k nodeid).1 = ct_samp tree).
Proof.
  pose proof (find_node_from_spec (ct_nodes tree) 0 nodeid) as H.
  unfold cn_tree_insert_kvset, cn_tree_find_node.
  destruct (find_node_from (ct_nodes tree) 0 nodeid) as [n|]; [right|by left].
  destruct H as (_ & tn & Hlk & Hid & Hfirst).
  rewrite Nat.sub_0_r in *. rewrite Hlk. simpl.
  exists n, tn. done.
Qed.

(** ** The compaction token *)

(** X4.  The compaction token excludes: whatever the state of a node,
    after one attempt to take its token a second attempt fails and changes
    nothing; and giving back a token that was taken from a free node
    restores the node. *)
Theorem comp_token_excludes (tn : cn_tree_node) :
  (cn_node_comp_token_get (cn_node_comp_token_get tn).1).2 = false /\
  (cn_node_comp_token_get (cn_node_comp_token_get tn).1).1 =
    (cn_node_comp_token_get tn).1 /\
  ((cn_node_comp_token_get tn).2 = true ->
     tn_compacting tn = 0 /\
     tn_compacting (cn_node_comp_token_get tn).1 = 1 /\
     cn_node_comp_token_put (cn_node_comp_token_get tn).1 = tn).
Proof.
  unfold cn_node_comp_token_get, cn_node_comp_token_put.
  destruct (Z.eqb_spec (tn_compacting tn) 0) as [H0|H0]; simpl.
  - split; [done|]. split; [done|]. intros _. split; [done|]. split; [done|].
    destruct tn; simpl in *; by subst.
  - rewrite (proj2 (Z.eqb_neq _ _) H0). done.
Qed.

(** ** Scatter *)

Lemma scatter_walk_range vgroups l : forall s,
  (0 <= s < 2 ^ 32 /\ s <> 1) ->
  0 <= scatter_walk vgroups l s < 2 ^ 32 /\ scatter_walk vgroups l s <> 1.
Proof.
  induction l as [|k l IH]; intros s Hs; simpl; [done|].
  apply IH.
  destruct (Z.ltb_spec 1 (u32 (s + u32 (vgroups k)))) as [Hlt|Hge]; [|done].
  split; [|lia]. unfold u32. apply Z.mod_pos_bound. lia.
Qed.

(** X5.  The scatter of a node is a 32-bit value and is never 1: the walk
    only ever adopts a sum that is greater than 1. *)
Theorem scatter_is_never_one (vgroups : kvset -> Z) (tn : cn_tree_node) :
  0 <= cn_tree_node_scatter vgroups tn < 2 ^ 32 /\
  cn_tree_node_scatter vgroups tn <> 1.
Proof. unfold cn_tree_node_scatter. apply scatter_walk_range. lia. Qed.

Lemma scatter_walk_app vgroups l1 l2 s :
  scatter_walk vgroups (l1 ++ l2) s =
  scatter_walk vgroups l2 (scatter_walk vgroups l1 s).
Proof. revert s. induction l1 as [|k l1 IH]; intros s; simpl; [done|apply IH]. Qed.

Lemma scatter_walk_no_scatter vgroups l :
  Forall (λ k, u32 (vgroups k) <= 1) l -> scatter_walk vgroups l 0 = 0.
Proof.
  induction 1 as [|k l Hk _ IH]; simpl; [done|].
  assert (u32 (0 + u32 (vgroups k)) = u32 (vgroups k)) as ->.
  { unfold u32. rewrite Z.add_0_l. apply Z.mod_mod. lia. }
  destruct (Z.ltb_spec 1 (u32 (vgroups k))); [lia|done].
Qed.

(** X6.  The oldest kvsets of a node do not count towards its scatter as
    long as each has at most one vgroup: the scatter of a list that ends in
    such kvsets is the scatter of the list without them. *)
Theorem scatter_excludes_oldest_without_scatter (vgroups : kvset -> Z)
    (tn : cn_tree_node) (l olds : list kvset) :
  Forall (λ k, u32 (vgroups k) <= 1) olds ->
  cn_tree_node_scatter vgroups (tn_set_kvset_list tn (l ++ olds)) =
  cn_tree_node_scatter vgroups (tn_set_kvset_list tn l).
Proof.
  intros Holds. unfold cn_tree_node_scatter. simpl.
  rewrite reverse_app, scatter_walk_app.
  rewrite scatter_walk_no_scatter; [done|].
  by apply Forall_reverse.
Qed.

(** ** Preorder walk *)

Section walk_facts.
Context {R : Type}.
Variable callback : R -> cn_tree -> option nat -> option kvset -> R * bool.

Lemma run_callbacks_app tree evs1 evs2 rock :
  run_callbacks callback tree (evs1 ++ evs2) rock =
  if (run_callbacks callback tree evs1 rock).2
  then run_callbacks callback tree evs1 rock
  else run_callbacks callback tree evs2 (run_callbacks callback tree evs1 rock).1.
Proof.
  revert rock. induction evs1 as [|[n k] evs1 IH]; intros rock; simpl; [done|].
  destruct (callback rock tree n k) as [rock' []]; [done|]. apply IH.
Qed.

Lemma walk_node_kvsets_run tree node l rock :
  walk_node_kvsets callback tree node l rock =
  run_callbacks callback tree ((λ k, (Some node, Some k)) <$> l) rock.
Proof.
  revert rock. induction l as [|k l IH]; intros rock; simpl; [done|].
  destruct (callback rock tree (Some node) (Some k)) as [rock' []]; [done|].
  apply IH.
Qed.

Lemma walk_nodes_run tree order nodes : forall pos rock,
  walk_nodes callback tree order pos nodes rock =
  run_callbacks callback tree (walk_node_events order pos nodes) rock.
Proof.
  induction nodes as [|tn rest IH]; intros pos rock; [done|].
  cbn [walk_nodes walk_node_events].
  set (l := match order with
            | KVSET_ORDER_NEWEST_FIRST => tn_kvset_list tn
            | KVSET_ORDER_OLDEST_FIRST => reverse (tn_kvset_list tn)
            end).
  rewrite !run_callbacks_app, walk_node_kvsets_run.
  destruct (run_callbacks callback tree ((λ k, (Some pos, Some k)) <$> l) rock)
    as [rock1 []]; simpl; [done|].
  destruct l as [|k l']; simpl; [apply IH|].
  destruct (callback rock1 tree (Some pos) None) as [rock2 []]; simpl; [done|].
  apply IH.
Qed.

(** X7.  A preorder walk makes exactly the callbacks of a full walk, in
    their order - for each node in list order one callback per kvset
    (newest first, or oldest first when asked so), then one that closes the
    node unless the node is empty, and at last one that closes the tree -
    up to and including the first callback that asks to stop; after that
    one it makes no callback, not even the one that closes the tree. *)
Theorem preorder_walk_callbacks (tree : cn_tree) (order : kvset_order)
    (rock : R) :
  cn_tree_preorder_walk callback tree order rock =
  (run_callbacks callback tree (walk_events order tree) rock).1.
Proof.
  unfold cn_tree_preorder_walk, walk_events.
  rewrite run_callbacks_app, walk_nodes_run.
  destruct (run_callbacks callback tree
              (walk_node_events order 0 (ct_nodes tree)) rock)
    as [rock' []]; simpl; [done|].
  by destruct (callback rock' tree None None) as [rock2 []].
Qed.

End walk_facts.

Lemma gather_run tree evs : forall rock,
  run_callbacks gather_kvsets tree evs rock =
  (rock ++ omap snd evs, false).
Proof.
  induction evs as [|[n k] evs IH]; intros rock; simpl.
  - by rewrite app_nil_r.
  - rewrite IH. destruct k; simpl; by rewrite <- ?app_assoc, ?app_nil_r.
Qed.

Lemma omap_snd_node_events (pos : nat) (l : list kvset) :
  omap snd ((λ k, (Some pos, Some k)) <$> l) = l.
Proof. induction l as [|k l IH]; [done|]. cbn. by rewrite IH. Qed.

Lemma walk_node_events_kvsets order nodes : forall pos,
  omap snd (walk_node_events order pos nodes) =
  concat ((λ tn, match order with
                 | KVSET_ORDER_NEWEST_FIRST => tn_kvset_list tn
                 | KVSET_ORDER_OLDEST_FIRST => reverse (tn_kvset_list tn)
                 end) <$> nodes).
Proof.
  induction nodes as [|tn rest IH]; intros pos; [done|].
  cbn [walk_node_events fmap list_fmap concat].
  generalize (match order with
              | KVSET_ORDER_NEWEST_FIRST => tn_kvset_list tn
              | KVSET_ORDER_OLDEST_FIRST => reverse (tn_kvset_list tn)
              end).
  intros l. cbv zeta.
  rewrite !omap_app, IH, omap_snd_node_events.
  f_equal. by destruct l.
Qed.

(** X8.  A walk whose callback never asks to stop is shown every kvset of
    the tree exactly once: node by node in the order of the node list, and
    within a node from the head of its list (newest first) or from its tail
    (oldest first). *)
Theorem preorder_walk_shows_every_kvset (tree : cn_tree) (order : kvset_order) :
  cn_tree_preorder_walk gather_kvsets tree order [] =
  concat ((λ tn, match order with
                 | KVSET_ORDER_NEWEST_FIRST => tn_kvset_list tn
                 | KVSET_ORDER_OLDEST_FIRST => reverse (tn_kvset_list tn)
                 end) <$> ct_nodes tree).
Proof.
  unfold cn_tree_preorder_walk.
  rewrite walk_nodes_run, gather_run. simpl.
  rewrite walk_node_events_kvsets. by rewrite app_nil_r.
Qed.

(** ** Snapshot view *)

Lemma get_ref_count refs k id :
  default 0 (kvset_get_ref refs k !! id) =
  default 0 (refs !! id) + (if ks_id k =? id then 1 else 0).
Proof.
  unfold kvset_get_ref, ref_count.
  destruct (Z.eqb_spec (ks_id k) id) as [->|Hne].
  - by rewrite lookup_insert_eq.
  - rewrite lookup_insert_ne by done. lia.
Qed.

Lemma put_ref_count refs k id :
  default 0 (kvset_put_ref refs k !! id) =
  default 0 (refs !! id) - (if ks_id k =? id then 1 else 0).
Proof.
  unfold kvset_put_ref, ref_count.
  destruct (Z.eqb_spec (ks_id k) id) as [->|Hne].
  - by rewrite lookup_insert_eq.
  - rewrite lookup_insert_ne by done. lia.
Qed.

Lemma view_destroy_count view id : forall refs,
  default 0 (cn_tree_view_destroy view refs !! id) =
  default 0 (refs !! id) - view_refs view id.
Proof.
  unfold cn_tree_view_destroy.
  induction view as [|v view IH]; intros refs; simpl; [lia|].
  rewrite IH. destruct (kv_kvset v) as [k|]; [|lia].
  rewrite put_ref_count. lia.
Qed.

Lemma view_refs_app v1 v2 id :
  view_refs (v1 ++ v2) id = view_refs v1 id + view_refs v2 id.
Proof. induction v1 as [|v v1 IH]; simpl; [done|]. rewrite IH. lia. Qed.

(** Every reference the view loops take is held by an element of the
    view. *)
Lemma view_add_kvsets_spec ve l id : forall view refs,
  let '(err, view', refs') := view_add_kvsets ve l view refs in
  default 0 (refs' !! id) - view_refs view' id =
    default 0 (refs !! id) - view_refs view id /\
  (err = MERR_OK ->
   view' = view ++ ((λ k, mk_view (Some k) (ve_kvset_get_nodeid ve k) []) <$> l)).
Proof.
  induction l as [|k l IH]; intros view refs; simpl.
  - split; [done|]. intros _. by rewrite app_nil_r.
  - destruct (ve_table_append ve (length view)); [|done].
    specialize (IH (view ++ [mk_view (Some k) (ve_kvset_get_nodeid ve k) []])
                   (kvset_get_ref refs k)).
    destruct (view_add_kvsets ve l _ _) as [[err view'] refs'].
    destruct IH as [Hcnt Hview]. split.
    + rewrite Hcnt, get_ref_count, view_refs_app. simpl. lia.
    + intros Herr. rewrite (Hview Herr), <- app_assoc. done.
Qed.

Lemma view_add_nodes_spec ve nodes id : forall pos view refs,
  let '(err, view', refs') := view_add_nodes ve pos nodes view refs in
  default 0 (refs' !! id) - view_refs view' id =
    default 0 (refs !! id) - view_refs view id /\
  (err = MERR_OK -> view' = view ++ view_elements ve pos nodes).
Proof.
  induction nodes as [|node rest IH]; intros pos view refs; simpl.
  - split; [done|]. intros _. by rewrite app_nil_r.
  - destruct (ve_table_append ve (length view)); [|done].
    pose proof (view_add_kvsets_spec ve (tn_kvset_list node) id
                  (view ++ [mk_view None (tn_nodeid node) (ve_route_node_key ve pos)])
                  refs) as Hk.
    destruct (view_add_kvsets ve (tn_kvset_list node) _ refs)
      as [[err view2] refs2].
    destruct Hk as [Hcnt Hview].
    rewrite view_refs_app in Hcnt. simpl in Hcnt.
    destruct err as [|e]; [|split; [lia|done]].
    specialize (IH (S pos) view2 refs2).
    destruct (view_add_nodes ve (S pos) rest view2 refs2)
      as [[err' view'] refs'].
    destruct IH as [Hcnt' Hview']. split; [lia|].
    intros Herr. rewrite (Hview' Herr), (Hview eq_refl), <- !app_assoc. done.
Qed.

(** X9.  Creating a view either fails, hands out nothing and leaves every
    kvset's reference count as it was, or succeeds with the complete view -
    for every node one element that opens it, then one element per kvset of
    the node - and then destroying that view gives every kvset the
    reference count it had before the view was created. *)
Theorem view_create_balances_references (ve : view_env) (tree : cn_tree)
    (refs : gmap Z Z) :
  match cn_tree_view_create ve tree refs with
  | (MERR_OK, Some view, refs') =>
      view = view_elements ve 0 (ct_nodes tree) /\
      forall k, ref_count (cn_tree_view_destroy view refs') k = ref_count refs k
  | (merr _, None, refs') => forall k, ref_count refs' k = ref_count refs k
  | _ => False
  end.
Proof.
  unfold cn_tree_view_create.
  destruct (ve_table_create ve); simpl; [|done].
  destruct (view_add_nodes ve 0 (ct_nodes tree) [] refs)
    as [[err view] refs'] eqn:Hadd.
  destruct err as [|e].
  - split.
    + pose proof (view_add_nodes_spec ve (ct_nodes tree) 0 0 [] refs) as H.
      rewrite Hadd in H. by apply H.
    + intros k. unfold ref_count. rewrite view_destroy_count.
      pose proof (view_add_nodes_spec ve (ct_nodes tree) (ks_id k) 0 [] refs) as H.
      rewrite Hadd in H. destruct H as [H _]. simpl in H. lia.
  - intros k. unfold ref_count. rewrite view_destroy_count.
    pose proof (view_add_nodes_spec ve (ct_nodes tree) (ks_id k) 0 [] refs) as H.
    rewrite Hadd in H. destruct H as [H _]. simpl in H. lia.
Qed.

(** ** Instances on sample data *)

Lemma cn_node_insert_kvset_keeps_order_sample :
  dgen_sorted (tn_kvset_list Scenario.leaf) /\
  Forall (λ e, kvset_get_dgen e <> kvset_get_dgen Scenario.k_mid)
    (tn_kvset_list Scenario.leaf) /\
  (cn_node_insert_kvset Scenario.leaf Scenario.k_mid).2 = MERR_OK /\
  dgen_sorted (tn_kvset_list (cn_node_insert_kvset Scenario.leaf Scenario.k_mid).1) /\
  tn_kvset_list (cn_node_insert_kvset Scenario.leaf Scenario.k_mid).1
    ≡ₚ Scenario.k_mid :: tn_kvset_list Scenario.leaf.
Proof.
  assert (dgen_sorted (tn_kvset_list Scenario.leaf)) as Hs.
  { simpl. repeat split; repeat constructor; vm_compute; done. }
  assert (Forall (λ e, kvset_get_dgen e <> kvset_get_dgen Scenario.k_mid)
            (tn_kvset_list Scenario.leaf)) as Hne.
  { repeat constructor; vm_compute; done. }
  split; [exact Hs|]. split; [exact Hne|].
  exact (cn_node_insert_kvset_keeps_order Scenario.leaf Scenario.k_mid Hs Hne).
Defined.

Lemma scatter_excludes_oldest_without_scatter_sample :
  Forall (λ k, u32 (Scenario.vgroups k) <= 1) Scenario.unscattered /\
  cn_tree_node_scatter Scenario.vgroups
    (tn_set_kvset_list Scenario.leaf (Scenario.scattered ++ Scenario.unscattered)) =
  cn_tree_node_scatter Scenario.vgroups
    (tn_set_kvset_list Scenario.leaf Scenario.scattered).
Proof.
  assert (Forall (λ k, u32 (Scenario.vgroups k) <= 1) Scenario.unscattered) as H.
  { repeat constructor; vm_compute; discriminate. }
  split; [exact H|].
  exact (scatter_excludes_oldest_without_scatter Scenario.vgroups Scenario.leaf
           Scenario.scattered Scenario.unscattered H).
Defined.

(** ** Tree update after a k-compact or kv-compact *)

Lemma list_last_entry_snoc {A} (l : list A) (x : A) :
  list_last_entry (l ++ [x]) = Some (length l) /\
  list_prev_entry (list_last_entry (l ++ [x])) = list_last_entry l.
Proof.
  destruct l as [|y l]; simpl; [done|].
  rewrite length_app. simpl. rewrite Nat.add_1_r. done.
Qed.

Lemma delete_middle {A} (l1 l2 : list A) (x : A) :
  delete (length l1) (l1 ++ x :: l2) = l1 ++ l2.
Proof. induction l1 as [|y l1 IH]; simpl; [done|]. by rewrite IH. Qed.

Lemma kvcompact_retire_app window : forall front back retired,
  kvcompact_retire (front ++ window ++ back) (list_last_entry (front ++ window))
    (length window) retired =
  Some (front ++ back, list_last_entry front, window ++ retired).
Proof.
  induction window as [|k window IH] using rev_ind; intros front back retired.
  - simpl. by rewrite app_nil_r.
  - rewrite length_app, Nat.add_1_r. cbn [kvcompact_retire].
    rewrite (app_assoc front window [k]).
    destruct (list_last_entry_snoc (front ++ window) k) as [Hlast Hprev].
    rewrite Hlast in Hprev. rewrite Hlast, Hprev.
    assert (front ++ (window ++ [k]) ++ back = (front ++ window) ++ k :: back) as ->
      by (by rewrite <- !app_assoc).
    cbn [mbind option_bind].
    rewrite list_lookup_middle by done. cbn [mbind option_bind].
    rewrite delete_middle, <- app_assoc, IH. by rewrite <- app_assoc.
Qed.

Lemma window_split {A} (l : list A) (m cnt : nat) :
  (m < length l)%nat -> (cnt <= m + 1)%nat ->
  l = take (m + 1 - cnt) l ++ take cnt (drop (m + 1 - cnt) l) ++ drop (m + 1) l /\
  length (take cnt (drop (m + 1 - cnt) l)) = cnt /\
  take (m + 1 - cnt) l ++ take cnt (drop (m + 1 - cnt) l) = take (m + 1) l.
Proof.
  intros Hm Hc.
  assert (take (m + 1 - cnt) l ++ take cnt (drop (m + 1 - cnt) l) = take (m + 1) l) as H.
  { rewrite take_take_drop. f_equal. lia. }
  split; [|split; [|done]].
  - rewrite app_assoc, H. by rewrite take_drop.
  - rewrite length_take, length_drop. lia.
Qed.

Lemma kvcompact_retire_window (l : list kvset) (m cnt : nat) :
  (m < length l)%nat -> (cnt <= m + 1)%nat ->
  kvcompact_retire l (Some m) cnt [] =
  Some (take (m + 1 - cnt) l ++ drop (m + 1) l,
        list_last_entry (take (m + 1 - cnt) l),
        take cnt (drop (m + 1 - cnt) l)).
Proof.
  intros Hm Hc.
  destruct (window_split l m cnt Hm Hc) as (Hl & Hlen & Htake).
  pose proof (kvcompact_retire_app (take cnt (drop (m + 1 - cnt) l))
                (take (m + 1 - cnt) l) (drop (m + 1) l) []) as H.
  rewrite <- Hl, Hlen, Htake, app_nil_r in H.
  rewrite <- H. f_equal.
  destruct (take (m + 1) l) as [|x t] eqn:Ht.
  - apply (f_equal length) in Ht. rewrite length_take in Ht. simpl in Ht. lia.
  - simpl. f_equal. apply (f_equal length) in Ht.
    rewrite length_take in Ht. simpl in Ht. lia.
Qed.

Lemma kvset_list_add_last (front back : list kvset) (k : kvset) :
  kvset_list_add (front ++ back) (list_last_entry front) k = front ++ k :: back.
Proof.
  unfold kvset_list_add. destruct front as [|x front]; simpl; [done|].
  rewrite take_app_length, drop_app_length. done.
Qed.

Lemma samp_insert_same (nodes : list cn_tree_node) n tn tn' :
  nodes !! n = Some tn -> tn_samp tn' = tn_samp tn ->
  tn_samp <$> <[n := tn']> nodes = tn_samp <$> nodes.
Proof.
  intros Hn Hs. rewrite list_fmap_insert, Hs.
  apply list_insert_id. by rewrite list_lookup_fmap, Hn.
Qed.

Lemma dgen_sorted_app l1 l2 :
  dgen_sorted (l1 ++ l2) <->
  dgen_sorted l1 /\ dgen_sorted l2 /\
  Forall (λ a, Forall (λ b, kvset_get_dgen b < kvset_get_dgen a) l2) l1.
Proof.
  induction l1 as [|a l1 IH]; simpl.
  - split; [intros H; split; [done|split; [done|constructor]]|by intros (_ & H & _)].
  - rewrite Forall_app, IH, Forall_cons. tauto.
Qed.

Lemma dgen_sorted_remove front window back :
  dgen_sorted (front ++ window ++ back) -> dgen_sorted (front ++ back).
Proof.
  rewrite !dgen_sorted_app. intros (Hf & (_ & Hb & _) & Hfb).
  split; [done|]. split; [done|].
  eapply Forall_impl; [exact Hfb|]. intros a Ha.
  by apply Forall_app in Ha as [_ Ha].
Qed.

Lemma dgen_sorted_replace front window back k hi lo :
  dgen_sorted (front ++ window ++ back) ->
  hi ∈ window -> lo ∈ window ->
  kvset_get_dgen lo <= kvset_get_dgen k <= kvset_get_dgen hi ->
  dgen_sorted (front ++ k :: back).
Proof.
  rewrite !dgen_sorted_app. intros (Hf & (_ & Hb & Hwb) & Hfwb) Hhi Hlo Hk.
  split; [done|]. split.
  - simpl. split; [|done].
    rewrite Forall_forall in Hwb. specialize (Hwb lo Hlo).
    eapply Forall_impl; [exact Hwb|]. simpl. lia.
  - eapply Forall_impl; [exact Hfwb|]. intros a Ha.
    apply Forall_app in Ha as [Haw Hab]. constructor; [|done].
    rewrite Forall_forall in Haw. specialize (Haw hi Hhi). lia.
Qed.

Lemma u32_sub_r a b : u32 (a - u32 b) = u32 (a - b).
Proof. unfold u32. by rewrite Zminus_mod_idemp_r. Qed.

(** X10.  Tree update after a k-compact or kv-compact, for a job without
    error whose window of [cw_kvset_cnt] entries ending at the mark lies in
    the node's list: the window leaves the list and the new kvset, when
    there is one, takes its place; the retired list is the window, newest
    first; the change generation advances only when a kvset was added; the
    busy count drops by one job and [cw_kvset_cnt] kvsets; no other node
    changes; the descriptor's samp snapshots are the totals before and
    after; the tree total stays the sum of the node records; and the list
    stays ordered by dgen when the new kvset's dgen lies between those of
    the oldest and the newest input. *)
Theorem update_kvcompact_replaces_window {E : cn_iface} (tree : cn_tree)
    (w : cn_compaction_work) (new_kvset : option kvset) (node : cn_tree_node) :
  cw_err w = MERR_OK ->
  ct_nodes tree !! cw_node w = Some node ->
  (cw_mark w < length (tn_kvset_list node))%nat ->
  (cw_kvset_cnt w <= cw_mark w + 1)%nat ->
  tn_size_max node <> 0 ->
  let l := tn_kvset_list node in
  let first := (cw_mark w + 1 - cw_kvset_cnt w)%nat in
  exists out node',
    cn_comp_update_kvcompact tree w new_kvset = Some out /\
    ct_nodes (uo_tree out) !! cw_node w = Some node' /\
    tn_kvset_list node' =
      take first l ++ option_list new_kvset ++ drop (cw_mark w + 1) l /\
    uo_retired out = take (cw_kvset_cnt w) (drop first l) /\
    tn_cgen node' =
      match new_kvset with
      | Some _ => u32 (tn_cgen node + 1)
      | None => tn_cgen node
      end /\
    tn_busycnt node' =
      u32 (tn_busycnt node - (65536 + Z.of_nat (cw_kvset_cnt w))) /\
    (forall n, n <> cw_node w ->
       ct_nodes (uo_tree out) !! n = ct_nodes tree !! n) /\
    uo_samp out = Some (ct_samp tree, ct_samp (uo_tree out)) /\
    (tree_samp_ok tree -> tree_samp_ok (uo_tree out)) /\
    (dgen_sorted l -> (1 <= cw_kvset_cnt w)%nat ->
     (forall k hi lo, new_kvset = Some k ->
        l !! first = Some hi -> l !! cw_mark w = Some lo ->
        kvset_get_dgen lo <= kvset_get_dgen k <= kvset_get_dgen hi) ->
     dgen_sorted (tn_kvset_list node')).
Proof.
  intros Herr Hnode Hm Hc Hsz l first.
  destruct (window_split l (cw_mark w) (cw_kvset_cnt w) Hm Hc) as (Hl & Hwlen & Htake).
  fold first in Hl, Hwlen, Htake.
  set (front := take first l) in *.
  set (window := take (cw_kvset_cnt w) (drop first l)) in *.
  set (back := drop (cw_mark w + 1) l) in *.
  set (l1 := front ++ option_list new_kvset ++ back).
  set (node1 :=
         match new_kvset with
         | Some k => tn_set_cgen (tn_set_kvset_list node (front ++ k :: back))
                       (u32 (tn_cgen node + 1))
         | None => tn_set_kvset_list node (front ++ back)
         end).
  assert (tn_kvset_list node1 = l1) as Hl1 by (by destruct new_kvset).
  assert (tn_size_max node1 = tn_size_max node) as Hsz1 by (by destruct new_kvset).
  assert (tn_samp node1 = tn_samp node) as Hsamp1 by (by destruct new_kvset).
  assert (tn_busycnt node1 = tn_busycnt node) as Hbusy1 by (by destruct new_kvset).
  assert (tn_cgen node1 = match new_kvset with
                          | Some _ => u32 (tn_cgen node + 1)
                          | None => tn_cgen node
                          end)
    as Hcgen1 by (by destruct new_kvset).
  destruct (recompute_succeeds node1) as (node2 & Hrec & Hl2); [by rewrite Hsz1|].
  destruct (recompute_frame _ _ Hrec) as [Hclear _].
  set (tree1 := ct_set_nodes tree (<[cw_node w := node1]> (ct_nodes tree))).
  assert (cw_node w < length (ct_nodes tree))%nat as Hlt
    by (by eapply lookup_lt_Some).
  set (tree2 := ct_set_nodes_samp tree1 (<[cw_node w := node2]> (ct_nodes tree1))
                  (samp_apply_delta (ct_samp tree1) (tn_samp node2) (tn_samp node1))).
  assert (cn_tree_samp_update_compact tree1 (cw_node w) = Some tree2) as Hcompact.
  { unfold cn_tree_samp_update_compact. simpl.
    rewrite list_lookup_insert_eq by done. simpl. by rewrite Hrec. }
  set (node3 := busycnt_sub node2 (cw_kvset_cnt w)).
  set (out := mk_update_out
                (ct_set_nodes tree2 (<[cw_node w := node3]> (ct_nodes tree2)))
                window (Some (ct_samp tree1, ct_samp tree2))).
  exists out, node3.
  assert (cn_comp_update_kvcompact tree w new_kvset = Some out) as Hrun.
  { unfold cn_comp_update_kvcompact. rewrite Herr. simpl. rewrite Hnode. simpl.
    rewrite (kvcompact_retire_window _ _ _ Hm Hc). simpl.
    fold l first front window back.
    assert (match new_kvset with
            | Some k =>
                tn_set_cgen
                  (tn_set_kvset_list node
                     (kvset_list_add (front ++ back) (list_last_entry front) k))
                  (u32 (tn_cgen node + 1))
            | None => tn_set_kvset_list node (front ++ back)
            end = node1) as ->.
    { unfold node1. destruct new_kvset; [|done]. by rewrite kvset_list_add_last. }
    fold tree1. rewrite Hcompact. simpl.
    rewrite list_lookup_insert_eq by (by rewrite length_insert). done. }
  split; [exact Hrun|].
  split; [simpl; apply list_lookup_insert_eq; by rewrite !length_insert|].
  split; [simpl; by rewrite Hl2|].
  split; [done|].
  split.
  { simpl. rewrite <- Hcgen1.
    apply (f_equal tn_cgen) in Hclear. exact Hclear. }
  split.
  { simpl. rewrite u32_sub_r, <- Hbusy1.
    apply (f_equal tn_busycnt) in Hclear. simpl in Hclear. by rewrite Hclear. }
  split.
  { intros n Hn. simpl. by rewrite !list_lookup_insert_ne. }
  split; [done|].
  split.
  { intros Hok.
    assert (tree_samp_ok tree1) as Hok1.
    { unfold tree_samp_ok, tree1. simpl.
      rewrite (samp_insert_same _ _ node) by done. exact Hok. }
    pose proof (compact_preserves_total _ _ _ Hok1 Hcompact) as Hok2.
    unfold tree_samp_ok in *. simpl.
    rewrite (samp_insert_same _ _ node2); [exact Hok2| |done].
    simpl. apply list_lookup_insert_eq. by rewrite length_insert. }
  intros Hsorted Hcnt Hdgen. simpl. rewrite Hl2, Hl1. unfold l1.
  rewrite Hl in Hsorted.
  destruct new_kvset as [k|]; simpl; [|by eapply dgen_sorted_remove].
  assert (first < length l)%nat as Hfirst by (unfold first, l; lia).
  assert (is_Some (l !! first)) as [hi Hhi] by (by apply lookup_lt_is_Some).
  assert (is_Some (l !! cw_mark w)) as [lo Hlo] by (by apply lookup_lt_is_Some).
  eapply (dgen_sorted_replace front window back k hi lo); [done| | |by eapply Hdgen].
  - apply (list_elem_of_lookup_2 _ 0%nat). unfold window.
    rewrite lookup_take_lt by lia. rewrite lookup_drop. by rewrite Nat.add_0_r.
  - apply (list_elem_of_lookup_2 _ (cw_kvset_cnt w - 1)%nat). unfold window.
    rewrite lookup_take_lt by lia. rewrite lookup_drop.
    rewrite <- Hlo. f_equal. unfold first. lia.
Qed.

Lemma update_kvcompact_replaces_window_sample :
  cw_err Sample.tail_work = MERR_OK /\
  ct_nodes Sample.tree3 !! cw_node Sample.tail_work = Some Scenario.leaf /\
  (cw_mark Sample.tail_work < length (tn_kvset_list Scenario.leaf))%nat /\
  (cw_kvset_cnt Sample.tail_work <= cw_mark Sample.tail_work + 1)%nat /\
  tn_size_max Scenario.leaf <> 0 /\
  exists out node',
    cn_comp_update_kvcompact (E := Sample.iface) Sample.tree3 Sample.tail_work
      (Some Scenario.k_merged) = Some out /\
    ct_nodes (uo_tree out) !! 1%nat = Some node' /\
    tn_kvset_list node' = [Sample.kv 3 3 7 0 [120]; Scenario.k_merged] /\
    uo_retired out = [Sample.kv 2 3 7 0 [110]; Sample.kv 1 3 0 0 [100]] /\
    tn_cgen node' = 1 /\
    tn_busycnt node' = 2 ^ 32 - 65538 /\
    dgen_sorted (tn_kvset_list node').
Proof.
  assert (cw_err Sample.tail_work = MERR_OK) as H1 by reflexivity.
  assert (ct_nodes Sample.tree3 !! cw_node Sample.tail_work = Some Scenario.leaf)
    as H2 by reflexivity.
  assert (cw_mark Sample.tail_work < length (tn_kvset_list Scenario.leaf))%nat
    as H3 by (vm_compute; lia).
  assert (cw_kvset_cnt Sample.tail_work <= cw_mark Sample.tail_work + 1)%nat
    as H4 by (vm_compute; lia).
  assert (tn_size_max Scenario.leaf <> 0) as H5 by (vm_compute; discriminate).
  do 5 (split; [assumption|]).
  destruct (update_kvcompact_replaces_window (E := Sample.iface) Sample.tree3
              Sample.tail_work (Some Scenario.k_merged) Scenario.leaf H1 H2 H3 H4 H5)
    as (out & node' & Hrun & Hnode & Hlist & Hret & Hcgen & Hbusy & _ & _ & _ & Hsorted).
  exists out, node'.
  split; [exact Hrun|]. split; [exact Hnode|]. split; [exact Hlist|].
  split; [exact Hret|]. split; [exact Hcgen|]. split; [exact Hbusy|].
  apply Hsorted.
  - simpl. repeat split; repeat constructor; vm_compute; done.
  - vm_compute; lia.
  - intros k hi lo Hk Hhi Hlo. vm_compute in Hhi, Hlo.
    injection Hk as <-. injection Hhi as <-. injection Hlo as <-.
    vm_compute. split; discriminate.
Defined.

(** ** Tree update after a spill *)

Lemma spill_retire_app window : forall front retired,
  spill_retire (front ++ window) (length window) retired =
  Some (front, window ++ retired).
Proof.
  induction window as [|k window IH] using rev_ind; intros front retired.
  - simpl. by rewrite app_nil_r.
  - rewrite length_app, Nat.add_1_r. cbn [spill_retire].
    rewrite (app_assoc front window [k]).
    destruct (list_last_entry_snoc (front ++ window) k) as [-> _].
    cbn [mbind option_bind].
    rewrite list_lookup_middle by done. cbn [mbind option_bind].
    rewrite delete_middle, app_nil_r, IH. by rewrite <- app_assoc.
Qed.

Lemma spill_retire_tail (l : list kvset) (cnt : nat) :
  (cnt <= length l)%nat ->
  spill_retire l cnt [] = Some (take (length l - cnt) l, drop (length l - cnt) l).
Proof.
  intros Hc.
  pose proof (spill_retire_app (drop (length l - cnt) l) (take (length l - cnt) l) [])
    as H.
  rewrite take_drop, length_drop, app_nil_r in H.
  rewrite <- H. f_equal. lia.
Qed.

Lemma fmap_insert_same {B} (f : cn_tree_node -> B) (nodes : list cn_tree_node)
    n tn tn' :
  nodes !! n = Some tn -> f tn' = f tn -> f <$> <[n := tn']> nodes = f <$> nodes.
Proof.
  intros Hn Hs. rewrite list_fmap_insert, Hs.
  apply list_insert_id. by rewrite list_lookup_fmap, Hn.
Qed.

Lemma spill_add_outputs_spec w kvsets r : forall i nodes,
  (forall j, (i <= j < i + r)%nat ->
     exists ko, kvsets !! j = Some ko /\
       forall k, ko = Some k ->
         exists n, cw_output_nodev w !! j = Some (Some n) /\ (n < length nodes)%nat) ->
  exists nodes',
    spill_add_outputs w kvsets i r nodes = Some nodes' /\
    tn_samp <$> nodes' = tn_samp <$> nodes /\
    tn_size_max <$> nodes' = tn_size_max <$> nodes /\
    tn_busycnt <$> nodes' = tn_busycnt <$> nodes /\
    forall n node, nodes !! n = Some node ->
      exists node',
        nodes' !! n = Some node' /\
        tn_kvset_list node' =
          reverse (spill_outputs_to w kvsets n i r) ++ tn_kvset_list node /\
        tn_cgen node' =
          cgen_bumped (length (spill_outputs_to w kvsets n i r)) (tn_cgen node).
Proof.
  induction r as [|r IH]; intros i nodes Hplaced.
  - exists nodes. repeat (split; [done|]). intros n node Hn. by exists node.
  - destruct (Hplaced i ltac:(lia)) as (ko & Hko & Hnode).
    cbn [spill_add_outputs spill_outputs_to]. rewrite Hko. cbn [mbind option_bind].
    destruct ko as [k|].
    + destruct (Hnode k eq_refl) as (n0 & Hn0 & Hlt).
      rewrite Hn0. cbn [mbind option_bind].
      destruct (lookup_lt_is_Some_2 nodes n0 Hlt) as [node0 Hnode0].
      rewrite Hnode0. cbn [mbind option_bind].
      set (node0' := tn_set_cgen _ _).
      destruct (IH (S i) (<[n0 := node0']> nodes)) as (nodes' & Hrun & Hs & Hz & Hb & Hall).
      { intros j Hj. rewrite length_insert. apply Hplaced. lia. }
      exists nodes'. split; [exact Hrun|].
      split; [by rewrite Hs; apply (fmap_insert_same _ _ _ node0)|].
      split; [by rewrite Hz; apply (fmap_insert_same _ _ _ node0)|].
      split; [by rewrite Hb; apply (fmap_insert_same _ _ _ node0)|].
      intros n node Hn. destruct (decide (n0 = n)) as [->|Hne].
      * destruct (Hall n node0') as (node' & Hn' & Hl' & Hc').
        { apply list_lookup_insert_eq. by eapply lookup_lt_Some. }
        assert (node = node0) as -> by congruence.
        exists node'. split; [done|]. split.
        -- rewrite Hl'. simpl. rewrite reverse_cons, <- app_assoc. done.
        -- rewrite Hc'. unfold cgen_bumped. cbn [length]. by rewrite Nat.iter_succ_r.
      * destruct (Hall n node) as (node' & Hn' & Hl' & Hc').
        { by rewrite list_lookup_insert_ne. }
        by exists node'.
    + destruct (IH (S i) nodes) as (nodes' & Hrun & Hs & Hz & Hb & Hall).
      { intros j Hj. apply Hplaced. lia. }
      exists nodes'. done.
Qed.

(** The sampling updates leave everything of a node but its sampling
    state alone. *)
Lemma compact_total_frame {E : cn_iface} t n tn :
  ct_nodes t !! n = Some tn -> tn_size_max tn <> 0 ->
  exists t',
    cn_tree_samp_update_compact t n = Some t' /\
    tn_samp_clear <$> ct_nodes t' = tn_samp_clear <$> ct_nodes t.
Proof.
  intros Hn Hsz.
  destruct (recompute_succeeds tn Hsz) as (tn' & Hrec & _).
  destruct (recompute_frame _ _ Hrec) as [Hclear _].
  unfold cn_tree_samp_update_compact. rewrite Hn. simpl. rewrite Hrec. simpl.
  eexists. split; [done|]. simpl. by apply (fmap_insert_same _ _ _ tn).
Qed.

Lemma ingest_total_frame {E : cn_iface} t n tn :
  ct_nodes t !! n = Some tn -> tn_size_max tn <> 0 ->
  exists t',
    cn_tree_samp_update_ingest t n = Some t' /\
    tn_samp_clear <$> ct_nodes t' = tn_samp_clear <$> ct_nodes t.
Proof.
  intros Hn Hsz. unfold cn_tree_samp_update_ingest. rewrite Hn. simpl.
  destruct (tn_kvset_list tn) as [|k l]; [by exists t|].
  destruct (clear_after_incr tn k false) as [Hclear _].
  destruct (tn_samp_update_incr tn k false) as [tn1 b]. simpl in Hclear.
  destruct b.
  - destruct (finish_succeeds tn1) as [tn' Hfin].
    { by rewrite (size_max_of_clear _ _ Hclear). }
    destruct (clear_after_finish _ _ Hfin) as [Hclear' _].
    rewrite Hfin. simpl. eexists. split; [done|]. simpl.
    apply (fmap_insert_same _ _ _ tn); [done|congruence].
  - simpl. eexists. split; [done|]. simpl.
    by apply (fmap_insert_same _ _ _ tn).
Qed.

Lemma size_max_frame {E : cn_iface} (a b : list cn_tree_node) :
  tn_samp_clear <$> a = tn_samp_clear <$> b ->
  length a = length b /\
  (Forall (λ tn, tn_size_max tn <> 0) b -> Forall (λ tn, tn_size_max tn <> 0) a).
Proof.
  intros Heq. split.
  - apply (f_equal length) in Heq. by rewrite !length_fmap in Heq.
  - rewrite !Forall_lookup. intros Hb i x Hx.
    assert ((tn_samp_clear <$> b) !! i = Some (tn_samp_clear x)) as Hbi
      by (by rewrite <- Heq, list_lookup_fmap, Hx).
    rewrite list_lookup_fmap in Hbi.
    destruct (b !! i) as [y|] eqn:Hy; [|done].
    simpl in Hbi. apply (inj Some) in Hbi.
    rewrite <- (size_max_of_clear _ _ Hbi). by eapply Hb.
Qed.

Lemma ingest_leaves_total_frame {E : cn_iface} count : forall t leaf,
  (leaf + count <= length (ct_nodes t))%nat ->
  Forall (λ tn, tn_size_max tn <> 0) (ct_nodes t) ->
  exists t',
    samp_ingest_leaves t leaf count = Some t' /\
    tn_samp_clear <$> ct_nodes t' = tn_samp_clear <$> ct_nodes t.
Proof.
  induction count as [|count IH]; intros t leaf Hlen Hsz; [by exists t|].
  destruct (lookup_lt_is_Some_2 (ct_nodes t) leaf ltac:(lia)) as [tn Hn].
  destruct (ingest_total_frame t leaf tn Hn) as (t1 & Hing & Hframe).
  { rewrite Forall_lookup in Hsz. by eapply Hsz. }
  destruct (size_max_frame _ _ Hframe) as [Hlen1 Hsz1].
  destruct (IH t1 (S leaf)) as (t' & Hrun & Hframe'); [lia|by apply Hsz1|].
  exists t'. simpl. rewrite Hing. simpl. split; [done|congruence].
Qed.

Lemma spill_total_frame {E : cn_iface} t n :
  (n < length (ct_nodes t))%nat ->
  Forall (λ tn, tn_size_max tn <> 0) (ct_nodes t) ->
  exists t',
    cn_tree_samp_update_spill t n = Some t' /\
    tn_samp_clear <$> ct_nodes t' = tn_samp_clear <$> ct_nodes t.
Proof.
  intros Hn Hsz.
  destruct (lookup_lt_is_Some_2 (ct_nodes t) n Hn) as [tn Htn].
  destruct (compact_total_frame t n tn Htn) as (t1 & Hc & Hframe).
  { rewrite Forall_lookup in Hsz. by eapply Hsz. }
  destruct (size_max_frame _ _ Hframe) as [Hlen1 Hsz1].
  destruct (ingest_leaves_total_frame (length (ct_nodes t1) - 1) t1 (S ct_root))
    as (t' & Hrun & Hframe'); [unfold ct_root; lia|by apply Hsz1|].
  exists t'. unfold cn_tree_samp_update_spill. rewrite Hc. simpl.
  split; [done|congruence].
Qed.

Lemma frame_lookup {E : cn_iface} (a b : list cn_tree_node) n x :
  tn_samp_clear <$> a = tn_samp_clear <$> b -> b !! n = Some x ->
  exists y, a !! n = Some y /\ tn_samp_clear y = tn_samp_clear x.
Proof.
  intros Heq Hx.
  assert ((tn_samp_clear <$> a) !! n = Some (tn_samp_clear x)) as Ha
    by (by rewrite Heq, list_lookup_fmap, Hx).
  rewrite list_lookup_fmap in Ha.
  destruct (a !! n) as [y|]; [|done]. simpl in Ha. apply (inj Some) in Ha. by exists y.
Qed.

Lemma fmap_eq_lookup {B} (f : cn_tree_node -> B) (a b : list cn_tree_node) n x y :
  f <$> a = f <$> b -> a !! n = Some x -> b !! n = Some y -> f x = f y.
Proof.
  intros Heq Hx Hy.
  assert ((f <$> a) !! n = Some (f x)) as Ha by (by rewrite list_lookup_fmap, Hx).
  rewrite Heq, list_lookup_fmap, Hy in Ha. simpl in Ha. congruence.
Qed.

(** X11.  Tree update after a spill, for a job without error on a tree
    whose nodes have a size threshold: every output that is there goes to
    the head of the list of its node, later outputs before earlier ones,
    and advances that node's change generation; the source node's change
    generation advances once more; then the [cw_kvset_cnt] oldest kvsets of
    the source node leave its list and make the retired list, newest
    first; the source's busy count drops by one job and [cw_kvset_cnt]
    kvsets; the descriptor's samp snapshots are the totals before and
    after, and the tree total stays the sum of the node records. *)
Theorem update_spill_moves_kvsets {E : cn_iface} (tree : cn_tree)
    (w : cn_compaction_work) (kvsets : list (option kvset))
    (pnode : cn_tree_node) :
  cw_err w = MERR_OK ->
  ct_nodes tree !! cw_node w = Some pnode ->
  spill_outputs_placed w kvsets (length (ct_nodes tree)) ->
  Forall (λ tn, tn_size_max tn <> 0) (ct_nodes tree) ->
  (cw_kvset_cnt w <= length (tn_kvset_list pnode))%nat ->
  let outs n := spill_outputs_to w kvsets n 0 (Z.to_nat (cw_outc w)) in
  let full n node := reverse (outs n) ++ tn_kvset_list node in
  let kept := (length (full (cw_node w) pnode) - cw_kvset_cnt w)%nat in
  exists out,
    cn_comp_update_spill tree w kvsets = Some out /\
    uo_retired out = drop kept (full (cw_node w) pnode) /\
    uo_samp out = Some (ct_samp tree, ct_samp (uo_tree out)) /\
    (forall n node, ct_nodes tree !! n = Some node ->
       exists node',
         ct_nodes (uo_tree out) !! n = Some node' /\
         tn_kvset_list node' =
           (if decide (n = cw_node w) then take kept (full n node)
            else full n node) /\
         tn_cgen node' =
           cgen_bumped
             (length (outs n) + (if decide (n = cw_node w) then 1 else 0))
             (tn_cgen node) /\
         tn_busycnt node' =
           (if decide (n = cw_node w)
            then u32 (tn_busycnt node - (65536 + Z.of_nat (cw_kvset_cnt w)))
            else tn_busycnt node)) /\
    (tree_samp_ok tree -> tree_samp_ok (uo_tree out)).
Proof.
  intros Herr Hp Hplaced Hsz Hcnt outs full kept.
  destruct (spill_add_outputs_spec w kvsets (Z.to_nat (cw_outc w)) 0 (ct_nodes tree))
    as (nodes1 & Hadd & Hs1 & Hz1 & Hb1 & Hall).
  { intros j Hj. apply Hplaced. lia. }
  destruct (Hall _ _ Hp) as (pnode1 & Hp1 & Hl1 & Hc1).
  fold (outs (cw_node w)) in Hl1, Hc1. fold (full (cw_node w) pnode) in Hl1.
  assert (cw_kvset_cnt w <= length (full (cw_node w) pnode))%nat as Hcnt'.
  { unfold full. rewrite length_app. lia. }
  set (pnode2 := tn_set_kvset_list (tn_set_cgen pnode1 (u32 (tn_cgen pnode1 + 1)))
                   (take kept (full (cw_node w) pnode))).
  set (tree1 := ct_set_nodes tree (<[cw_node w := pnode2]> nodes1)).
  assert (cw_node w < length nodes1)%nat as Hlt1 by (by eapply lookup_lt_Some).
  assert (tn_size_max <$> ct_nodes tree1 = tn_size_max <$> ct_nodes tree) as Hz.
  { simpl. by rewrite (fmap_insert_same _ _ _ pnode1). }
  assert (tn_samp <$> ct_nodes tree1 = tn_samp <$> ct_nodes tree) as Hs.
  { simpl. by rewrite (fmap_insert_same _ _ _ pnode1). }
  destruct (spill_total_frame tree1 (cw_node w)) as (tree2 & Hspill & Hframe).
  { simpl. by rewrite length_insert. }
  { apply (Forall_fmap tn_size_max (λ z, z <> 0)). rewrite Hz.
    by apply Forall_fmap. }
  assert (ct_nodes tree1 !! cw_node w = Some pnode2) as Hp2
    by (simpl; by apply list_lookup_insert_eq).
  destruct (frame_lookup _ _ _ _ Hframe Hp2) as (pnode3 & Hp3 & Hclear3).
  assert (cw_node w < length (ct_nodes tree2))%nat as Hlt2 by (by eapply lookup_lt_Some).
  set (out := mk_update_out
                (ct_set_nodes tree2
                   (<[cw_node w := busycnt_sub pnode3 (cw_kvset_cnt w)]> (ct_nodes tree2)))
                (drop kept (full (cw_node w) pnode))
                (Some (ct_samp tree1, ct_samp tree2))).
  exists out.
  split.
  { unfold cn_comp_update_spill. rewrite Herr. simpl. rewrite Hadd. simpl.
    rewrite Hp1. simpl. rewrite Hl1, (spill_retire_tail _ _ Hcnt'). simpl.
    fold kept pnode2 tree1. rewrite Hspill. simpl. rewrite Hp3. done. }
  split; [done|]. split; [done|]. split.
  - intros n node Hn.
    destruct (Hall _ _ Hn) as (node1 & Hn1 & Hln & Hcn).
    fold (outs n) in Hln, Hcn. fold (full n node) in Hln.
    pose proof (fmap_eq_lookup _ _ _ _ _ _ Hb1 Hn1 Hn) as Hbn.
    destruct (decide (n = cw_node w)) as [->|Hne].
    + assert (node = pnode) as -> by congruence.
      assert (node1 = pnode1) as -> by congruence.
      exists (busycnt_sub pnode3 (cw_kvset_cnt w)).
      split; [simpl; by apply list_lookup_insert_eq|].
      split; [|split].
      * simpl. by apply (f_equal tn_kvset_list) in Hclear3.
      * simpl. apply (f_equal tn_cgen) in Hclear3. simpl in Hclear3.
        rewrite Hclear3, Hc1, Nat.add_1_r. done.
      * simpl. apply (f_equal tn_busycnt) in Hclear3. simpl in Hclear3.
        by rewrite u32_sub_r, Hclear3, Hbn.
    + assert (ct_nodes tree1 !! n = Some node1) as Hn1'
        by (simpl; by rewrite list_lookup_insert_ne).
      destruct (frame_lookup _ _ _ _ Hframe Hn1') as (node2 & Hn2 & Hclear2).
      exists node2.
      split; [simpl; by rewrite list_lookup_insert_ne|].
      split; [|split].
      * apply (f_equal tn_kvset_list) in Hclear2. simpl in Hclear2. congruence.
      * apply (f_equal tn_cgen) in Hclear2. simpl in Hclear2.
        rewrite Hclear2, Hcn, Nat.add_0_r. done.
      * apply (f_equal tn_busycnt) in Hclear2. simpl in Hclear2. congruence.
  - intros Hok.
    assert (tree_samp_ok tree1) as Hok1.
    { unfold tree_samp_ok. rewrite Hs. exact Hok. }
    pose proof (spill_preserves_total _ _ _ Hok1 Hspill) as Hok2.
    unfold tree_samp_ok in *. simpl.
    by rewrite (fmap_insert_same _ _ _ pnode3).
Qed.

Lemma update_spill_moves_kvsets_sample :
  cw_err Scenario.spill_job = MERR_OK /\
  ct_nodes Sample.tree3 !! cw_node Scenario.spill_job = Some Sample.root3 /\
  spill_outputs_placed Scenario.spill_job [Some Scenario.k_spilled]
    (length (ct_nodes Sample.tree3)) /\
  Forall (λ tn, tn_size_max tn <> 0) (ct_nodes Sample.tree3) /\
  (cw_kvset_cnt Scenario.spill_job <= length (tn_kvset_list Sample.root3))%nat /\
  exists out root' leaf',
    cn_comp_update_spill (E := Sample.iface) Sample.tree3 Scenario.spill_job
      [Some Scenario.k_spilled] = Some out /\
    uo_retired out = [Sample.k_old] /\
    ct_nodes (uo_tree out) !! 0%nat = Some root' /\
    tn_kvset_list root' = [Sample.k_new] /\
    tn_cgen root' = 1 /\
    ct_nodes (uo_tree out) !! 1%nat = Some leaf' /\
    tn_kvset_list leaf' = Scenario.k_spilled :: Sample.leaf3 /\
    tn_cgen leaf' = 1.
Proof.
  assert (cw_err Scenario.spill_job = MERR_OK) as H1 by reflexivity.
  assert (ct_nodes Sample.tree3 !! cw_node Scenario.spill_job = Some Sample.root3)
    as H2 by reflexivity.
  assert (spill_outputs_placed Scenario.spill_job [Some Scenario.k_spilled]
            (length (ct_nodes Sample.tree3))) as H3.
  { intros i Hi. assert (i = 0%nat) as -> by (vm_compute in Hi; lia).
    exists (Some Scenario.k_spilled). split; [reflexivity|].
    intros k _. exists 1%nat. split; [reflexivity|vm_compute; lia]. }
  assert (Forall (λ tn, tn_size_max tn <> 0) (ct_nodes Sample.tree3)) as H4.
  { repeat constructor; vm_compute; discriminate. }
  assert (cw_kvset_cnt Scenario.spill_job <= length (tn_kvset_list Sample.root3))%nat
    as H5 by (vm_compute; lia).
  do 5 (split; [assumption|]).
  destruct (update_spill_moves_kvsets (E := Sample.iface) Sample.tree3
              Scenario.spill_job [Some Scenario.k_spilled] Sample.root3
              H1 H2 H3 H4 H5) as (out & Hrun & Hret & _ & Hall & _).
  destruct (Hall 0%nat Sample.root3 eq_refl) as (root' & Hr & Hrl & Hrc & _).
  destruct (Hall 1%nat Scenario.leaf eq_refl) as (leaf' & Hl & Hll & Hlc & _).
  exists out, root', leaf'.
  split; [exact Hrun|]. split; [exact Hret|]. split; [exact Hr|].
  split; [exact Hrl|]. split; [exact Hrc|]. split; [exact Hl|].
  split; [exact Hll|exact Hlc].
Defined.

(** ** Compaction preparation: the input vector *)

Lemma prepare_iterators_app pe window : forall front back ins,
  Forall (λ k, pe_kvset_iter_create pe k = MERR_OK) window ->
  prepare_iterators pe (front ++ window ++ back)
    (list_last_entry (front ++ window)) (length window) ins =
  Some (MERR_OK, window ++ ins).
Proof.
  induction window as [|k window IH] using rev_ind; intros front back ins Hok.
  - done.
  - apply Forall_app in Hok as [Hok Hk]. rewrite Forall_singleton in Hk.
    rewrite length_app, Nat.add_1_r. cbn [prepare_iterators].
    rewrite (app_assoc front window [k]).
    destruct (list_last_entry_snoc (front ++ window) k) as [Hlast Hprev].
    rewrite Hlast in Hprev. rewrite Hlast, Hprev.
    assert (front ++ (window ++ [k]) ++ back = (front ++ window) ++ k :: back) as Hl
      by (by rewrite <- !app_assoc).
    rewrite Hl. cbn [mbind option_bind].
    rewrite list_lookup_middle by done. cbn [mbind option_bind].
    rewrite Hk, <- Hl.
    assert (front ++ (window ++ [k]) ++ back = front ++ window ++ [k] ++ back) as ->
      by (by rewrite <- !app_assoc).
    rewrite (IH front ([k] ++ back) (k :: ins) Hok). by rewrite <- app_assoc.
Qed.


Lemma last_entry_take (l : list kvset) (m : nat) :
  (m < length l)%nat -> list_last_entry (take (m + 1) l) = Some m.
Proof.
  intros Hm. destruct (take (m + 1) l) as [|x t] eqn:Ht.
  - apply (f_equal length) in Ht. rewrite length_take in Ht. simpl in Ht. lia.
  - simpl. f_equal. apply (f_equal length) in Ht.
    rewrite length_take in Ht. simpl in Ht. lia.
Qed.

Lemma prepare_iterators_window pe (l : list kvset) (m cnt : nat) :
  (m < length l)%nat -> (cnt <= m + 1)%nat ->
  Forall (λ k, pe_kvset_iter_create pe k = MERR_OK)
    (take cnt (drop (m + 1 - cnt) l)) ->
  prepare_iterators pe l (Some m) cnt [] =
  Some (MERR_OK, take cnt (drop (m + 1 - cnt) l)).
Proof.
  intros Hm Hc Hok.
  destruct (window_split l m cnt Hm Hc) as (Hl & Hlen & Htake).
  pose proof (prepare_iterators_app pe _ (take (m + 1 - cnt) l) (drop (m + 1) l) [] Hok)
    as H.
  rewrite <- Hl, Hlen, Htake, app_nil_r, (last_entry_take _ _ Hm) in H. exact H.
Qed.

Lemma dgen_sorted_window (l : list kvset) (a cnt : nat) :
  dgen_sorted l -> dgen_sorted (take cnt (drop a l)).
Proof.
  intros Hs. rewrite <- (take_drop a l) in Hs.
  apply dgen_sorted_app in Hs as (_ & Hs & _).
  rewrite <- (take_drop cnt (drop a l)) in Hs.
  by apply dgen_sorted_app in Hs as (Hs & _).
Qed.

(** X12.  Preparing a job that is no split, whose window of
    [cw_kvset_cnt] entries ending at the mark lies in the node's list,
    when the allocations succeed and an iterator can be created on every
    kvset of the window: the preparation succeeds, the input vector is the
    window in list order - so input [i] is newer than input [i+1] on a
    list ordered by dgen - and the job gets one output for a k-compact or
    kv-compact and [fanout] outputs for a spill, each with a cleared block
    record, a cleared kvset id and no node. *)
Theorem prepare_opens_window (pe : prepare_env) (tree : cn_tree)
    (w : cn_compaction_work) (node : cn_tree_node) :
  ct_nodes tree !! cw_node w = Some node ->
  cw_action w <> CN_ACTION_SPLIT ->
  (cw_mark w < length (tn_kvset_list node))%nat ->
  (cw_kvset_cnt w <= cw_mark w + 1)%nat ->
  pe_calloc_ins pe = true ->
  pe_calloc_outs pe = true ->
  (cw_action w = CN_ACTION_COMPACT_K ->
     pe_calloc_vgmap pe = true /\ pe_kvset_keep_vblocks pe = MERR_OK) ->
  let window :=
    take (cw_kvset_cnt w) (drop (cw_mark w + 1 - cw_kvset_cnt w) (tn_kvset_list node)) in
  Forall (λ k, pe_kvset_iter_create pe k = MERR_OK) window ->
  exists w',
    cn_tree_prepare_compaction pe tree w = Some (MERR_OK, w') /\
    cw_inputv w' = window /\
    (dgen_sorted (tn_kvset_list node) -> dgen_sorted (cw_inputv w')) /\
    cw_outc w' =
      (if bool_decide (cw_action w = CN_ACTION_COMPACT_K \/
                       cw_action w = CN_ACTION_COMPACT_KV)
       then 1 else u32 (ct_fanout tree)) /\
    cw_outv w' = replicate (Z.to_nat (cw_outc w')) mblocks_zero /\
    cw_kvsetidv w' = replicate (Z.to_nat (cw_outc w')) 0 /\
    cw_output_nodev w' = replicate (Z.to_nat (cw_outc w')) None /\
    (cw_node w', cw_mark w', cw_kvset_cnt w', cw_action w', cw_err w') =
      (cw_node w, cw_mark w, cw_kvset_cnt w, cw_action w, cw_err w).
Proof.
  intros Hnode Hsplit Hm Hc Hins Houts Hk window Hok.
  unfold cn_tree_prepare_compaction. rewrite Hnode. cbn [mbind option_bind].
  rewrite (bool_decide_eq_false_2 (cw_action w = CN_ACTION_SPLIT)) by done.
  cbn [andb negb orb]. rewrite Hins, Houts. cbn [andb negb orb].
  rewrite (prepare_iterators_window pe _ _ _ Hm Hc Hok). cbn [mbind option_bind].
  fold window.
  destruct (decide (cw_action w = CN_ACTION_COMPACT_K)) as [Hkc|Hkc].
  - destruct (Hk Hkc) as [Hvg Hkeep].
    rewrite (bool_decide_eq_true_2 _ Hkc). cbn [andb negb orb].
    rewrite Hvg, Hkeep. cbn [andb negb orb].
    eexists. split; [reflexivity|]. simpl.
    split; [done|]. split; [intros Hs; by apply dgen_sorted_window|].
    rewrite bool_decide_eq_true_2 by (by left). done.
  - rewrite (bool_decide_eq_false_2 _ Hkc). cbn [andb negb orb].
    eexists. split; [reflexivity|]. simpl.
    split; [done|]. split; [intros Hs; by apply dgen_sorted_window|].
    destruct (decide (cw_action w = CN_ACTION_COMPACT_KV)) as [Hkv|Hkv].
    + rewrite (bool_decide_eq_true_2 _ Hkv).
      rewrite bool_decide_eq_true_2 by (by right). done.
    + rewrite (bool_decide_eq_false_2 _ Hkv).
      rewrite bool_decide_eq_false_2 by tauto. done.
Qed.


Lemma prepare_opens_window_sample :
  ct_nodes Sample.tree3 !! cw_node Sample.tail_work = Some Scenario.leaf /\
  cw_action Sample.tail_work <> CN_ACTION_SPLIT /\
  (cw_mark Sample.tail_work < length (tn_kvset_list Scenario.leaf))%nat /\
  (cw_kvset_cnt Sample.tail_work <= cw_mark Sample.tail_work + 1)%nat /\
  pe_calloc_ins Sample.prepare_all_ok = true /\
  pe_calloc_outs Sample.prepare_all_ok = true /\
  (cw_action Sample.tail_work = CN_ACTION_COMPACT_K ->
     pe_calloc_vgmap Sample.prepare_all_ok = true /\
     pe_kvset_keep_vblocks Sample.prepare_all_ok = MERR_OK) /\
  Forall (λ k, pe_kvset_iter_create Sample.prepare_all_ok k = MERR_OK)
    [Sample.kv 2 3 7 0 [110]; Sample.kv 1 3 0 0 [100]] /\
  exists w',
    cn_tree_prepare_compaction Sample.prepare_all_ok Sample.tree3 Sample.tail_work =
      Some (MERR_OK, w') /\
    cw_inputv w' = [Sample.kv 2 3 7 0 [110]; Sample.kv 1 3 0 0 [100]] /\
    cw_outc w' = 1 /\
    cw_outv w' = [mblocks_zero].
Proof.
  assert (ct_nodes Sample.tree3 !! cw_node Sample.tail_work = Some Scenario.leaf)
    as H1 by reflexivity.
  assert (cw_action Sample.tail_work <> CN_ACTION_SPLIT) as H2 by discriminate.
  assert (cw_mark Sample.tail_work < length (tn_kvset_list Scenario.leaf))%nat
    as H3 by (vm_compute; lia).
  assert (cw_kvset_cnt Sample.tail_work <= cw_mark Sample.tail_work + 1)%nat
    as H4 by (vm_compute; lia).
  assert (pe_calloc_ins Sample.prepare_all_ok = true) as H5 by reflexivity.
  assert (pe_calloc_outs Sample.prepare_all_ok = true) as H6 by reflexivity.
  assert (cw_action Sample.tail_work = CN_ACTION_COMPACT_K ->
          pe_calloc_vgmap Sample.prepare_all_ok = true /\
          pe_kvset_keep_vblocks Sample.prepare_all_ok = MERR_OK) as H7 by done.
  assert (Forall (λ k, pe_kvset_iter_create Sample.prepare_all_ok k = MERR_OK)
            [Sample.kv 2 3 7 0 [110]; Sample.kv 1 3 0 0 [100]]) as H8
    by (repeat constructor).
  do 8 (split; [assumption|]).
  destruct (prepare_opens_window Sample.prepare_all_ok Sample.tree3 Sample.tail_work
              Scenario.leaf H1 H2 H3 H4 H5 H6 H7 H8)
    as (w' & Hrun & Hin & _ & Houtc & Houtv & _).
  exists w'. split; [exact Hrun|]. split; [exact Hin|]. split; [exact Houtc|].
  rewrite Houtv, Houtc. reflexivity.
Defined.


Lemma prepare_iterators_ok_inv pe window : forall front back ins r,
  prepare_iterators pe (front ++ window ++ back)
    (list_last_entry (front ++ window)) (length window) ins = Some (MERR_OK, r) ->
  r = window ++ ins.
Proof.
  induction window as [|k window IH] using rev_ind; intros front back ins r.
  - simpl. congruence.
  - rewrite length_app, Nat.add_1_r. cbn [prepare_iterators].
    rewrite (app_assoc front window [k]).
    destruct (list_last_entry_snoc (front ++ window) k) as [Hlast Hprev].
    rewrite Hlast in Hprev. rewrite Hlast, Hprev.
    assert (front ++ (window ++ [k]) ++ back = (front ++ window) ++ k :: back) as Hl
      by (by rewrite <- !app_assoc).
    rewrite Hl. cbn [mbind option_bind].
    rewrite list_lookup_middle by done. cbn [mbind option_bind].
    destruct (pe_kvset_iter_create pe k); [|discriminate].
    assert ((front ++ window) ++ k :: back = front ++ window ++ [k] ++ back) as ->
      by (by rewrite <- !app_assoc).
    intros H. apply IH in H. by rewrite <- app_assoc.
Qed.

Lemma prepare_ok_inv pe tree w w' node :
  ct_nodes tree !! cw_node w = Some node ->
  cw_action w <> CN_ACTION_SPLIT ->
  cn_tree_prepare_compaction pe tree w = Some (MERR_OK, w') ->
  prepare_iterators pe (tn_kvset_list node) (Some (cw_mark w)) (cw_kvset_cnt w) [] =
    Some (MERR_OK, cw_inputv w') /\
  (cw_node w', cw_mark w', cw_kvset_cnt w', cw_err w') =
    (cw_node w, cw_mark w, cw_kvset_cnt w, cw_err w).
Proof.
  intros Hnode Hsplit. unfold cn_tree_prepare_compaction.
  rewrite Hnode. cbn [mbind option_bind].
  rewrite (bool_decide_eq_false_2 (cw_action w = CN_ACTION_SPLIT)) by done.
  cbn [andb negb orb].
  destruct (prepare_iterators pe (tn_kvset_list node) (Some (cw_mark w))
              (cw_kvset_cnt w) []) as [[[|e] ins]|].
  - intros Hp. repeat (case_match; simplify_eq/=; try done).
  - intros Hp. repeat (case_match; simplify_eq/=; try done).
  - intros Hp. repeat (case_match; simplify_eq/=; try done).
Qed.

(** X14.  Preparation and tree update agree on the inputs: when the
    preparation of a k-compact or kv-compact without error succeeds, the
    tree update of the prepared job retires exactly the kvsets of the
    input vector, in the order of the input vector, and the node's new
    list is its old list with the new kvset, if any, in the place of the
    inputs. *)
Theorem update_retires_prepared_inputs {E : cn_iface} (pe : prepare_env)
    (tree : cn_tree) (w w' : cn_compaction_work) (node : cn_tree_node)
    (new_kvset : option kvset) :
  ct_nodes tree !! cw_node w = Some node ->
  cw_action w = CN_ACTION_COMPACT_K \/ cw_action w = CN_ACTION_COMPACT_KV ->
  cw_err w = MERR_OK ->
  (cw_mark w < length (tn_kvset_list node))%nat ->
  (cw_kvset_cnt w <= cw_mark w + 1)%nat ->
  tn_size_max node <> 0 ->
  cn_tree_prepare_compaction pe tree w = Some (MERR_OK, w') ->
  exists out node' front back,
    cn_comp_update_kvcompact tree w' new_kvset = Some out /\
    uo_retired out = cw_inputv w' /\
    tn_kvset_list node = front ++ cw_inputv w' ++ back /\
    ct_nodes (uo_tree out) !! cw_node w = Some node' /\
    tn_kvset_list node' = front ++ option_list new_kvset ++ back.
Proof.
  intros Hnode Hact Herr Hm Hc Hsz Hprep.
  destruct (prepare_ok_inv _ _ _ _ _ Hnode ltac:(by destruct Hact as [-> | ->]) Hprep)
    as [Hit Hsame].
  injection Hsame as Hn' Hm' Hc' He'.
  destruct (window_split (tn_kvset_list node) _ _ Hm Hc) as (Hl & Hlen & Htake).
  set (first := (cw_mark w + 1 - cw_kvset_cnt w)%nat) in *.
  set (front := take first (tn_kvset_list node)) in *.
  set (window := take (cw_kvset_cnt w) (drop first (tn_kvset_list node))) in *.
  set (back := drop (cw_mark w + 1) (tn_kvset_list node)) in *.
  assert (cw_inputv w' = window) as Hin.
  { rewrite Hl in Hit. rewrite <- Hlen, <- (last_entry_take _ _ Hm) in Hit.
    fold window in Hit. rewrite <- Htake in Hit.
    apply prepare_iterators_ok_inv in Hit. by rewrite app_nil_r in Hit. }
  set (node1 :=
         match new_kvset with
         | Some k => tn_set_cgen (tn_set_kvset_list node (front ++ k :: back))
                       (u32 (tn_cgen node + 1))
         | None => tn_set_kvset_list node (front ++ back)
         end).
  destruct (recompute_succeeds node1) as (node2 & Hrec & Hl2);
    [by destruct new_kvset|].
  assert (cw_node w < length (ct_nodes tree))%nat as Hlt by (by eapply lookup_lt_Some).
  eexists _, (busycnt_sub node2 (cw_kvset_cnt w)), front, back.
  split.
  { unfold cn_comp_update_kvcompact. rewrite He', Herr, Hn', Hm', Hc'.
    cbn [merr_is_err]. rewrite Hnode. cbn [mbind option_bind].
    rewrite (kvcompact_retire_window _ _ _ Hm Hc).
    fold first front window back. cbn [mbind option_bind].
    assert (match new_kvset with
            | Some k =>
                tn_set_cgen
                  (tn_set_kvset_list node
                     (kvset_list_add (front ++ back) (list_last_entry front) k))
                  (u32 (tn_cgen node + 1))
            | None => tn_set_kvset_list node (front ++ back)
            end = node1) as ->.
    { unfold node1. destruct new_kvset; [|done]. by rewrite kvset_list_add_last. }
    unfold cn_tree_samp_update_compact. simpl.
    rewrite list_lookup_insert_eq by done. simpl. rewrite Hrec. simpl.
    rewrite list_lookup_insert_eq by (by rewrite length_insert). simpl.
    reflexivity. }
  split; [by rewrite Hin|]. split; [by rewrite Hin|].
  split; [simpl; apply list_lookup_insert_eq; by rewrite !length_insert|].
  simpl. rewrite Hl2. unfold node1. by destruct new_kvset.
Qed.

Lemma update_retires_prepared_inputs_sample :
  ct_nodes Sample.tree3 !! cw_node Sample.tail_work = Some Scenario.leaf /\
  (cw_action Sample.tail_work = CN_ACTION_COMPACT_K \/
   cw_action Sample.tail_work = CN_ACTION_COMPACT_KV) /\
  cw_err Sample.tail_work = MERR_OK /\
  (cw_mark Sample.tail_work < length (tn_kvset_list Scenario.leaf))%nat /\
  (cw_kvset_cnt Sample.tail_work <= cw_mark Sample.tail_work + 1)%nat /\
  tn_size_max Scenario.leaf <> 0 /\
  cn_tree_prepare_compaction Sample.prepare_all_ok Sample.tree3 Sample.tail_work =
    Some (MERR_OK, Sample.tail_work_prepared) /\
  exists out node' front back,
    cn_comp_update_kvcompact (E := Sample.iface) Sample.tree3
      Sample.tail_work_prepared (Some Scenario.k_merged) = Some out /\
    uo_retired out = cw_inputv Sample.tail_work_prepared /\
    tn_kvset_list Scenario.leaf = front ++ cw_inputv Sample.tail_work_prepared ++ back /\
    ct_nodes (uo_tree out) !! cw_node Sample.tail_work = Some node' /\
    tn_kvset_list node' = front ++ option_list (Some Scenario.k_merged) ++ back.
Proof.
  assert (ct_nodes Sample.tree3 !! cw_node Sample.tail_work = Some Scenario.leaf)
    as H1 by reflexivity.
  assert (cw_action Sample.tail_work = CN_ACTION_COMPACT_K \/
          cw_action Sample.tail_work = CN_ACTION_COMPACT_KV) as H2 by (by right).
  assert (cw_err Sample.tail_work = MERR_OK) as H3 by reflexivity.
  assert (cw_mark Sample.tail_work < length (tn_kvset_list Scenario.leaf))%nat
    as H4 by (vm_compute; lia).
  assert (cw_kvset_cnt Sample.tail_work <= cw_mark Sample.tail_work + 1)%nat
    as H5 by (vm_compute; lia).
  assert (tn_size_max Scenario.leaf <> 0) as H6 by (vm_compute; discriminate).
  assert (cn_tree_prepare_compaction Sample.prepare_all_ok Sample.tree3
            Sample.tail_work = Some (MERR_OK, Sample.tail_work_prepared))
    as H7 by reflexivity.
  do 7 (split; [assumption|]).
  exact (update_retires_prepared_inputs (E := Sample.iface) Sample.prepare_all_ok
           Sample.tree3 Sample.tail_work Sample.tail_work_prepared Scenario.leaf
           (Some Scenario.k_merged) H1 H2 H3 H4 H5 H6 H7).
Defined.

(** ** The compaction step *)

Lemma prepare_keeps_status pe tree w err w1 :
  cn_tree_prepare_compaction pe tree w = Some (err, w1) ->
  cw_err w1 = cw_err w /\ cw_canceled w1 = cw_canceled w /\
  cw_action w1 = cw_action w.
Proof.
  unfold cn_tree_prepare_compaction. intros Hp.
  destruct (ct_nodes tree !! cw_node w) as [node|]; [|done]. simpl in Hp.
  repeat (case_match; simplify_eq/=; try done).
  all: destruct (prepare_iterators _ _ _ _ _) as [[[] ins]|];
    simplify_eq/=; try done.
  all: repeat (case_match; simplify_eq/=; try done).
Qed.

Lemma cw_set_status_id w :
  cw_set_status w (cw_err w) (cw_canceled w) = w.
Proof. by destruct w. Qed.

(** X15.  The compaction step on a job that comes without error, when the
    preparation returns: a job that leaves the step canceled carries an
    error; a job that came canceled stays canceled; the job leaves without
    error only if the health check and the preparation succeeded and it
    did not come canceled, and then it is the prepared job with the
    outputs of the merge, if the action has one; a failed health check
    becomes the job's error and the job is not prepared; and a merge that
    ends with ESHUTDOWN while a cancel is requested leaves the job
    canceled with that error. *)
Theorem compact_outcome (ce : compact_env) (tree : cn_tree)
    (w w1 : cn_compaction_work) (err1 : merr_t) :
  cw_err w = MERR_OK ->
  cn_tree_prepare_compaction (ce_prepare ce) tree w = Some (err1, w1) ->
  exists w',
    cn_comp_compact ce tree w = Some w' /\
    (cw_canceled w' = true -> cw_err w' <> MERR_OK) /\
    (cw_canceled w = true -> cw_canceled w' = true) /\
    (cw_err w' = MERR_OK ->
       ce_health_check ce = MERR_OK /\ err1 = MERR_OK /\
       cw_canceled w = false /\
       w' = match cw_action w with
            | CN_ACTION_NONE | CN_ACTION_END => w1
            | _ => cw_set_built w1 (ce_build ce w1)
            end) /\
    (ce_health_check ce <> MERR_OK ->
       cw_err w' = ce_health_check ce /\ cw_inputv w' = cw_inputv w /\
       cw_outv w' = cw_outv w) /\
    (ce_health_check ce = MERR_OK -> err1 = MERR_OK ->
     cw_action w <> CN_ACTION_NONE -> cw_action w <> CN_ACTION_END ->
     bo_err (ce_build ce w1) = merr ESHUTDOWN -> ce_cancel_request ce = true ->
       cw_canceled w' = true /\ cw_err w' = merr ESHUTDOWN).
Proof.
  intros Herr Hprep.
  destruct (prepare_keeps_status _ _ _ _ _ Hprep) as (He1 & Hc1 & Ha1).
  unfold cn_comp_compact. rewrite Herr. cbn [merr_is_err].
  destruct (ce_health_check ce) as [|eh] eqn:Hh.
  - rewrite Hprep. cbn [mbind option_bind].
    destruct err1 as [|e1].
    + set (r := match cw_action w1 with
                | CN_ACTION_NONE | CN_ACTION_END => (MERR_OK, w1)
                | _ => (bo_err (ce_build ce w1), cw_set_built w1 (ce_build ce w1))
                end).
      assert (cw_err r.2 = MERR_OK /\ cw_canceled r.2 = cw_canceled w /\
              r.2 = match cw_action w with
                    | CN_ACTION_NONE | CN_ACTION_END => w1
                    | _ => cw_set_built w1 (ce_build ce w1)
                    end /\
              (cw_action w <> CN_ACTION_NONE -> cw_action w <> CN_ACTION_END ->
               r.1 = bo_err (ce_build ce w1))) as (Hre & Hrc & Hrw & Hrb).
      { unfold r. rewrite Ha1. destruct (cw_action w); simpl; by rewrite ?He1, ?Herr. }
      destruct r as [err w2]. simpl in Hre, Hrc, Hrw, Hrb.
      set (canceled := if bool_decide (merr_errno err = Some ESHUTDOWN) &&
                          ce_cancel_request ce
                       then true else cw_canceled w2).
      eexists. split; [reflexivity|].
      split; [|split; [|split; [|split]]].
      * simpl. intros ->. simpl. by destruct err.
      * intros Hc. simpl. unfold canceled. rewrite Hrc, Hc.
        by destruct (_ && _).
      * simpl. intros Hok.
        destruct canceled eqn:Hcan; simpl in Hok; [by destruct err|].
        split; [done|]. split; [done|].
        assert (cw_canceled w2 = false) as Hw2.
        { unfold canceled in Hcan. by destruct (_ && _). }
        split; [congruence|].
        rewrite <- Hrw. unfold compact_exit. simpl. rewrite Hok.
        rewrite <- Hre, <- Hw2. apply cw_set_status_id.
      * done.
      * intros _ _ Hn He Hb Hreq.
        assert (err = merr ESHUTDOWN) as Herr' by (by rewrite Hrb).
        unfold canceled. rewrite Herr', Hreq. simpl. done.
    + eexists. split; [reflexivity|]. simpl.
      split; [by destruct (cw_canceled w1)|].
      split; [by rewrite Hc1|].
      split; [by destruct (cw_canceled w1)|]. done.
  - eexists. split; [reflexivity|]. simpl.
    split; [by destruct (cw_canceled w)|].
    split; [done|].
    split; [by destruct (cw_canceled w)|].
    split; [|done]. intros _. by destruct (cw_canceled w).
Qed.

Lemma compact_outcome_sample :
  cw_err Sample.tail_work = MERR_OK /\
  cn_tree_prepare_compaction (ce_prepare Scenario.compact_shutdown) Sample.tree3
    Sample.tail_work = Some (MERR_OK, Sample.tail_work_prepared) /\
  exists w',
    cn_comp_compact Scenario.compact_shutdown Sample.tree3 Sample.tail_work =
      Some w' /\
    cw_canceled w' = true /\ cw_err w' = merr ESHUTDOWN.
Proof.
  assert (cw_err Sample.tail_work = MERR_OK) as H1 by reflexivity.
  assert (cn_tree_prepare_compaction (ce_prepare Scenario.compact_shutdown)
            Sample.tree3 Sample.tail_work =
          Some (MERR_OK, Sample.tail_work_prepared)) as H2 by reflexivity.
  do 2 (split; [assumption|]).
  destruct (compact_outcome Scenario.compact_shutdown Sample.tree3 Sample.tail_work
              Sample.tail_work_prepared MERR_OK H1 H2)
    as (w' & Hrun & _ & _ & _ & _ & Hshut).
  exists w'. split; [exact Hrun|].
  apply Hshut; [reflexivity|reflexivity|discriminate|discriminate|reflexivity|reflexivity].
Defined.

(** ** Lookup, both query types *)

Section lookup_order.
Context {E : cn_iface}.

Lemma lookup_node_prefix qtype kt seq n l : forall res seen nk tr,
  match cn_tree_lookup_node qtype kt seq n l res seen nk tr with
  | inl (_, _, nk', tr') =>
      exists j, (1 <= j <= length l)%nat /\
        tr' = tr ++ (pair n <$> take j l) /\ nk' = nk + Z.of_nat j
  | inr (_, _, nk', tr') =>
      tr' = tr ++ (pair n <$> l) /\ nk' = nk + Z.of_nat (length l)
  end.
Proof.
  induction l as [|k l IH]; intros res seen nk tr.
  - simpl. rewrite app_nil_r. split; [done|lia].
  - cbn [cn_tree_lookup_node].
    assert (forall err res' (stop : bool) seen',
      match (if stop
             then inl (err, res', nk + 1, tr ++ [(n, k)])
             else cn_tree_lookup_node qtype kt seq n l res' seen' (nk + 1)
                    (tr ++ [(n, k)])) with
      | inl (_, _, nk', tr') =>
          exists j, (1 <= j <= length (k :: l))%nat /\
            tr' = tr ++ (pair n <$> take j (k :: l)) /\ nk' = nk + Z.of_nat j
      | inr (_, _, nk', tr') =>
          tr' = tr ++ (pair n <$> k :: l) /\
          nk' = nk + Z.of_nat (length (k :: l))
      end) as Hstep.
    { intros err res' stop seen'. destruct stop.
      - exists 1%nat. simpl. rewrite ?take_0. split; [lia|]. split; [done|lia].
      - specialize (IH res' seen' (nk + 1) (tr ++ [(n, k)])).
        destruct (cn_tree_lookup_node qtype kt seq n l res' seen' (nk + 1)
                    (tr ++ [(n, k)])) as [[[[? ?] nk'] tr']|[[[? ?] nk'] tr']].
        + destruct IH as (j & Hj & -> & ->). exists (S j). simpl.
          rewrite <- app_assoc. split; [lia|]. split; [done|lia].
        + destruct IH as [-> ->]. simpl. rewrite <- app_assoc.
          split; [done|lia]. }
    destruct qtype.
    + destruct (kvset_lookup k kt seq) as [err res']. apply Hstep.
    + destruct (kvset_pfx_lookup k kt seq res seen) as [[err res'] seen'].
      apply Hstep.
Qed.

End lookup_order.

(** X16.  A lookup of either query type, on a tree whose route map names
    nodes of the tree other than the root, returns with two units of fuel.
    It counts the kvsets it consulted.  Either it consulted nothing and
    reports the failed allocation of a prefix probe; or it stopped in the
    root, at depth 0, having consulted a non-empty initial part of the
    root's list; or it consulted all of the root's list and the route map
    names no node, at depth 1; or it consulted all of the root's list, then
    an initial part of the list of the node the route map names, at depth
    1. *)
Theorem lookup_visits_root_then_leaf {E : cn_iface} (fuel : nat) (t : cn_tree)
    (qtype : query_type) (kt : key) (seq : Z) (root : cn_tree_node) :
  ct_nodes t !! ct_root = Some root ->
  route_map_lookup kt <> Some ct_root ->
  (forall n, route_map_lookup kt = Some n -> is_Some (ct_nodes t !! n)) ->
  (2 <= fuel)%nat ->
  exists out,
    cn_tree_lookup fuel t qtype kt seq = Some out /\
    lo_nkvset out = Z.of_nat (length (lo_trace out)) /\
    ((qtype = QUERY_PROBE_PFX /\ kvset_wbti_alloc = lo_err out /\
      lo_err out <> MERR_OK /\ lo_nodes out = [] /\ lo_trace out = []) \/
     (lo_nodes out = [ct_root] /\ lo_depth out = 0 /\
      exists j, (1 <= j <= length (tn_kvset_list root))%nat /\
        lo_trace out = pair ct_root <$> take j (tn_kvset_list root)) \/
     (route_map_lookup kt = None /\ lo_err out = MERR_OK /\
      lo_nodes out = [ct_root] /\ lo_depth out = 1 /\
      lo_trace out = pair ct_root <$> tn_kvset_list root) \/
     (exists n leaf j,
        route_map_lookup kt = Some n /\ ct_nodes t !! n = Some leaf /\
        lo_nodes out = [ct_root; n] /\ lo_depth out = 1 /\
        (j <= length (tn_kvset_list leaf))%nat /\
        lo_trace out = (pair ct_root <$> tn_kvset_list root) ++
                       (pair n <$> take j (tn_kvset_list leaf)))).
Proof.
  intros Hroot Hnr Hvalid Hfuel.
  destruct fuel as [|[|fuel]]; [lia..|].
  unfold cn_tree_lookup.
  assert (exists out,
    cn_tree_lookup_descend (S (S fuel)) t qtype kt seq (Some ct_root)
      NOT_FOUND 0 0 0 [] [] = Some out /\
    lo_nkvset out = Z.of_nat (length (lo_trace out)) /\
    ((lo_nodes out = [ct_root] /\ lo_depth out = 0 /\
      exists j, (1 <= j <= length (tn_kvset_list root))%nat /\
        lo_trace out = pair ct_root <$> take j (tn_kvset_list root)) \/
     (route_map_lookup kt = None /\ lo_err out = MERR_OK /\
      lo_nodes out = [ct_root] /\ lo_depth out = 1 /\
      lo_trace out = pair ct_root <$> tn_kvset_list root) \/
     (exists n leaf j,
        route_map_lookup kt = Some n /\ ct_nodes t !! n = Some leaf /\
        lo_nodes out = [ct_root; n] /\ lo_depth out = 1 /\
        (j <= length (tn_kvset_list leaf))%nat /\
        lo_trace out = (pair ct_root <$> tn_kvset_list root) ++
                       (pair n <$> take j (tn_kvset_list leaf))))) as Hdesc.
  { cbn [cn_tree_lookup_descend]. rewrite Hroot. cbn [mbind option_bind].
    pose proof (lookup_node_prefix qtype kt seq ct_root (tn_kvset_list root)
                  NOT_FOUND 0 0 []) as Hn.
    destruct (cn_tree_lookup_node qtype kt seq ct_root (tn_kvset_list root)
                NOT_FOUND 0 0 []) as [[[[err res'] nk'] tr']|[[[res' seen'] nk'] tr']].
    - destruct Hn as (j & Hj & -> & ->).
      eexists. split; [reflexivity|]. simpl.
      split; [rewrite length_fmap, length_take; lia|].
      left. split; [done|]. split; [done|]. exists j. split; [lia|done].
    - destruct Hn as [-> ->]. simpl. rewrite !Z.add_0_l.
      destruct (route_map_lookup kt) as [n|] eqn:Hroute.
      + destruct (Hvalid n eq_refl) as [leaf Hleaf]. rewrite Hleaf.
        cbn [mbind option_bind].
        pose proof (lookup_node_prefix qtype kt seq n (tn_kvset_list leaf)
                      res' seen' (Z.of_nat (length (tn_kvset_list root)))
                      (pair ct_root <$> tn_kvset_list root)) as Hl.
        destruct (cn_tree_lookup_node qtype kt seq n (tn_kvset_list leaf) res' seen'
                    (Z.of_nat (length (tn_kvset_list root)))
                    (pair ct_root <$> tn_kvset_list root))
          as [[[[err res''] nk''] tr'']|[[[res'' seen''] nk''] tr'']].
        * destruct Hl as (j & Hj & -> & ->).
          eexists. split; [reflexivity|]. simpl.
          split; [rewrite length_app, !length_fmap, length_take; lia|].
          right. right. exists n, leaf, j. repeat (split; [done || lia|]). done.
        * destruct Hl as [-> ->].
          assert (negb (bool_decide (n = ct_root)) = true) as ->.
          { apply negb_true_iff, bool_decide_eq_false. congruence. }
          eexists. split; [reflexivity|]. simpl.
          split; [rewrite length_app, !length_fmap; lia|].
          right. right. exists n, leaf, (length (tn_kvset_list leaf)).
          repeat (split; [done || lia|]). by rewrite firstn_all.
      + eexists. split; [reflexivity|]. simpl.
        split; [rewrite length_fmap; lia|].
        right. left. done. }
  destruct Hdesc as (out & Hout & Hnk & Hshape).
  destruct qtype.
  - exists out. split; [by destruct kvset_wbti_alloc|]. split; [done|]. by right.
  - destruct kvset_wbti_alloc as [|e] eqn:Halloc.
    + exists out. split; [done|]. split; [done|]. by right.
    + eexists. split; [reflexivity|]. simpl. split; [done|]. left. done.
Qed.

Lemma lookup_visits_root_then_leaf_sample :
  ct_nodes Sample.tree3 !! ct_root = Some Sample.root3 /\
  route_map_lookup (cn_iface := Sample.iface) [100] <> Some ct_root /\
  (forall n, route_map_lookup (cn_iface := Sample.iface) [100] = Some n ->
             is_Some (ct_nodes Sample.tree3 !! n)) /\
  (2 <= 2)%nat /\
  exists out,
    cn_tree_lookup (E := Sample.iface) 2 Sample.tree3 QUERY_PROBE_PFX [100] 9 =
      Some out /\
    lo_nkvset out = Z.of_nat (length (lo_trace out)) /\
    lo_nodes out = [ct_root; 1%nat] /\ lo_nkvset out = 5.
Proof.
  assert (ct_nodes Sample.tree3 !! ct_root = Some Sample.root3) as H1 by reflexivity.
  assert (route_map_lookup (cn_iface := Sample.iface) [100] <> Some ct_root)
    as H2 by discriminate.
  assert (forall n, route_map_lookup (cn_iface := Sample.iface) [100] = Some n ->
                    is_Some (ct_nodes Sample.tree3 !! n)) as H3.
  { intros n Hn. injection Hn as <-. by eexists. }
  assert (2 <= 2)%nat as H4 by lia.
  do 4 (split; [assumption|]).
  destruct (lookup_visits_root_then_leaf (E := Sample.iface) 2 Sample.tree3
              QUERY_PROBE_PFX [100] 9 Sample.root3 H1 H2 H3 H4)
    as (out & Hrun & Hnk & _).
  exists out. split; [exact Hrun|]. split; [exact Hnk|].
  vm_compute in Hrun. injection Hrun as <-. split; reflexivity.
Defined.

(** ** Ingest, then get *)

Lemma ingest_frame_inv {E : cn_iface} t n t' :
  cn_tree_samp_update_ingest t n = Some t' ->
  tn_samp_clear <$> ct_nodes t' = tn_samp_clear <$> ct_nodes t /\
  (forall m, m <> n -> ct_nodes t' !! m = ct_nodes t !! m) /\
  (ct_capped t', ct_last_ptseq t', ct_last_ptlen t', ct_last_ptomb t') =
    (ct_capped t, ct_last_ptseq t, ct_last_ptlen t, ct_last_ptomb t).
Proof.
  unfold cn_tree_samp_update_ingest.
  destruct (ct_nodes t !! n) as [tn|] eqn:Hn; [|done]. simpl.
  destruct (tn_kvset_list tn) as [|k l]; [intros [= <-]; done|].
  destruct (clear_after_incr tn k false) as [Hclear _].
  destruct (tn_samp_update_incr tn k false) as [tn1 b]. simpl in Hclear.
  destruct b.
  - destruct (tn_samp_update_finish tn1) as [tn'|] eqn:Hfin; [|done].
    destruct (clear_after_finish _ _ Hfin) as [Hclear' _].
    simpl. intros [= <-]. simpl.
    split; [apply (fmap_insert_same _ _ _ tn); [done|congruence]|].
    split; [|done]. intros m Hm. by rewrite list_lookup_insert_ne.
  - simpl. intros [= <-]. simpl.
    split; [by apply (fmap_insert_same _ _ _ tn)|].
    split; [|done]. intros m Hm. by rewrite list_lookup_insert_ne.
Qed.

Lemma ingest_update_inv {E : cn_iface} t k ptomb ptlen ptseq t' d :
  cn_tree_ingest_update t k ptomb ptlen ptseq = Some (t', d) ->
  exists root root',
    ct_nodes t !! ct_root = Some root /\
    ct_nodes t' !! ct_root = Some root' /\
    tn_kvset_list root' = k :: tn_kvset_list root /\
    (forall n, n <> ct_root -> ct_nodes t' !! n = ct_nodes t !! n).
Proof.
  unfold cn_tree_ingest_update.
  destruct (ct_nodes t !! ct_root) as [root|] eqn:Hroot; [|done].
  cbn [mbind option_bind].
  set (root2 := tn_set_cgen _ _).
  set (tree2 := if ct_capped _ then _ else _).
  assert (ct_nodes tree2 = <[ct_root := root2]> (ct_nodes t)) as Hnodes2.
  { unfold tree2. simpl. by destruct (ct_capped t). }
  destruct (cn_tree_samp_update_ingest tree2 ct_root) as [tree3|] eqn:Hing; [|done].
  simpl. intros [= <- <-].
  destruct (ingest_frame_inv _ _ _ Hing) as (Hframe & Hother & _).
  assert (ct_nodes tree2 !! ct_root = Some root2) as Hr2.
  { rewrite Hnodes2. apply list_lookup_insert_eq. by eapply lookup_lt_Some. }
  destruct (frame_lookup _ _ _ _ Hframe Hr2) as (root' & Hr' & Hclear).
  exists root, root'. split; [done|]. split; [done|]. split.
  - by apply (f_equal tn_kvset_list) in Hclear.
  - intros n Hn. rewrite (Hother n Hn), Hnodes2. by rewrite list_lookup_insert_ne.
Qed.

(** X17.  A point get after an ingest.  When the ingested kvset answers
    the get (a value, a tombstone or an error), the get returns that answer
    from the root having consulted that kvset alone.  When it has nothing
    for the key, the get returns what it returned before the ingest, having
    consulted the new kvset first and then the same kvsets as before. *)
Theorem get_after_ingest {E : cn_iface} (fuel : nat) (t t' : cn_tree)
    (k : kvset) (ptomb : list Z) (ptlen ptseq : Z) (d : Z * Z)
    (kt : key) (seq : Z) :
  cn_tree_ingest_update t k ptomb ptlen ptseq = Some (t', d) ->
  route_map_lookup kt <> Some ct_root ->
  cn_tree_lookup (S fuel) t' QUERY_GET kt seq =
    if get_stops kt seq k
    then Some (mk_lookup_out (kvset_lookup k kt seq).1 (kvset_lookup k kt seq).2
                 0 1 [ct_root] [(ct_root, k)])
    else consulted_first (ct_root, k) <$> cn_tree_lookup (S fuel) t QUERY_GET kt seq.
Proof.
  intros Hing Hnr.
  destruct (ingest_update_inv _ _ _ _ _ _ _ Hing) as (root & root' & Hr & Hr' & Hl & Hother).
  assert (forall tr, cn_tree_lookup (S fuel) tr QUERY_GET kt seq =
          cn_tree_lookup_descend (S fuel) tr QUERY_GET kt seq (Some ct_root)
            NOT_FOUND 0 0 0 [] []) as Hlk
    by (intros tr; unfold cn_tree_lookup; by destruct kvset_wbti_alloc).
  rewrite !Hlk. cbn [cn_tree_lookup_descend].
  rewrite Hr, Hr'. cbn [mbind option_bind]. rewrite Hl.
  rewrite !lookup_node_get. cbn [first_stop walked].
  destruct (get_stops kt seq k) eqn:Hk; [done|].
  destruct (first_stop (get_stops kt seq) (tn_kvset_list root)) as [k1|] eqn:Hfs.
  - simpl. unfold consulted_first. simpl. do 2 f_equal. lia.
  - cbn [negb bool_decide decide_rel]. rewrite bool_decide_eq_true_2 by done.
    cbn [negb].
    assert (match tn_kvset_list root with [] => NOT_FOUND | _ :: _ => NOT_FOUND end
            = NOT_FOUND) as -> by (by destruct (tn_kvset_list root)).
    destruct (route_map_lookup kt) as [n|] eqn:Hroute.
    + destruct fuel as [|fuel]; [done|].
      cbn [cn_tree_lookup_descend].
      rewrite (Hother n) by congruence.
      destruct (ct_nodes t !! n) as [leaf|]; [|done].
      cbn [mbind option_bind]. rewrite !lookup_node_get.
      assert (negb (bool_decide (n = ct_root)) = true) as ->.
      { apply negb_true_iff, bool_decide_eq_false. congruence. }
      destruct (first_stop (get_stops kt seq) (tn_kvset_list leaf)) as [k2|].
      * simpl. unfold consulted_first. simpl. do 2 f_equal.
        rewrite ?length_cons; lia.
      * simpl. unfold consulted_first. simpl. do 2 f_equal.
        rewrite ?length_cons; lia.
    + destruct fuel; simpl; unfold consulted_first; simpl; do 2 f_equal;
        rewrite ?length_cons; lia.
Qed.

Lemma get_after_ingest_sample :
  cn_tree_ingest_update (E := Sample.iface) Sample.tree3_init Sample.k_ingest [] 0 0 =
    Some (Scenario.ingested.1, Scenario.ingested.2) /\
  route_map_lookup (cn_iface := Sample.iface) [105] <> Some ct_root /\
  cn_tree_lookup (E := Sample.iface) 2 Scenario.ingested.1 QUERY_GET [105] 9 =
    Some (mk_lookup_out MERR_OK FOUND_VAL 0 1 [ct_root] [(ct_root, Sample.k_ingest)]).
Proof.
  assert (cn_tree_ingest_update (E := Sample.iface) Sample.tree3_init
            Sample.k_ingest [] 0 0 =
          Some (Scenario.ingested.1, Scenario.ingested.2)) as H1
    by (vm_compute; reflexivity).
  assert (route_map_lookup (cn_iface := Sample.iface) [105] <> Some ct_root)
    as H2 by discriminate.
  do 2 (split; [assumption|]).
  exact (get_after_ingest (E := Sample.iface) 1 Sample.tree3_init
           Scenario.ingested.1 Sample.k_ingest [] 0 0 Scenario.ingested.2
           [105] 9 H1 H2).
Defined.

(** X18.  What an ingest keeps.  The tree total stays the sum of the node
    samp records; the root's list stays ordered by dgen when the new kvset
    is newer than all of the root's; in a capped tree the remembered ptomb
    becomes the ingested one - its seqno, its length, and its bytes as the
    trimmer reads them back - and in any other tree the remembered ptomb
    is not touched; and the two numbers handed to the scheduler are the
    growth of the root's allocated and written length in the tree total. *)
Theorem ingest_keeps_invariants {E : cn_iface} (t t' : cn_tree) (k : kvset)
    (ptomb : list Z) (ptlen ptseq : Z) (d : Z * Z) :
  cn_tree_ingest_update t k ptomb ptlen ptseq = Some (t', d) ->
  (tree_samp_ok t -> tree_samp_ok t') /\
  (forall root root',
     ct_nodes t !! ct_root = Some root -> ct_nodes t' !! ct_root = Some root' ->
     dgen_sorted (tn_kvset_list root) ->
     Forall (λ e, kvset_get_dgen e < kvset_get_dgen k) (tn_kvset_list root) ->
     dgen_sorted (tn_kvset_list root')) /\
  (ct_capped t = true -> (Z.to_nat ptlen <= length ptomb)%nat ->
     ct_last_ptseq t' = ptseq /\ ct_last_ptlen t' = ptlen /\
     take (Z.to_nat (ct_last_ptlen t')) (ct_last_ptomb t') =
       take (Z.to_nat ptlen) ptomb) /\
  (ct_capped t = false ->
     (ct_last_ptseq t', ct_last_ptlen t', ct_last_ptomb t') =
       (ct_last_ptseq t, ct_last_ptlen t, ct_last_ptomb t)) /\
  ct_capped t' = ct_capped t /\
  d = (s64 (r_alen (ct_samp t') - r_alen (ct_samp t)),
       s64 (r_wlen (ct_samp t') - r_wlen (ct_samp t))).
Proof.
  intros Hing.
  destruct (ingest_update_inv _ _ _ _ _ _ _ Hing) as (root0 & root0' & Hr & Hr' & Hl & _).
  revert Hing. unfold cn_tree_ingest_update. rewrite Hr. cbn [mbind option_bind].
  set (root2 := tn_set_cgen _ _).
  set (tree1 := ct_set_nodes t (<[ct_root := root2]> (ct_nodes t))).
  set (tree2 := if ct_capped tree1 then _ else tree1).
  assert (ct_nodes tree2 = ct_nodes tree1 /\ ct_samp tree2 = ct_samp t /\
          ct_capped tree2 = ct_capped t) as (Hn2 & Hs2 & Hc2).
  { unfold tree2, tree1. simpl. destruct (ct_capped t) eqn:Hc; simpl; by rewrite ?Hc. }
  destruct (cn_tree_samp_update_ingest tree2 ct_root) as [tree3|] eqn:Hupd; [|done].
  simpl. intros [= <- <-].
  destruct (ingest_frame_inv _ _ _ Hupd) as (_ & _ & Hpt).
  injection Hpt as Hcap Hseq Hlen Hbuf.
  split.
  { intros Hok. eapply ingest_preserves_total; [|exact Hupd].
    unfold tree_samp_ok. rewrite Hn2, Hs2. simpl.
    by rewrite (fmap_insert_same _ _ _ root0). }
  split.
  { intros root root' Hroot Hroot' Hsorted Hnew.
    assert (root = root0) as -> by congruence.
    assert (root' = root0') as -> by congruence.
    rewrite Hl. simpl. done. }
  split.
  { intros Hcapped Hfit. rewrite Hseq, Hlen, Hbuf. unfold tree2, tree1. simpl.
    rewrite Hcapped. simpl. split; [done|]. split; [done|].
    unfold memcpy. rewrite take_app_le by (rewrite length_take; lia).
    rewrite take_take. f_equal. lia. }
  split.
  { intros Hcapped. rewrite Hseq, Hlen, Hbuf. unfold tree2, tree1. simpl.
    by rewrite Hcapped. }
  split; [by rewrite Hcap, Hc2|].
  unfold cn_tree_samp. by rewrite Hs2.
Qed.

Lemma ingest_keeps_invariants_sample :
  cn_tree_ingest_update (E := Sample.iface) Sample.tree3_init Sample.k_ingest [98] 1 7 =
    Some (Scenario.ingested_pt.1, Scenario.ingested_pt.2) /\
  ct_last_ptseq Scenario.ingested_pt.1 = 7 /\
  ct_last_ptlen Scenario.ingested_pt.1 = 1 /\
  take (Z.to_nat (ct_last_ptlen Scenario.ingested_pt.1))
    (ct_last_ptomb Scenario.ingested_pt.1) = take (Z.to_nat 1) [98].
Proof.
  assert (cn_tree_ingest_update (E := Sample.iface) Sample.tree3_init
            Sample.k_ingest [98] 1 7 =
          Some (Scenario.ingested_pt.1, Scenario.ingested_pt.2)) as H1
    by (vm_compute; reflexivity).
  split; [exact H1|].
  destruct (ingest_keeps_invariants (E := Sample.iface) Sample.tree3_init
              Scenario.ingested_pt.1 Sample.k_ingest [98] 1 7
              Scenario.ingested_pt.2 H1) as (_ & _ & Hpt & _).
  apply Hpt; [reflexivity|simpl; lia].
Defined.

(** ** Node ids of a split *)

Lemma check_valid_kvsets_spec w r : forall i,
  (i + r <= length (cw_kvsetidv w))%nat ->
  check_valid_kvsets w i r =
  Some (bool_decide (Exists (λ id, id <> 0) (take r (drop i (cw_kvsetidv w))))).
Proof.
  induction r as [|r IH]; intros i Hlen.
  - cbn [check_valid_kvsets]. by f_equal.
  - cbn [check_valid_kvsets].
    destruct (lookup_lt_is_Some_2 (cw_kvsetidv w) i ltac:(lia)) as [id Hid].
    rewrite Hid. cbn [mbind option_bind].
    rewrite (drop_S _ _ _ Hid). cbn [take].
    destruct (Z.eqb_spec id 0) as [->|Hne]; cbn [negb].
    + rewrite IH by lia. f_equal. apply bool_decide_ext.
      rewrite Exists_cons. tauto.
    + rewrite bool_decide_eq_true_2; [done|]. by apply Exists_cons_hd.
Qed.

(** X19.  The node ids of a split, for a job whose kvset id vector has an
    entry for each output.  A half of the outputs gets a freshly minted id
    exactly when it has an output with a kvset id other than 0, else the
    invalid id; the left half is served first; as many ids are minted as
    there are such halves.  So, when the minted ids are valid and the job
    has no more than twice [cw_kvset_cnt] outputs, the id commit picks for
    an output with a kvset id, entry [i / cw_kvset_cnt], is a valid one. *)
Theorem split_nodeids_minted_for_valid_halves (invalid : Z) (mint : nat -> Z)
    (minted : nat) (w : cn_compaction_work) :
  let outc := Z.to_nat (cw_outc w) in
  let cnt := cw_kvset_cnt w in
  (cnt <= outc)%nat ->
  (outc <= length (cw_kvsetidv w))%nat ->
  let left := bool_decide (Exists (λ id, id <> 0) (take cnt (cw_kvsetidv w))) in
  let right :=
    bool_decide (Exists (λ id, id <> 0)
                   (take (outc - cnt) (drop cnt (cw_kvsetidv w)))) in
  exists ids minted',
    cn_split_nodeids_get invalid mint minted w = Some (ids, minted') /\
    ids.1 = (if left then mint minted else invalid) /\
    ids.2 = (if right then mint (minted + (if left then 1 else 0))%nat
             else invalid) /\
    minted' = (minted + (if left then 1 else 0) + (if right then 1 else 0))%nat /\
    ((forall n, mint n <> invalid) -> (outc <= 2 * cnt)%nat ->
     forall i id, (i < outc)%nat -> cw_kvsetidv w !! i = Some id -> id <> 0 ->
       (if decide (i / cnt = 0)%nat then ids.1 else ids.2) <> invalid).
Proof.
  intros outc cnt Hcnt Hlen left right.
  unfold cn_split_nodeids_get. fold outc cnt.
  rewrite (check_valid_kvsets_spec w cnt 0) by lia.
  rewrite (check_valid_kvsets_spec w (outc - cnt) cnt) by lia.
  rewrite drop_0. fold left right.
  eexists _, _. split; [reflexivity|]. cbn [fst snd].
  split; [done|].
  split; [destruct left, right; simpl; rewrite ?Nat.add_0_r, ?Nat.add_1_r; done|].
  split; [destruct left, right; simpl; lia|].
  intros Hmint Hout i id Hi Hid Hne.
  assert (cnt <> 0)%nat as Hc0 by lia.
  destruct (decide (i / cnt = 0)%nat) as [Hdiv|Hdiv].
  - assert (i < cnt)%nat as Hlt by (by apply Nat.div_small_iff).
    assert (left = true) as ->; [|apply Hmint].
    apply bool_decide_eq_true_2, Exists_exists. exists id. split; [|done].
    apply (list_elem_of_lookup_2 _ i). by rewrite lookup_take_lt.
  - assert (cnt <= i)%nat as Hge.
    { destruct (Nat.lt_ge_cases i cnt) as [Hlt|]; [|done].
      by apply Nat.div_small_iff in Hlt. }
    assert (right = true) as ->; [|destruct left; apply Hmint].
    apply bool_decide_eq_true_2, Exists_exists. exists id. split; [|done].
    apply (list_elem_of_lookup_2 _ (i - cnt)%nat).
    rewrite lookup_take_lt by lia. rewrite lookup_drop.
    rewrite <- Hid. f_equal. lia.
Qed.

Lemma split_nodeids_minted_for_valid_halves_sample :
  (cw_kvset_cnt Scenario.split_job <= Z.to_nat (cw_outc Scenario.split_job))%nat /\
  (Z.to_nat (cw_outc Scenario.split_job)
     <= length (cw_kvsetidv Scenario.split_job))%nat /\
  exists ids minted',
    cn_split_nodeids_get (-1) (λ n, 100 + Z.of_nat n) 0 Scenario.split_job =
      Some (ids, minted') /\
    ids.1 = -1 /\ ids.2 = 100 /\ minted' = 1%nat.
Proof.
  assert (cw_kvset_cnt Scenario.split_job
            <= Z.to_nat (cw_outc Scenario.split_job))%nat as H1
    by (vm_compute; lia).
  assert (Z.to_nat (cw_outc Scenario.split_job)
            <= length (cw_kvsetidv Scenario.split_job))%nat as H2
    by (vm_compute; lia).
  do 2 (split; [assumption|]).
  destruct (split_nodeids_minted_for_valid_halves (-1) (λ n, 100 + Z.of_nat n) 0
              Scenario.split_job H1 H2) as (ids & minted' & Hrun & Hl & Hr & Hm & _).
  exists ids, minted'. split; [exact Hrun|].
  split; [exact Hl|]. split; [exact Hr|exact Hm].
Defined.

(** ** Commit *)

Lemma commit_done_facts {E : cn_iface} tree0 tree w err retired nak kvsets :
  let out := commit_done tree w err retired nak kvsets in
  (err <> MERR_OK -> tree = tree0 -> retired = [] ->
     co_tree out = tree0 /\ co_retired out = []) /\
  (cw_err (co_work out) = err) /\
  (err = MERR_OK -> co_nak out = false /\ co_released out = []) /\
  (co_nak out = true -> nak = true /\ err <> MERR_OK).
Proof.
  simpl. split; [by intros _ -> ->|]. split; [done|].
  split; [by intros ->|]. destruct err, nak; done.
Qed.

(** X20.  A commit that is no split and ends with an error has changed
    nothing in the tree and retired nothing; a commit that ends without
    error has nak'ed no transaction and given back no opened kvset; a
    transaction is nak'ed only when the job came without error, the
    transaction was started, and the commit failed after that; and a job
    that comes with an error is handed back as it is. *)
Theorem commit_failure_changes_nothing {E : cn_iface} (cm : commit_env)
    (minted : nat) (tree : cn_tree) (w : cn_compaction_work) (out : commit_out) :
  cw_action w <> CN_ACTION_SPLIT ->
  cn_comp_commit cm minted tree w = Some out ->
  (cw_err (co_work out) <> MERR_OK ->
     co_tree out = tree /\ co_retired out = []) /\
  (cw_err (co_work out) = MERR_OK ->
     co_nak out = false /\ co_released out = []) /\
  (co_nak out = true ->
     cw_err w = MERR_OK /\ cm_txstart cm = MERR_OK /\
     cw_err (co_work out) <> MERR_OK) /\
  (cw_err w <> MERR_OK -> out = mk_commit_out tree w [] false []).
Proof.
  intros Hsplit. unfold cn_comp_commit.
  destruct (cw_err w) as [|e0] eqn:Herr; cbn [merr_is_err];
    [|intros [= <-]; simpl; rewrite Herr; done].
  rewrite (bool_decide_eq_false_2 (cw_action w = CN_ACTION_SPLIT)) by done.
  destruct (if bool_decide (cw_action w = CN_ACTION_COMPACT_K)
            then out0 ← cw_outv w !! 0%nat; Some (kblks_n_blks out0 =? 0)
            else Some false) as [skip|]; [|done].
  cbn [mbind option_bind].
  destruct (negb skip && negb (cm_calloc_cookiev cm));
    [intros [= <-]; done|].
  destruct (negb (cm_calloc_kvsets cm)); [intros [= <-]; done|].
  destruct (ct_nodes tree !! cw_node w) as [node|]; [|done].
  cbn [mbind option_bind].
  destruct (if bool_decide (cw_action w = CN_ACTION_COMPACT_K)
            then commit_vbsets (tn_kvset_list node) (Some (cw_mark w)) (cw_kvset_cnt w)
            else Some ()) as [[]|]; [|done].
  cbn [mbind option_bind].
  destruct (cm_txstart cm) as [|et] eqn:Htx.
  2:{ intros [= <-].
      pose proof (commit_done_facts tree tree w (merr et) [] false
                    (replicate (Z.to_nat (cw_outc w)) None)) as (H1 & H2 & H3 & H4).
      rewrite H2. split; [intros _; by apply H1|]. split; [done|].
      split; [|done]. intros Hn. by destruct (H4 Hn). }
  cbn [mbind option_bind fmap option_fmap option_map].
  destruct (commit_outputs cm tree w skip (0, 0) 0 (Z.to_nat (cw_outc w))
              (replicate (Z.to_nat (cw_outc w)) None)) as [[err1 kvsets]|]; [|done].
  cbn [mbind option_bind].
  assert (forall err retired tree',
    (err = MERR_OK \/ (tree' = tree /\ retired = [])) ->
    let out := commit_done tree' w err retired true kvsets in
    (cw_err (co_work out) <> MERR_OK ->
       co_tree out = tree /\ co_retired out = []) /\
    (cw_err (co_work out) = MERR_OK ->
       co_nak out = false /\ co_released out = []) /\
    (co_nak out = true ->
       MERR_OK = MERR_OK /\ MERR_OK = MERR_OK /\
       cw_err (co_work out) <> MERR_OK) /\
    (MERR_OK <> MERR_OK -> out = mk_commit_out tree w [] false [])) as Hdone.
  { intros err retired tree' Hcase. simpl.
    split; [intros Hne; by destruct Hcase as [->|[-> ->]]|].
    split; [by intros ->|]. split; [by destruct err|done]. }
  destruct (merr_is_err err1) eqn:He1;
    [intros [= <-]; apply Hdone; by right|].
  destruct (commit_delete_log cm (tn_kvset_list node) (Some (cw_mark w))
              (cw_kvset_cnt w)) as [err2|]; [|done].
  cbn [mbind option_bind].
  destruct (merr_is_err err2) eqn:He2;
    [intros [= <-]; apply Hdone; by right|].
  destruct (commit_acks cm w 0 (Z.to_nat (cw_outc w))) as [err3|]; [|done].
  cbn [mbind option_bind].
  destruct (merr_is_err err3) eqn:He3;
    [intros [= <-]; apply Hdone; by right|].
  destruct (cw_action w); try done.
  - intros [= <-]. apply Hdone. by left.
  - destruct (kvsets !! 0%nat) as [k0|]; [|done]. cbn [mbind option_bind].
    destruct (cn_comp_update_kvcompact tree w k0) as [uo|]; [|done].
    intros [= <-]. apply Hdone. by left.
  - destruct (kvsets !! 0%nat) as [k0|]; [|done]. cbn [mbind option_bind].
    destruct (cn_comp_update_kvcompact tree w k0) as [uo|]; [|done].
    intros [= <-]. apply Hdone. by left.
  - destruct (cn_comp_update_spill tree w kvsets) as [uo|]; [|done].
    intros [= <-]. apply Hdone. by left.
  - intros [= <-]. apply Hdone. by left.
Qed.

Lemma commit_failure_changes_nothing_sample :
  cw_action Sample.tail_work <> CN_ACTION_SPLIT /\
  cn_comp_commit (E := Sample.iface) Scenario.commit_open_fails 0 Sample.tree3
    Sample.tail_work =
    Some (mk_commit_out Sample.tree3
            (cw_set_status Sample.tail_work (merr ENOMEM) false) [] true []) /\
  co_tree (mk_commit_out Sample.tree3
             (cw_set_status Sample.tail_work (merr ENOMEM) false) [] true []) =
    Sample.tree3.
Proof.
  assert (cw_action Sample.tail_work <> CN_ACTION_SPLIT) as H1 by discriminate.
  assert (cn_comp_commit (E := Sample.iface) Scenario.commit_open_fails 0
            Sample.tree3 Sample.tail_work =
          Some (mk_commit_out Sample.tree3
                  (cw_set_status Sample.tail_work (merr ENOMEM) false) [] true []))
    as H2 by (vm_compute; reflexivity).
  do 2 (split; [assumption|]).
  destruct (commit_failure_changes_nothing (E := Sample.iface)
              Scenario.commit_open_fails 0 Sample.tree3 Sample.tail_work _ H1 H2)
    as (Hfail & _).
  apply Hfail. discriminate.
Defined.

Lemma walk_window_app {A} (step : list kvset -> option nat -> nat -> option A)
    (base : A) (ok : kvset -> bool) :
  (forall l le, step l le 0%nat = Some base) ->
  (forall l i k r, l !! i = Some k -> ok k = true ->
     step l (Some i) (S r) = step l (list_prev_entry (Some i)) r) ->
  forall window front back,
    Forall (λ k, ok k = true) window ->
    step (front ++ window ++ back) (list_last_entry (front ++ window))
      (length window) = Some base.
Proof.
  intros Hbase Hstep.
  induction window as [|k window IH] using rev_ind; intros front back Hok.
  - apply Hbase.
  - apply Forall_app in Hok as [Hok Hk]. rewrite Forall_singleton in Hk.
    rewrite length_app, Nat.add_1_r.
    rewrite (app_assoc front window [k]).
    destruct (list_last_entry_snoc (front ++ window) k) as [Hlast Hprev].
    rewrite Hlast in Hprev. rewrite Hlast.
    assert (front ++ (window ++ [k]) ++ back = (front ++ window) ++ k :: back) as Hl
      by (by rewrite <- !app_assoc).
    rewrite Hl, (Hstep _ _ k); [|by apply list_lookup_middle|done].
    rewrite Hprev.
    assert ((front ++ window) ++ k :: back = front ++ window ++ [k] ++ back) as ->
      by (by rewrite <- !app_assoc).
    by apply IH.
Qed.

Lemma commit_delete_log_window cm (l : list kvset) (m cnt : nat) :
  (m < length l)%nat -> (cnt <= m + 1)%nat ->
  Forall (λ k, cm_delete_log cm k = MERR_OK) (take cnt (drop (m + 1 - cnt) l)) ->
  commit_delete_log cm l (Some m) cnt = Some MERR_OK.
Proof.
  intros Hm Hc Hok.
  destruct (window_split l m cnt Hm Hc) as (Hl & Hlen & Htake).
  pose proof (walk_window_app (commit_delete_log cm) MERR_OK
                (λ k, bool_decide (cm_delete_log cm k = MERR_OK))) as H.
  specialize (H ltac:(done)).
  assert (forall l' i k r, l' !! i = Some k ->
            bool_decide (cm_delete_log cm k = MERR_OK) = true ->
            commit_delete_log cm l' (Some i) (S r) =
            commit_delete_log cm l' (list_prev_entry (Some i)) r) as Hstep.
  { intros l' i k r Hk Hokk. apply bool_decide_eq_true in Hokk.
    cbn [commit_delete_log mbind option_bind]. rewrite Hk.
    cbn [mbind option_bind]. by rewrite Hokk. }
  specialize (H Hstep (take cnt (drop (m + 1 - cnt) l)) (take (m + 1 - cnt) l)
                (drop (m + 1) l)).
  rewrite <- Hl, Hlen, Htake, (last_entry_take _ _ Hm) in H. apply H.
  eapply Forall_impl; [exact Hok|]. intros k Hk. by apply bool_decide_eq_true_2.
Qed.

Lemma commit_vbsets_window (l : list kvset) (m cnt : nat) :
  (m < length l)%nat -> (cnt <= m + 1)%nat ->
  commit_vbsets l (Some m) cnt = Some ().
Proof.
  intros Hm Hc.
  destruct (window_split l m cnt Hm Hc) as (Hl & Hlen & Htake).
  pose proof (walk_window_app commit_vbsets () (λ _, true)) as H.
  specialize (H ltac:(done)).
  assert (forall l' i k r, l' !! i = Some k -> true = true ->
            commit_vbsets l' (Some i) (S r) =
            commit_vbsets l' (list_prev_entry (Some i)) r) as Hstep.
  { intros l' i k r Hk _. cbn [commit_vbsets mbind option_bind]. by rewrite Hk. }
  specialize (H Hstep (take cnt (drop (m + 1 - cnt) l)) (take (m + 1 - cnt) l)
                (drop (m + 1) l)).
  rewrite <- Hl, Hlen, Htake, (last_entry_take _ _ Hm) in H. apply H.
  by apply Forall_true.
Qed.

Lemma update_kvcompact_runs {E : cn_iface} tree w new_kvset node :
  cw_err w = MERR_OK ->
  ct_nodes tree !! cw_node w = Some node ->
  (cw_mark w < length (tn_kvset_list node))%nat ->
  (cw_kvset_cnt w <= cw_mark w + 1)%nat ->
  tn_size_max node <> 0 ->
  exists out node',
    cn_comp_update_kvcompact tree w new_kvset = Some out /\
    uo_retired out =
      take (cw_kvset_cnt w)
        (drop (cw_mark w + 1 - cw_kvset_cnt w) (tn_kvset_list node)) /\
    ct_nodes (uo_tree out) = <[cw_node w := node']> (ct_nodes tree) /\
    tn_kvset_list node' =
      take (cw_mark w + 1 - cw_kvset_cnt w) (tn_kvset_list node) ++
      option_list new_kvset ++ drop (cw_mark w + 1) (tn_kvset_list node) /\
    (tn_compacting node', tn_rspills node', tn_rspills_wedged node',
     tn_size_max node', tn_nodeid node', tn_isroot node') =
    (tn_compacting node, tn_rspills node, tn_rspills_wedged node,
     tn_size_max node, tn_nodeid node, tn_isroot node).
Proof.
  intros Herr Hnode Hm Hc Hsz.
  destruct (window_split (tn_kvset_list node) _ _ Hm Hc) as (Hl & Hlen & Htake).
  set (first := (cw_mark w + 1 - cw_kvset_cnt w)%nat) in *.
  set (front := take first (tn_kvset_list node)) in *.
  set (window := take (cw_kvset_cnt w) (drop first (tn_kvset_list node))) in *.
  set (back := drop (cw_mark w + 1) (tn_kvset_list node)) in *.
  set (node1 :=
         match new_kvset with
         | Some k => tn_set_cgen (tn_set_kvset_list node (front ++ k :: back))
                       (u32 (tn_cgen node + 1))
         | None => tn_set_kvset_list node (front ++ back)
         end).
  destruct (recompute_succeeds node1) as (node2 & Hrec & Hl2);
    [by destruct new_kvset|].
  destruct (recompute_frame _ _ Hrec) as [Hclear _].
  assert (cw_node w < length (ct_nodes tree))%nat as Hlt by (by eapply lookup_lt_Some).
  eexists _, (busycnt_sub node2 (cw_kvset_cnt w)).
  split.
  { unfold cn_comp_update_kvcompact. rewrite Herr.
    cbn [merr_is_err]. rewrite Hnode. cbn [mbind option_bind].
    rewrite (kvcompact_retire_window _ _ _ Hm Hc).
    fold first front window back. cbn [mbind option_bind].
    assert (match new_kvset with
            | Some k =>
                tn_set_cgen
                  (tn_set_kvset_list node
                     (kvset_list_add (front ++ back) (list_last_entry front) k))
                  (u32 (tn_cgen node + 1))
            | None => tn_set_kvset_list node (front ++ back)
            end = node1) as ->.
    { unfold node1. destruct new_kvset; [|done]. by rewrite kvset_list_add_last. }
    unfold cn_tree_samp_update_compact. simpl.
    rewrite list_lookup_insert_eq by done. simpl. rewrite Hrec. simpl.
    rewrite list_lookup_insert_eq by (by rewrite length_insert). simpl.
    reflexivity. }
  split; [done|].
  split; [simpl; by rewrite !list_insert_insert_eq|].
  split; [simpl; rewrite Hl2; unfold node1; by destruct new_kvset|].
  simpl.
  pose proof (f_equal tn_compacting Hclear) as H1.
  pose proof (f_equal tn_rspills Hclear) as H2.
  pose proof (f_equal tn_rspills_wedged Hclear) as H3.
  pose proof (f_equal tn_size_max Hclear) as H4.
  pose proof (f_equal tn_nodeid Hclear) as H5.
  pose proof (f_equal tn_isroot Hclear) as H6.
  simpl in *. rewrite H1, H2, H3, H4, H5, H6.
  unfold node1. by destruct new_kvset.
Qed.

Lemma commit_outputs_one {E : cn_iface} cm tree w skip nodeidv out0 :
  cw_outv w = [out0] ->
  commit_outputs cm tree w skip nodeidv 0 1 [None] =
  if hblk_bk_blkid out0 =? 0 then Some (MERR_OK, [None])
  else
    km ← cn_comp_commit_meta tree w nodeidv 0;
    _ ← cw_kvsetidv w !! 0%nat;
    if skip then None
    else
      match cm_kvset_add cm 0 km with
      | merr e => Some (merr e, [None])
      | MERR_OK =>
          match cm_mblocks_commit cm 0 with
          | merr e => Some (merr e, [None])
          | MERR_OK =>
              match cm_kvset_open cm 0 km with
              | inl e => Some (merr e, [None])
              | inr k => Some (MERR_OK, [Some k])
              end
          end
      end.
Proof.
  intros Hout. cbn [commit_outputs]. rewrite Hout. cbn [lookup list_lookup mbind option_bind].
  destruct (hblk_bk_blkid out0 =? 0); [done|].
  destruct (cn_comp_commit_meta tree w nodeidv 0) as [km|]; [|done].
  cbn [mbind option_bind].
  destruct (cw_kvsetidv w !! 0%nat); [|done]. cbn [mbind option_bind].
  destruct skip; [done|].
  destruct (cm_kvset_add cm 0 km); [|done].
  destruct (cm_mblocks_commit cm 0); [|done].
  by destruct (cm_kvset_open cm 0 km).
Qed.

Lemma commit_kvcompact_reduces {E : cn_iface} cm minted tree w node out0 km k_new uo :
  cw_action w = CN_ACTION_COMPACT_K \/ cw_action w = CN_ACTION_COMPACT_KV ->
  cw_err w = MERR_OK ->
  ct_nodes tree !! cw_node w = Some node ->
  (cw_mark w < length (tn_kvset_list node))%nat ->
  (cw_kvset_cnt w <= cw_mark w + 1)%nat ->
  cw_outc w = 1 -> cw_outv w = [out0] -> is_Some (cw_kvsetidv w !! 0%nat) ->
  hblk_bk_blkid out0 <> 0 ->
  (cw_action w = CN_ACTION_COMPACT_K -> kblks_n_blks out0 <> 0) ->
  cm_calloc_cookiev cm = true -> cm_calloc_kvsets cm = true ->
  cm_txstart cm = MERR_OK ->
  cn_comp_commit_meta tree w (0, 0) 0 = Some km ->
  cm_kvset_add cm 0 km = MERR_OK -> cm_mblocks_commit cm 0 = MERR_OK ->
  cm_kvset_open cm 0 km = inr k_new ->
  Forall (λ k, cm_delete_log cm k = MERR_OK)
    (take (cw_kvset_cnt w)
       (drop (cw_mark w + 1 - cw_kvset_cnt w) (tn_kvset_list node))) ->
  cm_add_ack cm 0 = MERR_OK ->
  cn_comp_update_kvcompact tree w (Some k_new) = Some uo ->
  cn_comp_commit cm minted tree w =
    Some (mk_commit_out (uo_tree uo) w (uo_retired uo) false []).
Proof.
  intros Hact Herr Hnode Hm Hc Houtc Houtv [id Hid] Hhblk Hkblk Hcook Hkv Htx
    Hmeta Hadd Hmb Hopen Hdel Hack Hupd.
  assert ((hblk_bk_blkid out0 =? 0) = false) as Hh by (by apply Z.eqb_neq).
  unfold cn_comp_commit. rewrite Herr. cbn [merr_is_err].
  assert ((if bool_decide (cw_action w = CN_ACTION_COMPACT_K)
           then out0 ← cw_outv w !! 0%nat; Some (kblks_n_blks out0 =? 0)
           else Some false) = Some false) as ->.
  { destruct (decide (cw_action w = CN_ACTION_COMPACT_K)) as [Hk|Hk].
    - rewrite (bool_decide_eq_true_2 _ Hk), Houtv. simpl.
      f_equal. apply Z.eqb_neq. by apply Hkblk.
    - by rewrite (bool_decide_eq_false_2 _ Hk). }
  cbn [mbind option_bind negb andb]. rewrite Hcook, Hkv. cbn [negb andb].
  rewrite Hnode. cbn [mbind option_bind].
  assert ((if bool_decide (cw_action w = CN_ACTION_COMPACT_K)
           then commit_vbsets (tn_kvset_list node) (Some (cw_mark w)) (cw_kvset_cnt w)
           else Some ()) = Some ()) as ->.
  { destruct (bool_decide _); [by apply commit_vbsets_window|done]. }
  cbn [mbind option_bind]. rewrite Htx.
  rewrite (bool_decide_eq_false_2 (cw_action w = CN_ACTION_SPLIT))
    by (by destruct Hact as [-> | ->]).
  cbn [mbind option_bind]. rewrite Houtc.
  change (Z.to_nat 1) with 1%nat. cbn [replicate].
  rewrite (commit_outputs_one _ _ _ _ _ out0 Houtv), Hh, Hmeta.
  cbn [mbind option_bind]. rewrite Hid. cbn [mbind option_bind].
  rewrite Hadd, Hmb, Hopen. cbn [mbind option_bind merr_is_err].
  rewrite (commit_delete_log_window _ _ _ _ Hm Hc Hdel).
  cbn [mbind option_bind merr_is_err].
  cbn [commit_acks]. rewrite Houtv. cbn [lookup list_lookup mbind option_bind].
  rewrite Hh, Hack. cbn [mbind option_bind merr_is_err].
  assert (commit_done (uo_tree uo) w MERR_OK (uo_retired uo) true [Some k_new] =
          mk_commit_out (uo_tree uo) w (uo_retired uo) false []) as Hd.
  { unfold commit_done. simpl. rewrite <- Herr at 1. by rewrite cw_set_status_id. }
  destruct Hact as [-> | ->]; cbn [lookup list_lookup mbind option_bind];
    rewrite Hupd; cbn [mbind option_bind]; by rewrite Hd.
Qed.

Lemma commit_meta_kvcompact tree w nodeidv i node out :
  cw_action w = CN_ACTION_COMPACT_K \/ cw_action w = CN_ACTION_COMPACT_KV ->
  ct_nodes tree !! cw_node w = Some node ->
  cw_outv w !! i = Some out ->
  cn_comp_commit_meta tree w nodeidv i =
  Some (mk_km (cw_dgen_hi w) (bl_vused out)
          (match tn_kvset_list node !! S (cw_mark w) with
           | Some older =>
               if cw_compc w <? kvset_get_compc older then u32 (cw_compc w + 1)
               else cw_compc w
           | None => u32 (cw_compc w + 1)
           end)
          (tn_nodeid node)).
Proof.
  intros Hact Hnode Hout. unfold cn_comp_commit_meta. rewrite Hout.
  cbn [mbind option_bind].
  destruct Hact as [Ha | Ha]; rewrite Ha, Hnode; cbn [mbind option_bind];
    unfold list_next_entry_or_null;
    (destruct (decide (S (cw_mark w) < length (tn_kvset_list node))%nat) as [Hlt|Hge];
     [destruct (lookup_lt_is_Some_2 _ _ Hlt) as [k ->]; by destruct (_ <? _)
     |rewrite (lookup_ge_None_2 _ (S (cw_mark w))) by lia; done]).
Qed.



(** ** The job as a whole *)

Lemma prepare_kv_runs pe tree w node :
  ct_nodes tree !! cw_node w = Some node ->
  cw_action w = CN_ACTION_COMPACT_KV ->
  (cw_mark w < length (tn_kvset_list node))%nat ->
  (cw_kvset_cnt w <= cw_mark w + 1)%nat ->
  pe_calloc_ins pe = true -> pe_calloc_outs pe = true ->
  Forall (λ k, pe_kvset_iter_create pe k = MERR_OK)
    (take (cw_kvset_cnt w)
       (drop (cw_mark w + 1 - cw_kvset_cnt w) (tn_kvset_list node))) ->
  cn_tree_prepare_compaction pe tree w =
  Some (MERR_OK,
        cw_set_prepared w
          (take (cw_kvset_cnt w)
             (drop (cw_mark w + 1 - cw_kvset_cnt w) (tn_kvset_list node)))
          1 [mblocks_zero] [0] [None] (cw_split_dgen w)
          (bool_decide (Some (cw_mark w) = list_last_entry (tn_kvset_list node)))).
Proof.
  intros Hnode Hact Hm Hc Hins Houts Hok.
  unfold cn_tree_prepare_compaction. rewrite Hnode, Hact.
  cbn [mbind option_bind].
  rewrite !(bool_decide_eq_false_2 (CN_ACTION_COMPACT_KV = _)) by done.
  rewrite (bool_decide_eq_true_2 (CN_ACTION_COMPACT_KV = CN_ACTION_COMPACT_KV)) by done.
  cbn [andb negb orb]. rewrite Hins, Houts. cbn [andb negb orb].
  rewrite (prepare_iterators_window pe _ _ _ Hm Hc Hok). done.
Qed.

Lemma tn_set_kvset_list_id tn : tn_set_kvset_list tn (tn_kvset_list tn) = tn.
Proof. by destruct tn. Qed.

(** X22.  A kv-compact job from start to end.  The job comes without
    error, not canceled, as the only job of its node, with its window in
    the node's list; the health check, the preparation, the merge - which
    leaves one output with a header block - and every step of the commit
    succeed.  Then [cn_comp] returns: the kvset opened for the output
    stands in the node's list where the window was, the node's token is
    free again if the job held it, the job has been handed to its
    completion callback without error, or freed if it has none, and no
    other job and no other node has changed. *)
Theorem comp_kvcompact_end_to_end {E : cn_iface} (commit_of : nat -> commit_env)
    (minted_of : nat -> nat) (ce : compact_env) (fuel : nat) (st : cn_state)
    (nospace : bool) (wp : nat) (w : cn_compaction_work) (node : cn_tree_node)
    (out0 : kvset_mblocks) (k_new : kvset) :
  st_works st !! wp = Some w ->
  cw_action w = CN_ACTION_COMPACT_KV ->
  cw_err w = MERR_OK -> cw_canceled w = false -> cw_rspill_conc w = false ->
  ct_nodes (st_tree st) !! cw_node w = Some node ->
  (cw_mark w < length (tn_kvset_list node))%nat ->
  (cw_kvset_cnt w <= cw_mark w + 1)%nat ->
  tn_size_max node <> 0 ->
  let l := tn_kvset_list node in
  let first := (cw_mark w + 1 - cw_kvset_cnt w)%nat in
  let window := take (cw_kvset_cnt w) (drop first l) in
  let km :=
    mk_km (cw_dgen_hi w) (bl_vused out0)
      (match l !! S (cw_mark w) with
       | Some older =>
           if cw_compc w <? kvset_get_compc older then u32 (cw_compc w + 1)
           else cw_compc w
       | None => u32 (cw_compc w + 1)
       end)
      (tn_nodeid node) in
  ce_health_check ce = MERR_OK ->
  pe_calloc_ins (ce_prepare ce) = true -> pe_calloc_outs (ce_prepare ce) = true ->
  Forall (λ k, pe_kvset_iter_create (ce_prepare ce) k = MERR_OK) window ->
  (forall w1, bo_err (ce_build ce w1) = MERR_OK /\
              bo_outv (ce_build ce w1) = [out0] /\
              is_Some (bo_kvsetidv (ce_build ce w1) !! 0%nat)) ->
  hblk_bk_blkid out0 <> 0 ->
  cm_calloc_cookiev (commit_of wp) = true ->
  cm_calloc_kvsets (commit_of wp) = true ->
  cm_txstart (commit_of wp) = MERR_OK ->
  cm_kvset_add (commit_of wp) 0 km = MERR_OK ->
  cm_mblocks_commit (commit_of wp) 0 = MERR_OK ->
  cm_kvset_open (commit_of wp) 0 km = inr k_new ->
  Forall (λ k, cm_delete_log (commit_of wp) k = MERR_OK) window ->
  cm_add_ack (commit_of wp) 0 = MERR_OK ->
  exists st' node',
    cn_comp commit_of minted_of ce fuel st nospace wp = Some (st', nospace) /\
    ct_nodes (st_tree st') !! cw_node w = Some node' /\
    tn_kvset_list node' = take first l ++ k_new :: drop (cw_mark w + 1) l /\
    tn_compacting node' =
      (if cw_have_token w && (tn_compacting node =? 1) then 0
       else tn_compacting node) /\
    (forall n, n <> cw_node w ->
       ct_nodes (st_tree st') !! n = ct_nodes (st_tree st) !! n) /\
    (forall h, h <> wp -> st_works st' !! h = st_works st !! h) /\
    (if cw_completion w
     then st_completed st' = wp :: st_completed st /\
          exists w', st_works st' !! wp = Some w' /\ cw_err w' = MERR_OK /\
                     cw_outv w' = [out0] /\ cw_inputv w' = window
     else st_completed st' = st_completed st /\ st_works st' !! wp = None).
Proof.
  intros Hw Hact Herr Hcan Hconc Hnode Hm Hc Hsz l first window km
    Hhealth Hins Houts Hiter Hbuild Hhblk Hcook Hkv Htx Hadd Hmb Hopen Hdel Hack.
  set (w1 := cw_set_prepared w window 1 [mblocks_zero] [0] [None] (cw_split_dgen w)
               (bool_decide (Some (cw_mark w) = list_last_entry l))).
  set (w2 := cw_set_built w1 (ce_build ce w1)).
  destruct (Hbuild w1) as (Hberr & Hboutv & Hbid).
  assert (cn_comp_compact ce (st_tree st) w = Some w2) as Hcompact.
  { unfold cn_comp_compact. rewrite Herr, Hhealth. cbn [merr_is_err].
    rewrite (prepare_kv_runs _ _ _ node Hnode Hact Hm Hc Hins Houts Hiter).
    fold l first window w1. cbn [mbind option_bind].
    assert (cw_action w1 = CN_ACTION_COMPACT_KV) as -> by done.
    fold w2. rewrite Hberr. cbn [merr_errno].
    rewrite (bool_decide_eq_false_2 (None = Some ESHUTDOWN)) by done.
    cbn [andb]. unfold compact_exit.
    assert (cw_canceled w2 = false) as Hc2 by done.
    rewrite Hc2. cbn [andb]. f_equal.
    pose proof (cw_set_status_id w2) as Hid.
    assert (cw_err w2 = MERR_OK) as He by (simpl; exact Herr).
    by rewrite Hc2, He in Hid. }
  assert (cw_action w2 = CN_ACTION_COMPACT_KV /\ cw_err w2 = MERR_OK /\
          cw_node w2 = cw_node w /\ cw_mark w2 = cw_mark w /\
          cw_kvset_cnt w2 = cw_kvset_cnt w /\ cw_outc w2 = 1 /\
          cw_outv w2 = [out0] /\ cw_rspill_conc w2 = false /\
          cw_have_token w2 = cw_have_token w /\
          cw_completion w2 = cw_completion w /\ cw_inputv w2 = window /\
          cw_dgen_hi w2 = cw_dgen_hi w /\ cw_compc w2 = cw_compc w)
    as (Ha2 & He2 & Hn2 & Hm2 & Hc2 & Hoc2 & Hov2 & Hrc2 & Htok2 & Hcomp2 & Hin2 & Hdg2 & Hcc2).
  { assert (cw_outv w2 = bo_outv (ce_build ce w1)) as -> by done.
    rewrite Hboutv. done. }
  destruct (update_kvcompact_runs (st_tree st) w2 (Some k_new) node)
    as (uo & node' & Hupd & Hret & Hnodes & Hlist & Hframe);
    [done|by rewrite Hn2|by rewrite Hm2|by rewrite Hm2, Hc2|done|].
  rewrite ?Hn2, ?Hm2, ?Hc2 in Hret, Hnodes, Hlist. fold l first in Hret, Hlist.
  injection Hframe as Hfc Hfr Hfw _ _ _.
  assert (cw_node w < length (ct_nodes (st_tree st)))%nat as Hlt
    by (by eapply lookup_lt_Some).
  assert (cn_comp_commit (commit_of wp) (minted_of wp) (st_tree st) w2 =
          Some (mk_commit_out (uo_tree uo) w2 (uo_retired uo) false [])) as Hcommit.
  { eapply (commit_kvcompact_reduces _ _ _ _ node out0 km k_new);
      rewrite ?Hn2, ?Hm2, ?Hc2; try done.
    - by right.
    - intros Hk. congruence.
    - rewrite (commit_meta_kvcompact _ w2 _ _ node out0 (or_intror Ha2));
        [|by rewrite Hn2|by rewrite Hov2].
      by rewrite Hdg2, Hcc2, Hm2. }
  set (tn3 := if cw_have_token w then cn_node_comp_token_put node' else node').
  set (tree3 := ct_set_nodes (uo_tree uo) (<[cw_node w := tn3]> (ct_nodes (uo_tree uo)))).
  set (works1 := <[wp := w2]> (<[wp := w2]> (st_works st))).
  set (st' := if cw_completion w
              then mk_state tree3 works1 (wp :: st_completed st)
              else mk_state tree3 (delete wp works1) (st_completed st)).
  exists st', tn3.
  split.
  { unfold cn_comp. rewrite Hw. cbn [mbind option_bind]. rewrite Hcompact.
    cbn [mbind option_bind]. rewrite Hrc2.
    unfold cn_comp_finish, st_set_work. cbn [st_works st_tree st_completed].
    rewrite lookup_insert_eq. cbn [mbind option_bind]. rewrite Hcommit.
    cbn [mbind option_bind co_tree co_work].
    unfold cn_comp_cleanup. cbn [st_works st_tree st_completed].
    rewrite lookup_insert_eq. cbn [mbind option_bind]. rewrite He2.
    cbn [merr_is_err mbind option_bind].
    unfold cn_comp_release. cbn [st_works st_tree st_completed].
    rewrite lookup_insert_eq. cbn [mbind option_bind].
    rewrite Hn2, Hnodes, list_lookup_insert_eq by done.
    cbn [mbind option_bind]. rewrite Hrc2, He2. cbn [merr_is_err mbind option_bind].
    rewrite tn_set_kvset_list_id, Htok2, Hcomp2.
    unfold st', tree3, tn3, works1, st_set_node.
    cbn [st_works st_tree st_completed]. rewrite Hnodes.
    by destruct (cw_completion w). }
  assert (ct_nodes (st_tree st') = <[cw_node w := tn3]> (ct_nodes (st_tree st)))
    as Hnodes'.
  { unfold st'. destruct (cw_completion w); simpl; rewrite Hnodes;
      by rewrite !list_insert_insert_eq. }
  split; [rewrite Hnodes'; by apply list_lookup_insert_eq|].
  split; [unfold tn3; destruct (cw_have_token w); [|done];
          unfold cn_node_comp_token_put; by destruct (_ =? _)|].
  split.
  { unfold tn3. destruct (cw_have_token w); cbn [andb]; [|by rewrite Hfc].
    unfold cn_node_comp_token_put. rewrite Hfc.
    by destruct (tn_compacting node =? 1). }
  split; [intros n Hn; rewrite Hnodes'; by rewrite list_lookup_insert_ne|].
  split.
  { intros h Hh. unfold st', works1.
    destruct (cw_completion w); simpl;
      rewrite ?lookup_delete_ne, !lookup_insert_ne by done; done. }
  unfold st', works1. destruct (cw_completion w); simpl.
  - split; [done|]. exists w2. rewrite lookup_insert_eq. done.
  - split; [done|]. by rewrite lookup_delete_eq.
Qed.

Lemma comp_kvcompact_end_to_end_sample :
  exists st' node',
    cn_comp (E := Sample.iface) (λ _, Scenario.commit_all_ok) (λ _, 0%nat)
      Scenario.compact_all_ok 1 Scenario.kv_state false 7 = Some (st', false) /\
    ct_nodes (st_tree st') !! 1%nat = Some node' /\
    tn_kvset_list node' = [Sample.kv 3 3 7 0 [120]; Scenario.k_merged] /\
    tn_compacting node' = 0 /\
    st_completed st' = [7%nat].
Proof.
  destruct (comp_kvcompact_end_to_end (E := Sample.iface)
              (λ _, Scenario.commit_all_ok) (λ _, 0%nat) Scenario.compact_all_ok 1
              Scenario.kv_state false 7 Sample.tail_work Sample.busy_leaf
              (mk_mblocks 77 1 1 0) Scenario.k_merged)
    as (st' & node' & Hrun & Hnode & Hlist & Htok & _ & _ & Hdone).
  - reflexivity.
  - reflexivity.
  - reflexivity.
  - reflexivity.
  - reflexivity.
  - reflexivity.
  - vm_compute; lia.
  - vm_compute; lia.
  - vm_compute; discriminate.
  - reflexivity.
  - reflexivity.
  - reflexivity.
  - repeat constructor.
  - intros w1. split; [reflexivity|]. split; [reflexivity|]. by eexists.
  - vm_compute; discriminate.
  - reflexivity.
  - reflexivity.
  - reflexivity.
  - reflexivity.
  - reflexivity.
  - reflexivity.
  - repeat constructor.
  - reflexivity.
  - exists st', node'. split; [exact Hrun|]. split; [exact Hnode|].
    split; [exact Hlist|]. split; [exact Htok|]. exact (proj1 Hdone).
Defined.

(** ** Concurrent root spills on a wedged node *)

Lemma filter_ne_head (h : nat) (q : list nat) :
  h ∉ q -> filter (λ x, x ≠ h) (h :: q) = q.
Proof.
  intros Hnot. rewrite filter_cons_False by (by intros ?).
  induction q as [|x q IH]; [done|].
  apply not_elem_of_cons in Hnot as [Hx Hq].
  rewrite filter_cons_True by done. by rewrite IH.
Qed.

Lemma unmarked_trans k'' k' k : unmarked k'' k' -> unmarked k' k -> unmarked k'' k.
Proof. intros [-> | ->] [-> | ->]; unfold unmarked; auto. Qed.

Section wedged.
Context {E : cn_iface}.
Variable commit_of : nat -> commit_env.
Variable minted_of : nat -> nat.

Lemma finish_failing_head st nospace n tn h q w :
  ct_nodes (st_tree st) !! n = Some tn ->
  tn_rspills tn = h :: q ->
  h ∉ q ->
  st_works st !! h = Some w ->
  cw_node w = n -> cw_rspill_conc w = true ->
  cw_rspill_done w <> 0 -> cw_rspill_commit_in_progress w = 0 ->
  cw_completion w = true ->
  (cw_mark w < length (tn_kvset_list tn))%nat ->
  (cw_kvset_cnt w <= cw_mark w + 1)%nat ->
  tn_rspills_wedged tn = true \/ cw_err w <> MERR_OK ->
  exists st1 st2 nospace2 tn2 w',
    get_completed_spill st n = Some (st1, Some h) /\
    cn_comp_finish commit_of minted_of st1 nospace h = Some (st2, nospace2) /\
    (nospace = true -> nospace2 = true) /\
    ct_nodes (st_tree st2) = <[n := tn2]> (ct_nodes (st_tree st)) /\
    ct_samp (st_tree st2) = ct_samp (st_tree st) /\
    tn_rspills tn2 = q /\ tn_rspills_wedged tn2 = true /\
    Forall2 unmarked (tn_kvset_list tn2) (tn_kvset_list tn) /\
    st_completed st2 = h :: st_completed st /\
    st_works st2 = <[h := w']> (st_works st) /\
    cw_err w' <> MERR_OK /\
    (cw_err w = MERR_OK -> cw_err w' = merr ESHUTDOWN /\ cw_canceled w' = true) /\
    (cw_err w <> MERR_OK -> cw_err w' = cw_err w).
Proof.
  intros Hn Hq Hnot Hw Hnode Hconc Hdone Hprog Hcomp Hm Hc Hfail.
  set (w' := if tn_rspills_wedged tn && negb (merr_is_err (cw_err w))
             then cw_set_commit_status w 1 (merr ESHUTDOWN) true
             else cw_set_commit_status w 1 (cw_err w) (cw_canceled w)).
  assert (cw_err w' <> MERR_OK /\
          (cw_err w = MERR_OK -> cw_err w' = merr ESHUTDOWN /\ cw_canceled w' = true) /\
          (cw_err w <> MERR_OK -> cw_err w' = cw_err w)) as (He' & Hforced & Hkept).
  { unfold w'. destruct (cw_err w) as [|e] eqn:He; simpl.
    - destruct Hfail as [-> | ?]; [|done]. simpl. done.
    - rewrite andb_false_r. simpl. rewrite ?He. done. }
  assert (cw_node w' = n /\ cw_rspill_conc w' = true /\ cw_completion w' = true /\
          cw_mark w' = cw_mark w /\ cw_kvset_cnt w' = cw_kvset_cnt w /\
          cw_have_token w' = cw_have_token w)
    as (Hn' & Hconc' & Hcomp' & Hm' & Hc' & Htok').
  { unfold w'. by destruct (_ && _). }
  assert (merr_is_err (cw_err w') = true) as Hiserr by (by destruct (cw_err w')).
  set (tn_c := if true && negb (tn_rspills_wedged tn)
               then tn_set_rspills_wedged tn true else tn).
  assert (tn_rspills_wedged tn_c = true /\ tn_rspills tn_c = h :: q /\
          tn_kvset_list tn_c = tn_kvset_list tn) as (Hwc & Hqc & Hlc).
  { unfold tn_c. destruct (tn_rspills_wedged tn) eqn:Hwd; simpl; done. }
  destruct (release_unmark_spec (cw_kvset_cnt w) (tn_kvset_list tn) (cw_mark w) Hm Hc)
    as (l' & Hunmark & Hlen & Hlk).
  set (tn1 := tn_set_kvset_list (tn_set_rspills tn_c q) l').
  set (tn2 := if cw_have_token w then cn_node_comp_token_put tn1 else tn1).
  set (nospace2 := if bool_decide (merr_errno (cw_err w') = Some ENOSPC) then true
                   else nospace).
  assert (n < length (ct_nodes (st_tree st)))%nat as Hlt by (by eapply lookup_lt_Some).
  eexists (mk_state (st_tree st) (<[h := w']> (st_works st)) (st_completed st)),
    (mk_state (ct_set_nodes (st_tree st) (<[n := tn2]> (ct_nodes (st_tree st))))
       (<[h := w']> (st_works st)) (h :: st_completed st)),
    nospace2, tn2, w'.
  split.
  { unfold get_completed_spill. rewrite Hn. cbn [mbind option_bind].
    rewrite Hq, Hw. cbn [mbind option_bind]. rewrite Hprog.
    rewrite (proj2 (Z.eqb_neq _ _) Hdone). cbn [orb negb Z.eqb]. done. }
  split.
  { unfold cn_comp_finish. cbn [st_works st_tree st_completed].
    rewrite lookup_insert_eq. cbn [mbind option_bind].
    unfold cn_comp_commit. rewrite Hiserr. cbn [mbind option_bind co_tree co_work].
    unfold cn_comp_cleanup. cbn [st_works st_tree st_completed].
    rewrite lookup_insert_eq. cbn [mbind option_bind]. rewrite Hiserr, Hconc'.
    cbn [orb]. rewrite Hn', Hn. cbn [mbind option_bind]. fold tn_c nospace2.
    unfold cn_comp_release, st_set_node. cbn [st_works st_tree st_completed].
    rewrite lookup_insert_eq. cbn [mbind option_bind].
    rewrite Hn'. cbn [ct_nodes ct_set_nodes ct_set_nodes_samp].
    rewrite list_lookup_insert_eq by done. cbn [mbind option_bind].
    rewrite Hconc', Hiserr, Hqc, (filter_ne_head _ _ Hnot).
    assert (tn_kvset_list (tn_set_rspills tn_c q) = tn_kvset_list tn) as ->
      by (by rewrite <- Hlc).
    rewrite Hm', Hc', Hunmark. cbn [mbind option_bind].
    fold tn1. rewrite Htok'. fold tn2. rewrite Hcomp'. cbn [negb].
    rewrite !insert_insert_eq, !list_insert_insert_eq. done. }
  split; [unfold nospace2; intros ->; by destruct (bool_decide _)|].
  split; [done|]. split; [done|].
  assert (forall x, tn_rspills (if cw_have_token w then cn_node_comp_token_put x else x)
                    = tn_rspills x /\
                    tn_rspills_wedged (if cw_have_token w
                                       then cn_node_comp_token_put x else x)
                    = tn_rspills_wedged x /\
                    tn_kvset_list (if cw_have_token w
                                   then cn_node_comp_token_put x else x)
                    = tn_kvset_list x) as Htoken.
  { intros x. destruct (cw_have_token w); [|done].
    unfold cn_node_comp_token_put. by destruct (_ =? _). }
  destruct (Htoken tn1) as (Hr2 & Hw2 & Hl2).
  split; [unfold tn2; by rewrite Hr2|]. split; [unfold tn2; by rewrite Hw2|].
  split.
  { unfold tn2. rewrite Hl2. simpl.
    apply Forall2_same_length_lookup_2; [done|].
    intros j x y Hx Hy. rewrite Hlk, Hy in Hx. unfold unmarked.
    case_bool_decide; simpl in Hx; injection Hx as <-; auto. }
  done.
Qed.

End wedged.

Section wedged_drain.
Context {E : cn_iface}.
Variable commit_of : nat -> commit_env.
Variable minted_of : nat -> nat.

(** X23.  Draining the finished root spills of a node that is wedged, or
    whose first job has failed.  The jobs on the node's list are distinct,
    finished, on no thread's hands, with completion callbacks, and their
    windows lie in the node's kvset list.  Then the loop returns with one
    unit of fuel more than there are jobs: every job has been handed to
    its completion callback, in the order of the list, with an error -
    its own if it had one, else ESHUTDOWN, and then it is canceled; the
    list of root spills is empty and the node is wedged; the kvsets of the
    node are the same, some with their work id cleared; no other node, no
    other job and no samp total has changed; and a tree that was out of
    space still is. *)
Theorem wedged_drain_fails_in_order (q : list nat) :
  forall (st : cn_state) (nospace : bool) (n : nat) (tn : cn_tree_node),
  ct_nodes (st_tree st) !! n = Some tn ->
  tn_rspills tn = q ->
  NoDup q ->
  Forall (rspill_ready st n (length (tn_kvset_list tn))) q ->
  tn_rspills_wedged tn = true \/
    (exists h w, head q = Some h /\ st_works st !! h = Some w /\
                 cw_err w <> MERR_OK) ->
  exists st' nospace' tn',
    rspill_drain commit_of minted_of (S (length q)) st nospace n =
      Some (st', nospace') /\
    (nospace = true -> nospace' = true) /\
    ct_nodes (st_tree st') = <[n := tn']> (ct_nodes (st_tree st)) /\
    ct_samp (st_tree st') = ct_samp (st_tree st) /\
    tn_rspills tn' = [] /\
    tn_rspills_wedged tn' = true /\
    Forall2 unmarked (tn_kvset_list tn') (tn_kvset_list tn) /\
    st_completed st' = reverse q ++ st_completed st /\
    (forall h, h ∉ q -> st_works st' !! h = st_works st !! h) /\
    (forall h w, h ∈ q -> st_works st !! h = Some w ->
       exists w',
         st_works st' !! h = Some w' /\ cw_err w' <> MERR_OK /\
         (cw_err w = MERR_OK ->
            cw_err w' = merr ESHUTDOWN /\ cw_canceled w' = true) /\
         (cw_err w <> MERR_OK -> cw_err w' = cw_err w)).
Proof.
  induction q as [|h q IH]; intros st nospace n tn Hn Hq Hnd Hready Hfail.
  - destruct Hfail as [Hwedged|(h & w & Hh & _)]; [|done].
    exists st, nospace, tn.
    split.
    { cbn [rspill_drain length]. unfold get_completed_spill. rewrite Hn.
      cbn [mbind option_bind]. by rewrite Hq. }
    split; [done|].
    split; [by rewrite list_insert_id|].
    split; [done|]. split; [done|]. split; [done|].
    split; [apply Forall2_same_length_lookup_2; [done|];
            intros i x y Hx Hy; left; congruence|].
    split; [done|]. split; [done|].
    intros h w Hin. by apply elem_of_nil in Hin.
  - apply NoDup_cons in Hnd as [Hnot Hnd].
    apply Forall_cons in Hready as [Hh Hready].
    destruct Hh as (w & Hw & Hnode & Hconc & Hdone & Hprog & Hcomp & Hm & Hc).
    assert (tn_rspills_wedged tn = true \/ cw_err w <> MERR_OK) as Hfail'.
    { destruct Hfail as [?|(h0 & w0 & Hh0 & Hw0 & He0)]; [by left|right].
      simpl in Hh0. injection Hh0 as <-. congruence. }
    destruct (finish_failing_head commit_of minted_of st nospace n tn h q w
                Hn Hq Hnot Hw Hnode Hconc Hdone Hprog Hcomp Hm Hc Hfail')
      as (st1 & st2 & nospace2 & tn2 & w' & Hget & Hfin & Hns & Hnodes2 & Hsamp2 &
          Hq2 & Hwedged2 & Hlist2 & Hcompl2 & Hworks2 & Herr' & Hforced & Hkept).
    assert (n < length (ct_nodes (st_tree st)))%nat as Hlt by (by eapply lookup_lt_Some).
    assert (ct_nodes (st_tree st2) !! n = Some tn2) as Hn2
      by (rewrite Hnodes2; by apply list_lookup_insert_eq).
    assert (forall h', h' ∈ q -> st_works st2 !! h' = st_works st !! h') as Hsame.
    { intros h' Hin. rewrite Hworks2, lookup_insert_ne; [done|].
      intros ->. done. }
    destruct (IH st2 nospace2 n tn2 Hn2 Hq2 Hnd) as
      (st' & nospace' & tn' & Hrun & Hns' & Hnodes' & Hsamp' & Hq' & Hwedged' &
       Hlist' & Hcompl' & Hframe' & Hjobs').
    { apply Forall_forall. intros h' Hin.
      rewrite Forall_forall in Hready.
      destruct (Hready h' Hin) as (w0 & Hw0 & Hrest).
      exists w0. rewrite (Hsame h' Hin), (Forall2_length _ _ _ Hlist2). done. }
    { by left. }
    exists st', nospace', tn'.
    split.
    { cbn [rspill_drain length]. rewrite Hget. cbn [mbind option_bind].
      rewrite Hfin. cbn [mbind option_bind]. exact Hrun. }
    split; [auto|].
    split; [by rewrite Hnodes', Hnodes2, list_insert_insert_eq|].
    split; [congruence|]. split; [done|]. split; [done|].
    split.
    { apply Forall2_same_length_lookup_2.
      - by rewrite (Forall2_length _ _ _ Hlist'), (Forall2_length _ _ _ Hlist2).
      - intros i x z Hx Hz.
        destruct (Forall2_lookup_l _ _ _ _ _ Hlist' Hx) as (y & Hy & Hxy).
        pose proof (Forall2_lookup_lr _ _ _ _ _ _ Hlist2 Hy Hz) as Hyz.
        by eapply unmarked_trans. }
    split; [by rewrite Hcompl', Hcompl2, reverse_cons, <- app_assoc|].
    split.
    { intros h0 Hh0. apply not_elem_of_cons in Hh0 as [Hne Hh0].
      rewrite (Hframe' h0 Hh0), Hworks2. by rewrite lookup_insert_ne. }
    intros h0 w0 Hin Hw0. apply elem_of_cons in Hin as [->|Hin].
    + assert (w0 = w) as -> by congruence.
      exists w'. rewrite (Hframe' h Hnot), Hworks2, lookup_insert_eq. done.
    + apply (Hjobs' h0 w0 Hin). by rewrite (Hsame h0 Hin).
Qed.

End wedged_drain.

Lemma wedged_drain_fails_in_order_sample :
  exists st' nospace' tn',
    rspill_drain (E := Sample.iface) (λ _, Scenario.commit_all_ok) (λ _, 0%nat) 3
      Scenario.wedged_state false 0 = Some (st', nospace') /\
    ct_nodes (st_tree st') = [tn'] /\
    tn_rspills tn' = [] /\
    st_completed st' = [5%nat; 4%nat] /\
    (exists w', st_works st' !! 5%nat = Some w' /\
                cw_err w' = merr ESHUTDOWN /\ cw_canceled w' = true).
Proof.
  destruct (wedged_drain_fails_in_order (E := Sample.iface)
              (λ _, Scenario.commit_all_ok) (λ _, 0%nat) [4%nat; 5%nat]
              Scenario.wedged_state false 0 Scenario.wedged_root2)
    as (st' & nospace' & tn' & Hrun & _ & Hnodes & _ & Hq & _ & _ & Hcompl & _ & Hjobs).
  - reflexivity.
  - reflexivity.
  - apply NoDup_cons. split; [|apply NoDup_singleton].
    intros Hin. apply list_elem_of_singleton in Hin. discriminate.
  - repeat constructor.
    + exists Sample.spill_work. repeat split; try reflexivity; try discriminate;
        vm_compute; lia.
    + exists Scenario.spill_work2. repeat split; try reflexivity; try discriminate;
        vm_compute; lia.
  - by left.
  - exists st', nospace', tn'. split; [exact Hrun|]. split; [exact Hnodes|].
    split; [exact Hq|]. split; [exact Hcompl|].
    destruct (Hjobs 5%nat Scenario.spill_work2) as (w' & Hw' & _ & Hforced & _).
    + apply (list_elem_of_lookup_2 _ 1%nat). reflexivity.
    + reflexivity.
    + exists w'. split; [exact Hw'|]. by apply Hforced.
Defined.

(** ** Root spills that end out of order *)

(** X24.  A concurrent root spill that comes to its end while the job at
    the head of its node's list of root spills is another one, which has
    not ended or is being committed: [cn_comp] marks the spill as done and
    returns; nothing is committed, the tree is as it was, the spill stays
    on the list and no completion callback is made. *)
Theorem spill_out_of_order_waits {E : cn_iface} (commit_of : nat -> commit_env)
    (minted_of : nat -> nat) (ce : compact_env) (fuel : nat) (st : cn_state)
    (nospace : bool) (wp h : nat) (w w1 wh : cn_compaction_work)
    (tn : cn_tree_node) (q : list nat) :
  st_works st !! wp = Some w ->
  cn_comp_compact ce (st_tree st) w = Some w1 ->
  cw_rspill_conc w1 = true ->
  ct_nodes (st_tree st) !! cw_node w1 = Some tn ->
  tn_rspills tn = h :: q -> h <> wp ->
  st_works st !! h = Some wh ->
  cw_rspill_done wh = 0 \/ cw_rspill_commit_in_progress wh <> 0 ->
  (1 <= fuel)%nat ->
  exists st',
    cn_comp commit_of minted_of ce fuel st nospace wp = Some (st', nospace) /\
    st_tree st' = st_tree st /\
    st_completed st' = st_completed st /\
    st_works st' !! wp = Some (cw_set_rspill_done w1 1) /\
    cw_rspill_done (cw_set_rspill_done w1 1) = 1 /\
    (forall j, j <> wp -> st_works st' !! j = st_works st !! j).
Proof.
  intros Hw Hcompact Hconc Hnode Hq Hne Hwh Hbusy Hfuel.
  exists (st_set_work st wp (cw_set_rspill_done w1 1)).
  split.
  { unfold cn_comp. rewrite Hw. cbn [mbind option_bind]. rewrite Hcompact.
    cbn [mbind option_bind]. rewrite Hconc.
    destruct fuel as [|fuel]; [lia|]. cbn [rspill_drain].
    unfold get_completed_spill, st_set_work. cbn [st_tree st_works st_completed].
    rewrite Hnode. cbn [mbind option_bind]. rewrite Hq.
    rewrite lookup_insert_ne by done. rewrite Hwh. cbn [mbind option_bind].
    assert ((cw_rspill_done wh =? 0) ||
            negb (cw_rspill_commit_in_progress wh =? 0) = true) as ->.
    { destruct Hbusy as [-> | Hp]; [done|].
      rewrite (proj2 (Z.eqb_neq _ _) Hp). by rewrite orb_true_r. }
    done. }
  split; [done|]. split; [done|].
  split; [simpl; by rewrite lookup_insert_eq|].
  split; [done|].
  intros j Hj. simpl. by rewrite lookup_insert_ne.
Qed.

Lemma spill_out_of_order_waits_sample :
  exists st',
    cn_comp (E := Sample.iface) (λ _, Scenario.commit_all_ok) (λ _, 0%nat)
      Scenario.compact_all_ok 1 Scenario.queued_state false 5 = Some (st', false) /\
    st_tree st' = st_tree Scenario.queued_state /\
    st_completed st' = [] /\
    st_works st' !! 5%nat = Some (cw_set_rspill_done Scenario.ended_spill 1).
Proof.
  destruct (spill_out_of_order_waits (E := Sample.iface)
              (λ _, Scenario.commit_all_ok) (λ _, 0%nat) Scenario.compact_all_ok 1
              Scenario.queued_state false 5 4 Scenario.ended_spill
              Scenario.ended_spill Scenario.running_spill Scenario.queued_root [5%nat])
    as (st' & Hrun & Htree & Hcompl & Hw & _).
  - reflexivity.
  - reflexivity.
  - reflexivity.
  - reflexivity.
  - reflexivity.
  - discriminate.
  - reflexivity.
  - by left.
  - lia.
  - exists st'. split; [exact Hrun|]. split; [exact Htree|].
    split; [exact Hcompl|exact Hw].
Defined.

(** ** The metrics tool: big numbers *)

Lemma bn64_scale_spec fuel : forall value exp pv,
  0 <= value < 1000 ^ (Z.of_nat fuel + 1) ->
  0 <= exp -> exp + 3 * Z.of_nat fuel < 2 ^ 32 ->
  exists k,
    0 <= k <= Z.of_nat fuel /\
    bn64_scale fuel value exp pv =
      Some (value / 1000 ^ k, exp + 3 * k,
            if k =? 0 then pv else value / 1000 ^ (k - 1)) /\
    0 <= value / 1000 ^ k < 1000 /\
    (k = 0 \/ 1000 ^ k <= value).
Proof.
  induction fuel as [|f IH]; intros value exp pv Hv He Hfit.
  - exists 0. split; [lia|]. simpl in Hv. simpl.
    destruct (Z.leb_spec 1000 value); [lia|].
    rewrite Z.div_1_r, Z.add_0_r. split; [done|]. split; [lia|by left].
  - cbn [bn64_scale].
    destruct (Z.leb_spec 1000 value) as [Hge|Hlt].
    + assert (u32 (exp + 3) = exp + 3) as ->
        by (unfold u32; apply Z.mod_small; lia).
      destruct (IH (value / 1000) (exp + 3) value) as (k & Hk & Hrun & Hres & Hpow).
      { split; [apply Z.div_pos; lia|].
        apply Z.div_lt_upper_bound; [lia|].
        replace (Z.of_nat (S f) + 1) with (Z.succ (Z.of_nat f + 1)) in Hv by lia.
        rewrite Z.pow_succ_r in Hv by lia. lia. }
      { lia. }
      { lia. }
      exists (k + 1).
      assert (1000 ^ (k + 1) = 1000 * 1000 ^ k) as Hp
        by (rewrite Z.pow_add_r by lia; lia).
      assert (value / 1000 ^ (k + 1) = value / 1000 / 1000 ^ k) as Hd.
      { rewrite Hp, Z.div_div by lia. done. }
      split; [lia|]. rewrite Hrun, Hd. split.
      * f_equal. f_equal; [f_equal; lia|].
        destruct (Z.eqb_spec k 0) as [->|Hk0].
        -- simpl. by rewrite Z.div_1_r.
        -- rewrite (proj2 (Z.eqb_neq (k + 1) 0)) by lia.
           replace (k + 1 - 1) with (k - 1 + 1) by lia.
           rewrite Z.pow_add_r by lia.
           rewrite Z.pow_1_r, (Z.mul_comm (1000 ^ (k - 1))), Z.div_div by lia.
           done.
      * split; [done|]. right. rewrite Hp.
        assert (1000 * (value / 1000) <= value)
          by (apply Z.mul_div_le; lia).
        destruct Hpow as [-> | Hpow]; [simpl; lia|nia].
    + exists 0. split; [lia|]. simpl. rewrite Z.div_1_r, Z.add_0_r.
      split; [done|]. split; [lia|by left].
Qed.

(** X25.  The scaling loop of [bn64] ends for every 64-bit value, after
    at most six divisions.  The scaled value is below 1000 and is the
    value divided by 1000 to the number of divisions; the exponent is
    three times that number, so at most 18, and its suffix is never the
    question mark; and the two decimals printed behind the scaled value
    continue its digits: hundred times the scaled value plus the decimals
    is the value divided by ten times 1000 to one division less. *)
Theorem bn64_scale_mantissa (value : Z) :
  0 <= value < 2 ^ 64 ->
  exists k v p,
    0 <= k <= 6 /\
    bn64_scale 7 value 0 0 = Some (v, 3 * k, p) /\
    v = value / 1000 ^ k /\ 0 <= v < 1000 /\
    (k = 0 /\ v = value \/
     1 <= k /\ 1 <= v /\ p = value / 1000 ^ (k - 1) /\
     0 <= (p `mod` 1000) / 10 < 100 /\
     100 * v + (p `mod` 1000) / 10 = value / (10 * 1000 ^ (k - 1)) /\
     bn_human_sfx (3 * k) <> 63).
Proof.
  intros Hv.
  destruct (bn64_scale_spec 7 value 0 0) as (k & Hk & Hrun & Hres & Hpow);
    [change (1000 ^ (Z.of_nat 7 + 1)) with 1000000000000000000000000; lia
    |lia|lia|].
  assert (k <= 6) as Hk6.
  { destruct (Z.le_gt_cases k 6) as [|Hgt]; [done|].
    destruct Hpow as [-> | Hpow]; [lia|].
    assert (1000 ^ 7 <= 1000 ^ k) by (apply Z.pow_le_mono_r; lia).
    change (1000 ^ 7) with 1000000000000000000000 in *. lia. }
  exists k, (value / 1000 ^ k), (if k =? 0 then 0 else value / 1000 ^ (k - 1)).
  split; [lia|]. split; [by rewrite Hrun|]. split; [done|]. split; [done|].
  destruct (Z.eqb_spec k 0) as [->|Hk0].
  - left. split; [done|]. by rewrite Z.div_1_r.
  - right. split; [lia|].
    assert (0 < 1000 ^ (k - 1)) as Hpos by (apply Z.pow_pos_nonneg; lia).
    assert (1000 ^ k = 1000 ^ (k - 1) * 1000) as Hp.
    { replace k with (k - 1 + 1) at 1 by lia.
      rewrite Z.pow_add_r by lia. lia. }
    set (p := value / 1000 ^ (k - 1)).
    assert (value / 1000 ^ k = p / 1000) as Hvp.
    { rewrite Hp. unfold p. by rewrite Z.div_div by lia. }
    assert (value / (10 * 1000 ^ (k - 1)) = p / 10) as Hv10.
    { unfold p. rewrite (Z.mul_comm 10), Z.div_div by lia. done. }
    assert (0 <= p) as Hp0 by (apply Z.div_pos; lia).
    split.
    { destruct Hpow as [-> | Hpow]; [done|].
      apply Z.div_le_lower_bound; [lia|]. lia. }
    split; [done|].
    rewrite Hvp, Hv10.
    split; [Z.to_euclidean_division_equations; lia|].
    split; [Z.to_euclidean_division_equations; lia|].
    assert (k = 1 \/ k = 2 \/ k = 3 \/ k = 4 \/ k = 5 \/ k = 6) as Hcases by lia.
    destruct Hcases as [-> | [-> | [-> | [-> | [-> | ->]]]]]; vm_compute; discriminate.
Qed.

Lemma bn64_scale_mantissa_sample :
  0 <= 1234567 < 2 ^ 64 /\
  exists k v p,
    bn64_scale 7 1234567 0 0 = Some (v, 3 * k, p) /\
    v = 1 /\ (p `mod` 1000) / 10 = 23 /\ bn_human_sfx (3 * k) = 109.
Proof.
  assert (0 <= 1234567 < 2 ^ 64) as H by lia.
  split; [exact H|].
  destruct (bn64_scale_mantissa 1234567 H) as (k & v & p & _ & Hrun & _).
  exists k, v, p. split; [exact Hrun|].
  assert (bn64_scale 7 1234567 0 0 = Some (1, 6, 1234)) as Hc
    by (vm_compute; reflexivity).
  rewrite Hc in Hrun. injection Hrun as <- Hk <-.
  assert (k = 2) as -> by lia. repeat split.
Defined.

Lemma digits_of_length base fuel : forall n k,
  1 < base -> 0 <= n < base ^ Z.of_nat k -> (1 <= k <= fuel)%nat ->
  (1 <= length (digits_of base fuel n) <= k)%nat.
Proof.
  induction fuel as [|f IH]; intros n k Hb Hn Hk; [lia|].
  cbn [digits_of]. destruct (Z.ltb_spec n base) as [Hlt|Hge]; [simpl; lia|].
  rewrite length_app, Nat.add_1_r.
  destruct k as [|[|k]]; [lia| |].
  - change (Z.of_nat 1) with 1 in Hn. rewrite Z.pow_1_r in Hn. lia.
  - destruct (IH (n / base) (S k) Hb) as [Hlo Hhi]; [|lia|lia].
    split; [apply Z.div_pos; lia|].
    apply Z.div_lt_upper_bound; [lia|].
    replace (Z.of_nat (S (S k))) with (Z.succ (Z.of_nat (S k))) in Hn by lia.
    rewrite Z.pow_succ_r in Hn by lia. lia.
Qed.

Lemma digits_of_value base fuel : forall n,
  1 < base -> 0 <= n < base ^ Z.of_nat fuel ->
  foldl (λ acc d, acc * base + d) 0 (digits_of base fuel n) = n.
Proof.
  induction fuel as [|f IH]; intros n Hb Hn.
  - simpl in Hn. simpl. lia.
  - cbn [digits_of]. destruct (Z.ltb_spec n base) as [Hlt|Hge]; [simpl; lia|].
    rewrite foldl_app. cbn [foldl]. rewrite IH; [|done|].
    + pose proof (Z.div_mod n base ltac:(lia)). lia.
    + split; [apply Z.div_pos; lia|].
      apply Z.div_lt_upper_bound; [lia|].
      replace (Z.of_nat (S f)) with (Z.succ (Z.of_nat f)) in Hn by lia.
      rewrite Z.pow_succ_r in Hn by lia. lia.
Qed.

Lemma fmt_lu_length n (k : nat) :
  0 <= n < 10 ^ Z.of_nat k -> (1 <= k <= 20)%nat ->
  (1 <= length (fmt_lu n) <= k)%nat.
Proof.
  intros Hn Hk. unfold fmt_lu. rewrite length_fmap.
  by apply digits_of_length.
Qed.

Lemma pad_length width c s :
  length (pad width c s) = Nat.max (Z.to_nat width) (length s).
Proof. unfold pad. rewrite length_app, length_replicate. lia. Qed.

(** X26.  [bn64] never overruns the widths the tool plans with.  For
    every format and every 64-bit value, given a buffer of at least
    BIGNUM_BUFSZ bytes: the output is not empty and is not cut, it has at
    most [bn_width_max] characters, and in the human and the exponent
    format exactly that many; the width the table columns start with is
    never above [bn_width_max]; and the scalar format prints the decimal
    digits of the value, at most twenty of them. *)
Theorem bn64_fits_width_max (buf_sz : Z) (fmt : bn_fmt) (value : Z) :
  0 <= value < 2 ^ 64 ->
  BIGNUM_BUFSZ <= buf_sz ->
  exists out,
    bn64 buf_sz fmt value = Some out /\
    (1 <= length out)%nat /\
    Z.of_nat (length out) <= bn_width_max fmt /\
    Z.of_nat (length out) < buf_sz /\
    (fmt = BN_HUMAN \/ fmt = BN_EXP -> Z.of_nat (length out) = bn_width_max fmt) /\
    bn_width fmt <= bn_width_max fmt /\
    (fmt = BN_SCALAR ->
       out = digit_char <$> digits_of 10 20 value /\
       foldl (λ acc d, acc * 10 + d) 0 (digits_of 10 20 value) = value).
Proof.
  intros Hv Hbuf. unfold BIGNUM_BUFSZ, BIGNUM_WIDTH_MAX in Hbuf.
  assert (forall s : list Z,
            (1 <= length s)%nat -> Z.of_nat (length s) <= bn_width_max fmt ->
            (fmt = BN_HUMAN \/ fmt = BN_EXP -> Z.of_nat (length s) = bn_width_max fmt) ->
            (fmt = BN_SCALAR -> s = digit_char <$> digits_of 10 20 value) ->
            exists out,
              Some (take (Z.to_nat (buf_sz - 1)) s) = Some out /\
              (1 <= length out)%nat /\
              Z.of_nat (length out) <= bn_width_max fmt /\
              Z.of_nat (length out) < buf_sz /\
              (fmt = BN_HUMAN \/ fmt = BN_EXP ->
                 Z.of_nat (length out) = bn_width_max fmt) /\
              bn_width fmt <= bn_width_max fmt /\
              (fmt = BN_SCALAR ->
                 out = digit_char <$> digits_of 10 20 value /\
                 foldl (λ acc d, acc * 10 + d) 0 (digits_of 10 20 value) = value))
    as Hfin.
  { intros s Hs1 Hs2 Hs3 Hs4.
    assert (bn_width_max fmt <= 21) as Hmax by (by destruct fmt).
    exists s. rewrite take_ge by lia.
    split; [done|]. split; [done|]. split; [done|]. split; [lia|].
    split; [done|]. split; [by destruct fmt|].
    intros Hf. split; [by apply Hs4|].
    apply digits_of_value; [lia|].
    change (10 ^ Z.of_nat 20) with 100000000000000000000. lia. }
  assert (1 <= length (fmt_lu value) <= 20)%nat as Hlu.
  { apply fmt_lu_length; [|lia].
    change (10 ^ Z.of_nat 20) with 100000000000000000000. lia. }
  assert (1 <= length (fmt_lx value) <= 16)%nat as Hlx.
  { unfold fmt_lx. rewrite length_fmap. apply digits_of_length; [lia| |lia].
    change (16 ^ Z.of_nat 16) with (2 ^ 64). lia. }
  assert (forall n, 0 <= n < 1000 -> length (pad 3 32 (fmt_lu n)) = 3%nat) as Hpad3.
  { intros n Hn. rewrite pad_length.
    pose proof (fmt_lu_length n 3 ltac:(change (10 ^ Z.of_nat 3) with 1000; lia)
                  ltac:(lia)). lia. }
  assert (forall n, 0 <= n < 100 -> length (pad 2 48 (fmt_lu n)) = 2%nat) as Hpad2.
  { intros n Hn. rewrite pad_length.
    pose proof (fmt_lu_length n 2 ltac:(change (10 ^ Z.of_nat 2) with 100; lia)
                  ltac:(lia)). lia. }
  assert (fmt = BN_HUMAN \/ fmt = BN_EXP ->
          exists s,
            (v_e_p ← bn64_scale 7 value 0 0;
             let '(v, exp, pv) := v_e_p in
             if exp =? 0 then Some (pad (bn_width_max fmt) 32 (fmt_lu v))
             else
               match fmt with
               | BN_HUMAN =>
                   Some (pad 3 32 (fmt_lu v) ++ [46] ++
                         pad 2 48 (fmt_lu ((pv `mod` 1000) / 10)) ++
                         [bn_human_sfx exp])
               | _ =>
                   Some (pad 3 32 (fmt_lu v) ++ [46] ++
                         pad 2 48 (fmt_lu ((pv `mod` 1000) / 10)) ++
                         [101] ++ pad 2 48 (fmt_lu exp))
               end) = Some s /\
            Z.of_nat (length s) = bn_width_max fmt) as Hscaled.
  { intros Hfmt.
    destruct (bn64_scale_spec 7 value 0 0) as (k & Hk & Hrun & Hres & Hpow);
      [change (1000 ^ (Z.of_nat 7 + 1)) with 1000000000000000000000000; lia
      |lia|lia|].
    rewrite Hrun. cbn [mbind option_bind].
    assert (k <= 6) as Hk6.
    { destruct (Z.le_gt_cases k 6) as [|Hgt]; [done|].
      destruct Hpow as [-> | Hpow]; [lia|].
      assert (1000 ^ 7 <= 1000 ^ k) by (apply Z.pow_le_mono_r; lia).
      change (1000 ^ 7) with 1000000000000000000000 in *. lia. }
    destruct (Z.eqb_spec (0 + 3 * k) 0) as [He|He].
    - eexists. split; [reflexivity|]. rewrite pad_length.
      pose proof (fmt_lu_length (value / 1000 ^ k) 3
                    ltac:(change (10 ^ Z.of_nat 3) with 1000; lia) ltac:(lia)).
      destruct Hfmt as [-> | ->]; simpl; lia.
    - set (pv := (_ `mod` 1000) / 10).
      assert (0 <= pv < 100) as Hpv
        by (unfold pv; Z.to_euclidean_division_equations; lia).
      destruct Hfmt as [-> | ->]; (eexists; split; [reflexivity|]);
        rewrite !length_app, ?Hpad3, ?Hpad2 by lia; simpl; lia. }
  unfold bn64. destruct fmt.
  - destruct Hscaled as (s & -> & Hlen); [by left|]. cbn [mbind option_bind].
    apply Hfin; [simpl in Hlen; lia|lia|done|done].
  - destruct Hscaled as (s & -> & Hlen); [by right|]. cbn [mbind option_bind].
    apply Hfin; [simpl in Hlen; lia|lia|done|done].
  - cbn [mbind option_bind].
    apply Hfin; [lia|simpl; unfold BIGNUM_WIDTH_MAX; lia|by intros [|]|done].
  - cbn [mbind option_bind].
    apply Hfin; [rewrite length_app; simpl; lia|
                 rewrite length_app; simpl; lia|by intros [|]|done].
  - cbn [mbind option_bind].
    apply Hfin; [lia|simpl; lia|by intros [|]|done].
Qed.

Lemma bn64_fits_width_max_sample :
  0 <= 1234567 < 2 ^ 64 /\ BIGNUM_BUFSZ <= 22 /\
  exists out,
    bn64 22 BN_HUMAN 1234567 = Some out /\
    out = [32; 32; 49; 46; 50; 51; 109] /\
    Z.of_nat (length out) = bn_width_max BN_HUMAN.
Proof.
  assert (0 <= 1234567 < 2 ^ 64) as H1 by lia.
  assert (BIGNUM_BUFSZ <= 22) as H2 by (vm_compute; discriminate).
  do 2 (split; [assumption|]).
  destruct (bn64_fits_width_max 22 BN_HUMAN 1234567 H1 H2)
    as (out & Hrun & _ & _ & _ & Hexact & _).
  exists out. split; [exact Hrun|]. split; [|apply Hexact; by left].
  assert (bn64 22 BN_HUMAN 1234567 = Some [32; 32; 49; 46; 50; 51; 109]) as Hc
    by (vm_compute; reflexivity).
  rewrite Hc in Hrun. by injection Hrun.
Defined.

(** ** Capped trees: eviction hints *)

(** X27.  The eviction hints of a capped tree, on a root list that is not
    empty, has no negative dgen and is fitted by the cursor; [first] and
    [last] are the ends of the list.  The call
    returns, and the cursor fits the list afterwards.  It gives up the
    pages of at most one kvset, and only of one that is in the list and
    was created at least the time to live ago, and only when the
    remembered deadline has passed.  The remembered entry is followed only
    while it is in the list.  After giving up a kvset that is not the
    newest, the cursor stands on the next newer kvset, with its dgen and
    its deadline; after giving up the newest, the cursor stays. *)
Theorem capped_evict_advances (kvset_ctime : kvset -> Z) (now evict_ttl : Z)
    (l : list kvset) (cur : capped_cursor) :
  l <> [] ->
  Forall (λ k, 0 <= kvset_get_dgen k) l ->
  cursor_fits l cur ->
  let ttl := u64 (evict_ttl * NSEC_PER_SEC) in
  exists cur' ev,
    cn_tree_capped_evict kvset_ctime now evict_ttl l cur 0 (length l - 1) =
      Some (cur', ev) /\
    cursor_fits l cur' /\
    (now < cc_ttl cur -> ev = None /\ cur' = cur) /\
    (forall k, ev = Some k ->
       cc_ttl cur <= now /\ u64 (kvset_ctime k + ttl) <= now /\
       exists p,
         l !! p = Some k /\
         (p = 0%nat -> cur' = cur) /\
         ((0 < p)%nat ->
            exists kp,
              l !! (p - 1)%nat = Some kp /\
              cur' = mk_cursor (u64 (kvset_ctime kp + ttl)) (kvset_get_dgen kp)
                       (Some (p - 1)%nat))).
Proof.
  intros Hne Hpos Hfits ttl.
  unfold cn_tree_capped_evict.
  destruct (Z.ltb_spec now (cc_ttl cur)) as [Hearly|Hdue].
  { exists cur, None. split; [done|]. split; [done|]. split; [done|]. done. }
  assert (length l - 1 < length l)%nat as Hlast
    by (destruct l; [done|simpl; lia]).
  destruct (lookup_lt_is_Some_2 l _ Hlast) as [klast Hklast].
  rewrite Hklast. cbn [mbind option_bind].
  assert (exists p k,
            (if kvset_get_dgen klast <? cc_dgen cur then cc_le cur
             else Some (length l - 1)%nat) = Some p /\ l !! p = Some k)
    as (p & k & Hp & Hk).
  { destruct (Z.ltb_spec (kvset_get_dgen klast) (cc_dgen cur)) as [Hlt|Hge];
      [|by exists (length l - 1)%nat, klast].
    unfold cursor_fits in Hfits.
    destruct (cc_le cur) as [p|].
    - destruct Hfits as [(k & Hk & _)|[_ Hnewer]]; [by exists p, k|].
      rewrite Forall_forall in Hnewer.
      pose proof (Hnewer klast (list_elem_of_lookup_2 _ _ _ Hklast)). lia.
    - rewrite Forall_forall in Hpos.
      pose proof (Hpos klast (list_elem_of_lookup_2 _ _ _ Hklast)). lia. }
  rewrite Hp. cbn [mbind option_bind]. rewrite Hk. cbn [mbind option_bind].
  fold ttl.
  destruct (Z.ltb_spec now (u64 (kvset_ctime k + ttl))) as [Hyoung|Hold].
  { eexists _, None. split; [reflexivity|]. split; [exact Hfits|]. split; [lia|done]. }
  destruct (decide (p ≠ 0%nat)) as [Hp0|Hp0].
  - destruct p as [|p']; [done|]. cbn [list_prev_entry mbind option_bind].
    assert (p' < length l)%nat as Hp' by (apply lookup_lt_Some in Hk; lia).
    destruct (lookup_lt_is_Some_2 l _ Hp') as [kp Hkp].
    rewrite Hkp. cbn [mbind option_bind].
    eexists _, (Some k). split; [reflexivity|].
    split; [left; by exists kp|].
    split; [lia|].
    intros k0 [= <-]. split; [done|]. split; [done|].
    exists (S p'). split; [done|]. split; [done|].
    intros _. exists kp. by rewrite Nat.sub_1_r.
  - assert (p = 0%nat) as -> by (by destruct (decide (p = 0%nat)); [|lia]).
    eexists _, (Some k). split; [reflexivity|].
    split; [done|]. split; [lia|].
    intros k0 [= <-]. split; [done|]. split; [done|].
    exists 0%nat. split; [done|]. split; [done|]. lia.
Qed.

Lemma capped_evict_advances_sample :
  exists cur' ev,
    cn_tree_capped_evict Scenario.ctime_of (2 ^ 40) 1
      [Sample.k_new; Sample.k_old] Scenario.cursor0 0 1 = Some (cur', ev) /\
    ev = Some Sample.k_old /\
    cur' = mk_cursor (u64 (2000 + NSEC_PER_SEC)) 2 (Some 0%nat).
Proof.
  destruct (capped_evict_advances Scenario.ctime_of (2 ^ 40) 1
              [Sample.k_new; Sample.k_old] Scenario.cursor0)
    as (cur' & ev & Hrun & _).
  - discriminate.
  - repeat constructor; vm_compute; discriminate.
  - reflexivity.
  - exists cur', ev. split; [exact Hrun|].
    assert (cn_tree_capped_evict Scenario.ctime_of (2 ^ 40) 1
              [Sample.k_new; Sample.k_old] Scenario.cursor0 0 1 =
            Some (mk_cursor (u64 (2000 + NSEC_PER_SEC)) 2 (Some 0%nat),
                  Some Sample.k_old)) as Hc by (vm_compute; reflexivity).
    simpl in Hrun. rewrite Hc in Hrun. by injection Hrun as <- <-.
Defined.


(** ** Sampling: ingest updates and initialisation *)

Section ingest_facts.
Context {E : cn_iface}.

Lemma incr_rejected_by_dgen tn k :
  kvset_get_dgen k <= tn_update_incr_dgen tn ->
  tn_samp_update_incr tn k false = (tn, false).
Proof.
  intros Hle. unfold tn_samp_update_incr. cbn [negb andb].
  destruct (Z.leb_spec (kvset_get_dgen k) (tn_update_incr_dgen tn)); [done|lia].
Qed.

Lemma incr_dgen_covers tn k force :
  (tn_samp_update_incr tn k force).2 = true ->
  kvset_get_dgen k <= tn_update_incr_dgen (tn_samp_update_incr tn k force).1.
Proof.
  unfold tn_samp_update_incr.
  destruct (negb force && (kvset_get_dgen k <=? tn_update_incr_dgen tn));
    [done|]. intros _. cbn [fst tn_update_incr_dgen tn_set_samp_state].
  destruct (Z.ltb_spec (tn_update_incr_dgen tn) (kvset_get_dgen k)); lia.
Qed.

(** After an update with a kvset, whether it was counted or not, a
    not forced update with a kvset that is not newer is rejected. *)
Lemma incr_rejects_after tn k force k' :
  kvset_get_dgen k' <= kvset_get_dgen k ->
  tn_samp_update_incr (tn_samp_update_incr tn k force).1 k' false =
    ((tn_samp_update_incr tn k force).1, false).
Proof.
  intros Hle. apply incr_rejected_by_dgen.
  destruct (tn_samp_update_incr tn k force).2 eqn:Hb.
  - pose proof (incr_dgen_covers tn k force Hb). lia.
  - revert Hb. unfold tn_samp_update_incr.
    destruct (negb force && (kvset_get_dgen k <=? tn_update_incr_dgen tn))
      eqn:Hrej; [|done]. intros _. cbn [fst].
    apply andb_true_iff in Hrej as [_ Hd]. apply Z.leb_le in Hd. lia.
Qed.

Lemma finish_keeps_incr_dgen tn tn' :
  tn_samp_update_finish tn = Some tn' ->
  tn_update_incr_dgen tn' = tn_update_incr_dgen tn.
Proof.
  unfold tn_samp_update_finish. intros Hf.
  destruct (tn_size_max tn =? 0); [done|]. by injection Hf as <-.
Qed.

(** The node part of an ingest update: the node it leaves rejects its
    newest kvset. *)
Lemma ingest_node_settled tn k tn' :
  (if (tn_samp_update_incr tn k false).2
   then tn_samp_update_finish (tn_samp_update_incr tn k false).1
   else Some (tn_samp_update_incr tn k false).1) = Some tn' ->
  tn_kvset_list tn' = tn_kvset_list tn /\
  tn_samp_update_incr tn' k false = (tn', false).
Proof.
  intros Hrun.
  destruct (clear_after_incr tn k false) as [_ Hl].
  destruct (tn_samp_update_incr tn k false).2 eqn:Hb.
  - destruct (clear_after_finish _ _ Hrun) as [_ Hl'].
    split; [congruence|]. apply incr_rejected_by_dgen.
    rewrite (finish_keeps_incr_dgen _ _ Hrun). by apply incr_dgen_covers.
  - injection Hrun as <-. split; [done|].
    by apply (incr_rejects_after tn k false k).
Qed.

End ingest_facts.

(** X28.  An ingest update counts the newest kvset of a node once: run a
    second time on the tree it left, it returns that tree unchanged. *)
Theorem update_ingest_twice {E : cn_iface} (t t1 : cn_tree) (n : nat) :
  cn_tree_samp_update_ingest t n = Some t1 ->
  cn_tree_samp_update_ingest t1 n = Some t1.
Proof.
  intros Hup. unfold cn_tree_samp_update_ingest in Hup.
  destruct (ct_nodes t !! n) as [tn|] eqn:Hn; [|done].
  cbn [mbind option_bind] in Hup.
  destruct (tn_kvset_list tn) as [|k l] eqn:Hl.
  { injection Hup as <-. unfold cn_tree_samp_update_ingest.
    rewrite Hn. cbn [mbind option_bind]. by rewrite Hl. }
  pose proof (ingest_node_settled tn k) as Hsettled.
  destruct (tn_samp_update_incr tn k false) as [tn1 b]. cbn [fst snd] in Hsettled.
  destruct (if b then tn_samp_update_finish tn1 else Some tn1) as [tn'|] eqn:Hf;
    [|done].
  destruct (Hsettled tn' eq_refl) as [Hl' Hrej].
  cbn [mbind option_bind] in Hup. injection Hup as <-.
  unfold cn_tree_samp_update_ingest. cbn [ct_nodes ct_set_nodes_samp ct_samp].
  rewrite list_lookup_insert_eq by (by eapply lookup_lt_Some).
  cbn [mbind option_bind]. rewrite Hl', Hl, Hrej. cbn [mbind option_bind].
  rewrite list_insert_insert_eq.
  rewrite samp_apply_delta_same by (repeat split; apply s64_in_range).
  reflexivity.
Qed.


Lemma update_ingest_twice_sample :
  cn_tree_samp_update_ingest (E := Sample.iface) Scenario.once_ingested 1 =
    Some Scenario.once_ingested /\
  Scenario.once_ingested <> Sample.tree3.
Proof.
  split.
  - apply (update_ingest_twice (E := Sample.iface) Sample.tree3).
    vm_compute; reflexivity.
  - vm_compute; discriminate.
Defined.

Section init_facts.
Context {E : cn_iface}.

Lemma compact_step t n tn :
  ct_nodes t !! n = Some tn -> tn_size_max tn <> 0 ->
  exists tn',
    tn_samp_recompute tn = Some tn' /\
    cn_tree_samp_update_compact t n =
      Some (ct_set_nodes_samp t (<[n := tn']> (ct_nodes t))
              (samp_apply_delta (ct_samp t) (tn_samp tn') (tn_samp tn))).
Proof.
  intros Hn Hsz. destruct (recompute_succeeds tn Hsz) as (tn' & Hrec & _).
  exists tn'. split; [done|].
  unfold cn_tree_samp_update_compact. rewrite Hn. cbn [mbind option_bind].
  by rewrite Hrec.
Qed.

(** The walk of [cn_tree_samp_init] from node [n] on: it completes, each
    node it passes is left with the record of its recomputed stats, the
    nodes before [n] are not touched, and only sampling state changes. *)
Lemma compact_nodes_total count : forall t n,
  (n + count <= length (ct_nodes t))%nat ->
  Forall (λ tn, tn_size_max tn <> 0) (ct_nodes t) ->
  exists t',
    samp_compact_nodes t n count = Some t' /\
    tn_samp_clear <$> ct_nodes t' = tn_samp_clear <$> ct_nodes t /\
    (forall i, (i < n)%nat -> ct_nodes t' !! i = ct_nodes t !! i) /\
    (forall i tn tn', (n <= i < n + count)%nat ->
       ct_nodes t !! i = Some tn -> ct_nodes t' !! i = Some tn' ->
       tn_samp_recompute tn = Some tn').
Proof.
  induction count as [|count IH]; intros t n Hlen Hsz.
  { exists t. split; [done|]. split; [done|]. split; [done|]. intros; lia. }
  destruct (lookup_lt_is_Some_2 (ct_nodes t) n ltac:(lia)) as [tn Hn].
  destruct (compact_step t n tn Hn) as (tn1 & Hrec & Hstep).
  { rewrite Forall_lookup in Hsz. by eapply Hsz. }
  destruct (recompute_frame _ _ Hrec) as [Hclear _].
  set (t1 := ct_set_nodes_samp t (<[n := tn1]> (ct_nodes t))
               (samp_apply_delta (ct_samp t) (tn_samp tn1) (tn_samp tn))) in *.
  assert (tn_samp_clear <$> ct_nodes t1 = tn_samp_clear <$> ct_nodes t)
    as Hframe1 by (by apply (fmap_insert_same _ _ _ tn)).
  destruct (size_max_frame _ _ Hframe1) as [Hlen1 Hsz1].
  destruct (IH t1 (S n)) as (t' & Hrun & Hframe & Hbefore & Hdone).
  { rewrite Hlen1. lia. }
  { by apply Hsz1. }
  exists t'. split.
  { cbn [samp_compact_nodes]. rewrite Hstep. cbn [mbind option_bind]. exact Hrun. }
  split; [congruence|]. split.
  - intros i Hi. rewrite Hbefore by lia. unfold t1. cbn [ct_nodes ct_set_nodes_samp].
    apply list_lookup_insert_ne. lia.
  - intros i x x' Hi Hx Hx'.
    destruct (decide (i = n)) as [->|Hne].
    + rewrite Hbefore in Hx' by lia. unfold t1 in Hx'.
      cbn [ct_nodes ct_set_nodes_samp] in Hx'.
      rewrite list_lookup_insert_eq in Hx' by (by eapply lookup_lt_Some).
      congruence.
    + apply (Hdone i x x'); [lia| |done].
      unfold t1. cbn [ct_nodes ct_set_nodes_samp].
      rewrite list_lookup_insert_ne by lia. done.
Qed.

End init_facts.

(** X29.  [cn_tree_samp_init] on a tree whose nodes have a size threshold
    and zeroed samp records: it completes; every node is left as its own
    full recomputation leaves it, so with the samp record its finished
    stats give and with its kvset list as before; nothing but sampling
    state changes; and the tree's samp record is the sum of the node
    records. *)
Theorem samp_init_recomputes_every_node {E : cn_iface} (t : cn_tree) :
  Forall (λ tn, tn_size_max tn <> 0) (ct_nodes t) ->
  Forall (λ tn, tn_samp tn = samp_zero) (ct_nodes t) ->
  exists t',
    cn_tree_samp_init t = Some t' /\
    tree_samp_ok t' /\
    Forall2 (λ tn tn',
               tn_samp_recompute tn = Some tn' /\
               tn_samp tn' = tn_samp_of tn' (tn_ns tn') /\
               tn_kvset_list tn' = tn_kvset_list tn /\
               tn_samp_clear tn' = tn_samp_clear tn)
            (ct_nodes t) (ct_nodes t').
Proof.
  intros Hsz Hzero.
  destruct (compact_nodes_total (length (ct_nodes t))
              (ct_set_nodes_samp t (ct_nodes t) samp_zero) ct_root)
    as (t' & Hrun & Hframe & _ & Hdone); [done|done|].
  exists t'. split; [exact Hrun|]. split.
  { by eapply samp_init_establishes_total. }
  cbn [ct_nodes ct_set_nodes_samp] in Hframe, Hdone.
  destruct (size_max_frame _ _ Hframe) as [Hlen _].
  apply Forall2_same_length_lookup_2; [done|].
  intros i tn tn' Hi Hi'.
  assert (tn_samp_recompute tn = Some tn') as Hrec.
  { apply (Hdone i); [|done|done]. apply lookup_lt_Some in Hi.
    unfold ct_root. lia. }
  destruct (recompute_frame _ _ Hrec) as [Hc Hl].
  split; [done|]. split; [by eapply recompute_samp_consistent|]. done.
Qed.

Lemma samp_init_recomputes_every_node_sample :
  exists t',
    cn_tree_samp_init (E := Sample.iface) Sample.tree3 = Some t' /\
    ct_samp t' <> samp_zero.
Proof.
  destruct (samp_init_recomputes_every_node (E := Sample.iface) Sample.tree3)
    as (t' & Hrun & _).
  - repeat constructor; vm_compute; discriminate.
  - repeat constructor.
  - exists t'. split; [exact Hrun|].
    assert (cn_tree_samp_init (E := Sample.iface) Sample.tree3 =
            Some Sample.tree3_init) as Hc
      by (vm_compute; reflexivity).
    rewrite Hc in Hrun. injection Hrun as <-. vm_compute; discriminate.
Defined.


(** ** Largest key of a node *)

Section node_key_facts.
Variable keycmp : key -> key -> Z.
Hypothesis keycmp_trans : forall a b c,
  keycmp a b <= 0 -> keycmp b c <= 0 -> keycmp a c <= 0.
Hypothesis keycmp_anti : forall a b, 0 < keycmp a b -> keycmp b a <= 0.

Lemma keycmp_refl a : keycmp a a <= 0.
Proof.
  destruct (Z_lt_le_dec 0 (keycmp a a)) as [Hlt|Hle]; [|done].
  by apply keycmp_anti.
Qed.

(** The scan from a key [m] on: the key it ends with is not below [m] and
    not below any key of the list; it is [m], or the key of the first
    kvset of the list that is above [m] and above every key before it. *)
Lemma max_key_scan_spec l : forall m,
  Forall (λ k, is_Some (kvset_get_max_key k)) l ->
  exists r,
    max_key_scan keycmp l (Some m) = Some (Some r) /\
    keycmp m r <= 0 /\
    (forall k key, k ∈ l -> kvset_get_max_key k = Some key -> keycmp key r <= 0) /\
    (r = m \/
     exists p k,
       l !! p = Some k /\ kvset_get_max_key k = Some r /\ 0 < keycmp r m /\
       forall j kj keyj, (j < p)%nat -> l !! j = Some kj ->
         kvset_get_max_key kj = Some keyj -> 0 < keycmp r keyj).
Proof.
  induction l as [|k l IH]; intros m Hkeys.
  { exists m. split; [done|]. split; [apply keycmp_refl|].
    split; [|by left]. intros k key Hin. by apply elem_of_nil in Hin. }
  apply Forall_cons in Hkeys as [[x Hx] Hkeys].
  cbn [max_key_scan]. rewrite Hx.
  destruct (Z.ltb_spec 0 (keycmp x m)) as [Habove|Hbelow].
  - destruct (IH x Hkeys) as (r & Hrun & Hxr & Hall & Hwhich).
    exists r. split; [done|].
    assert (keycmp m r <= 0) as Hmr
      by (eapply keycmp_trans; [by apply keycmp_anti|done]).
    split; [done|]. split.
    { intros k' key' Hin Hkey'. apply elem_of_cons in Hin as [->|Hin].
      - congruence.
      - by eapply Hall. }
    right. destruct Hwhich as [->|(p & kp & Hp & Hkp & Hrx & Hbefore)].
    + exists 0%nat, k. split; [done|]. split; [done|]. split; [done|].
      intros; lia.
    + exists (S p), kp. split; [done|]. split; [done|]. split.
      { destruct (Z_lt_le_dec 0 (keycmp r m)) as [|Hle]; [done|].
        pose proof (keycmp_trans r m x Hle (keycmp_anti _ _ Habove)). lia. }
      intros [|j] kj keyj Hj Hkj Hkeyj.
      * cbn in Hkj. congruence.
      * apply (Hbefore j kj keyj); [lia|done|done].
  - destruct (IH m Hkeys) as (r & Hrun & Hmr & Hall & Hwhich).
    exists r. split; [done|]. split; [done|]. split.
    { intros k' key' Hin Hkey'. apply elem_of_cons in Hin as [->|Hin].
      - assert (key' = x) as -> by congruence. by eapply keycmp_trans.
      - by eapply Hall. }
    destruct Hwhich as [->|(p & kp & Hp & Hkp & Hrm & Hbefore)]; [by left|].
    right. exists (S p), kp. split; [done|]. split; [done|]. split; [done|].
    intros [|j] kj keyj Hj Hkj Hkeyj.
    + cbn in Hkj. assert (keyj = x) as -> by congruence.
      destruct (Z_lt_le_dec 0 (keycmp r x)) as [|Hle]; [done|].
      pose proof (keycmp_trans r x m Hle Hbelow). lia.
    + apply (Hbefore j kj keyj); [lia|done|done].
Qed.

End node_key_facts.

(** X30.  [cn_tree_node_get_max_key] on a node whose list is not empty
    and whose kvsets all have a max key, for a key comparison that is
    transitive and never puts two keys each above the other.  The call
    returns.  The key it reports is the max key of a kvset of the node;
    no kvset of the node has a key above it; and every newer kvset has a
    key below it, so of equal largest keys the newest kvset's is taken.
    The reported length is the full length of that key, also when the
    buffer is shorter; the buffer receives the first [kbuf_sz] bytes of
    the key at most and keeps the rest of its contents. *)
Theorem node_max_key_is_newest_maximum (keycmp : key -> key -> Z)
    (tn : cn_tree_node) (kbuf : list Z) (kbuf_sz : Z) :
  (forall a b c, keycmp a b <= 0 -> keycmp b c <= 0 -> keycmp a c <= 0) ->
  (forall a b, 0 < keycmp a b -> keycmp b a <= 0) ->
  tn_kvset_list tn <> [] ->
  Forall (λ k, is_Some (kvset_get_max_key k)) (tn_kvset_list tn) ->
  exists p k m,
    tn_kvset_list tn !! p = Some k /\
    kvset_get_max_key k = Some m /\
    cn_tree_node_get_max_key keycmp tn kbuf kbuf_sz =
      Some (take (Z.to_nat (Z.min kbuf_sz (Z.of_nat (length m)))) m ++
            drop (Z.to_nat (Z.min kbuf_sz (Z.of_nat (length m)))) kbuf,
            Z.of_nat (length m)) /\
    (forall k' key', k' ∈ tn_kvset_list tn ->
       kvset_get_max_key k' = Some key' -> keycmp key' m <= 0) /\
    (forall j kj keyj, (j < p)%nat -> tn_kvset_list tn !! j = Some kj ->
       kvset_get_max_key kj = Some keyj -> 0 < keycmp m keyj).
Proof.
  intros Htrans Hanti Hne Hkeys. unfold cn_tree_node_get_max_key.
  destruct (tn_kvset_list tn) as [|k0 l]; [done|].
  apply Forall_cons in Hkeys as [[x Hx] Hkeys].
  cbn [max_key_scan]. rewrite Hx.
  destruct (max_key_scan_spec keycmp Htrans Hanti l x Hkeys)
    as (r & Hrun & Hxr & Hall & Hwhich).
  rewrite Hrun. cbn [mbind option_bind]. unfold memcpy.
  destruct Hwhich as [->|(p & kp & Hp & Hkp & Hrx & Hbefore)].
  - exists 0%nat, k0, x. split; [done|]. split; [done|]. split; [done|].
    split; [|intros; lia].
    intros k' key' Hin Hkey'. apply elem_of_cons in Hin as [->|Hin].
    + congruence.
    + by eapply Hall.
  - exists (S p), kp, r. split; [done|]. split; [done|]. split; [done|].
    split.
    + intros k' key' Hin Hkey'. apply elem_of_cons in Hin as [->|Hin].
      * congruence.
      * by eapply Hall.
    + intros [|j] kj keyj Hj Hkj Hkeyj.
      * cbn in Hkj. congruence.
      * apply (Hbefore j kj keyj); [lia|done|done].
Qed.

Lemma node_max_key_is_newest_maximum_sample :
  exists m,
    cn_tree_node_get_max_key Scenario.by_length Scenario.long_node [0; 0] 2 =
      Some (take (Z.to_nat (Z.min 2 (Z.of_nat (length m)))) m ++
            drop (Z.to_nat (Z.min 2 (Z.of_nat (length m)))) [0; 0],
            Z.of_nat (length m)) /\
    Z.of_nat (length m) = 3.
Proof.
  destruct (node_max_key_is_newest_maximum Scenario.by_length
              Scenario.long_node [0; 0] 2)
    as (p & k & m & _ & _ & Hrun & _).
  - unfold Scenario.by_length. intros a b c. lia.
  - unfold Scenario.by_length. intros a b. lia.
  - discriminate.
  - repeat constructor; by eexists.
  - exists m. split; [exact Hrun|].
    assert (cn_tree_node_get_max_key Scenario.by_length Scenario.long_node
              [0; 0] 2 = Some ([7; 8], 3)) as Hc by (vm_compute; reflexivity).
    rewrite Hc in Hrun. by injection Hrun.
Defined.
